(** * MiV-OS: pipeline executor, threshold-cutoff spike detection, burst statistics

    A shallow embedding of
      - [miv/core/pipeline.py]            (class [Pipeline]),
      - [miv/signal/spike/detection.py]   (class [ThresholdCutoff]),
      - [miv/statistics/burst.py]         (function [burst]),
    followed by the properties of these programs.

    Conventions.
      - Python [int] is [Z] (indices never leave the 64-bit range of numpy's
        [intp], so no wrap-around is written out).
      - A Python [float] (IEEE 754 binary64) is the rational [Q] it stands
        for.  Comparisons are exact, as they are on floats.  Every arithmetic
        operation of the sources ([*], [-], [+], [/] on floats) rounds its
        exact result to the nearest float, ties to even ([round_float64]);
        negation and absolute value are exact.  An index or a count that is
        converted to a float is not rounded: arrays have fewer than [2^53]
        entries.  The non-finite floats ([inf], [nan]) are not values of
        this model.  Where an operation on finite floats overflows, its
        rounded result, of magnitude [2^1024] or more, stands for the
        infinity wherever that is only compared with finite floats;
        [int(x)] of it raises, as Python's does; and a property of values
        that are computed from it excludes the overflow by a hypothesis.
        Where numpy would divide by zero the definition says what stands
        for the result.
      - A Python object is an address ([loc]) into a store; attributes that
        the code probes or assigns are fields of the stored record.
      - A call that may raise returns an [option] (pure numeric code) or an
        [outcome] (the executor, which also threads the store and a trace). *)

From Stdlib Require Import List String Ascii ZArith QArith Qabs Qround Qpower Lia Lqa Bool
  DecimalString Sorted.
From Equations Require Import Equations.
Import ListNotations.

Set Implicit Arguments.

(* ===================================================================== *)
(** * Part I: definitions                                                 *)
(* ===================================================================== *)

(** ** Python built-ins used by the sources *)

Open Scope string_scope.

(** [str(i)] for a non-negative [int]. *)
Definition py_str_of_nat (n : nat) : string :=
  NilZero.string_of_uint (Nat.to_uint n).

(** The string ["\n"] of Python: one line feed. *)
Definition newline : string := String "010"%char EmptyString.

(** [sep.join(l)]. *)
Definition py_join (sep : string) (l : list string) : string :=
  String.concat sep l.

(** [s * n] for a string [s]. *)
Fixpoint py_str_mul (s : string) (n : nat) : string :=
  match n with
  | O => ""
  | S k => s ++ py_str_mul s k
  end.

(** [enumerate(l)]. *)
Definition py_enumerate {A : Type} (l : list A) : list (nat * A) :=
  combine (seq 0 (List.length l)) l.

(** A keyword argument that was not passed takes its default. *)
Definition py_default {A : Type} (d : A) (o : option A) : A :=
  match o with
  | Some a => a
  | None => d
  end.

(** ** The object store of the executor *)

Definition loc := nat.

(** A node: its string form ([str(node)]) and its [cacher] attribute, which is
    absent ([hasattr(node, "cacher")] is false) or the address of a cacher. *)
Record node_obj : Type := mk_node
  { node_str : string;
    node_cacher : option loc }.

(** A cacher (Cache Policy Controller): the [cache_policy] attribute. *)
Record cacher_obj : Type := mk_cacher
  { cache_policy : string }.

Record store : Type := mk_store
  { nodes : loc -> node_obj;
    cachers : loc -> cacher_obj }.

(** [cacher.cache_policy = p] for the cacher at address [c]; every other
    cacher, and every node, is left as it is. *)
Definition set_cache_policy (c : loc) (p : string) (st : store) : store :=
  {| nodes := nodes st;
     cachers := fun c' => if Nat.eqb c' c then {| cache_policy := p |} else cachers st c' |}.

(** [Optional[Union[str, pathlib.Path]]]. *)
Inductive py_path : Type :=
| PyNone
| PyStr (s : string)
| PyPath (s : string).

(** What the executor does that an observer can see: the call of
    [topological_sort], a printed line, and the call of a node's [run] with
    its keyword arguments and the store the node finds. *)
Inductive event : Type :=
| EvTopologicalSort (root : loc)
| EvPrint (line : string)
| EvRun (node : loc) (dry_run : bool) (save_path : py_path) (seen : store).

Inductive outcome (E A : Type) : Type :=
| Returned (a : A)
| Raised (e : E).
Arguments Returned {E A} a.
Arguments Raised {E A} e.

(** The collaborators of [Pipeline] that live outside [pipeline.py]:
    [_Runnable.run] of a node (it may change the store and may raise) and
    [_Chainable.topological_sort] (it reads the graph out of the store). *)
Class Collaborators : Type :=
  { exn : Type;
    node_run : loc -> bool -> py_path -> store -> store * option exn;
    topological_sort : store -> loc -> list loc }.

Section Executor.

Context {C : Collaborators}.

(** Computations of the executor: store passing, a trace of events in
    chronological order, and a result or an exception. *)
Definition M (A : Type) : Type := store -> list event * store * outcome exn A.

Definition ret {A : Type} (a : A) : M A :=
  fun st => ([], st, Returned a).

Definition bind {A B : Type} (m : M A) (k : A -> M B) : M B :=
  fun st =>
    match m st with
    | (t1, st1, Raised e) => (t1, st1, Raised e)
    | (t1, st1, Returned a) =>
        match k a st1 with
        | (t2, st2, r) => ((t1 ++ t2)%list, st2, r)
        end
    end.

Definition emit (ev : event) : M unit :=
  fun st => ([ev], st, Returned tt).

Definition get_store : M store :=
  fun st => ([], st, Returned st).

Definition modify_store (f : store -> store) : M unit :=
  fun st => ([], f st, Returned tt).

End Executor.

Declare Scope exec_scope.
Delimit Scope exec_scope with exec.
Notation "x <- m ;; k" := (bind m (fun x => k))
  (at level 61, m at next level, right associativity) : exec_scope.
Notation "m ;;; k" := (bind m (fun _ => k))
  (at level 61, right associativity) : exec_scope.
Open Scope exec_scope.

Section ExecutorPrograms.

Context {C : Collaborators}.

(** [for x in l: acc = body(acc, x)], left to right; an exception raised by
    the body leaves the loop. *)
Fixpoint for_fold {A X : Type} (body : A -> X -> M A) (l : list X) (acc : A) : M A :=
  match l with
  | [] => ret acc
  | x :: rest => acc' <- body acc x ;; for_fold body rest acc'
  end.

Definition for_each {X : Type} (l : list X) (body : X -> M unit) : M unit :=
  for_fold (fun _ x => body x) l tt.

Definition when (b : bool) (m : M unit) : M unit :=
  if b then m else ret tt.

(** [str(node)]. *)
Definition py_str (node : loc) : M string :=
  st <- get_store ;; ret (node_str (nodes st node)).

(** [print(a, b, ...)]: the arguments joined by a space, as one line. *)
Definition print (args : list string) : M unit :=
  emit (EvPrint (py_join " " args)).

(** [node.run(dry_run=dry_run, save_path=save_path)]. *)
Definition call_run (node : loc) (dry_run : bool) (save_path : py_path) : M unit :=
  fun st =>
    match node_run node dry_run save_path st with
    | (st', Some e) => ([EvRun node dry_run save_path st], st', Raised e)
    | (st', None) => ([EvRun node dry_run save_path st], st', Returned tt)
    end.

(** [node.topological_sort()]. *)
Definition call_topological_sort (node : loc) : M (list loc) :=
  emit (EvTopologicalSort node) ;;;
  st <- get_store ;; ret (topological_sort st node).

(** ** [class Pipeline] *)

Record Pipeline : Type := mk_Pipeline
  { execution_order : list loc }.

(** [Pipeline.__init__(self, node)]. *)
Definition Pipeline_init (node : loc) : M Pipeline :=
  order <- call_topological_sort node ;;
  ret {| execution_order := order |}.

(** [Pipeline.summarize(self)]. *)
Definition Pipeline_summarize (self : Pipeline) : M string :=
  strs <- for_fold
            (fun strs (iop : nat * loc) =>
               s <- py_str (snd iop) ;;
               ret (strs ++ [(py_str_of_nat (fst iop) ++ ": " ++ s)%string])%list)
            (py_enumerate (execution_order self))
            ([] ++ ["Execution order:"])%list ;;
  ret (py_join newline strs).

(** The keyword arguments of [Pipeline.run]; [None] is an argument that the
    caller did not pass. *)
Record run_args : Type := mk_run_args
  { arg_save_path : option py_path;
    arg_no_cache : option bool;
    arg_dry_run : option bool;
    arg_verbose : option bool }.

(** The statement
      [if hasattr(node, "cacher"):
           node.cacher.cache_policy = "OFF" if no_cache else "AUTO"]. *)
Definition configure_cacher (no_cache : bool) (node : loc) : M unit :=
  st <- get_store ;;
  match node_cacher (nodes st node) with
  | Some c => modify_store (set_cache_policy c (if no_cache then "OFF" else "AUTO"))
  | None => ret tt
  end.

(** The body of the loop of [Pipeline.run]. *)
Definition run_node (save_path : py_path) (no_cache dry_run verbose : bool)
  (node : loc) : M unit :=
  when verbose (s <- py_str node ;; print ["Running: "; s]) ;;;
  configure_cacher no_cache node ;;;
  call_run node dry_run save_path.

(** [Pipeline.run(self, save_path="./results", no_cache=False, dry_run=False,
    verbose=False)]. *)
Definition Pipeline_run (self : Pipeline) (args : run_args) : M unit :=
  let save_path := py_default (PyStr "./results") (arg_save_path args) in
  let no_cache := py_default false (arg_no_cache args) in
  let dry_run := py_default false (arg_dry_run args) in
  let verbose := py_default false (arg_verbose args) in
  for_each (execution_order self) (run_node save_path no_cache dry_run verbose) ;;;
  when verbose
    (print ["Pipeline done:"] ;;;
     _ <- Pipeline_summarize self ;;
     print [py_str_mul "-" 46]).

(** A pipeline is built once and then used: the methods a caller may invoke
    on it afterwards. *)
Inductive method_call : Type :=
| CallRun (args : run_args)
| CallSummarize.

Definition invoke (self : Pipeline) (c : method_call) : M unit :=
  match c with
  | CallRun args => Pipeline_run self args
  | CallSummarize => _ <- Pipeline_summarize self ;; ret tt
  end.

(** [p = Pipeline(node)] followed by the given calls on [p]. *)
Definition session (node : loc) (calls : list method_call) : M unit :=
  p <- Pipeline_init node ;;
  for_each calls (invoke p).

End ExecutorPrograms.

(** Observations on a finished computation. *)
Definition trace_of {E A : Type} (r : list event * store * outcome E A) : list event :=
  fst (fst r).

Definition store_of {E A : Type} (r : list event * store * outcome E A) : store :=
  snd (fst r).

Definition outcome_of {E A : Type} (r : list event * store * outcome E A) : outcome E A :=
  snd r.

(** The lines printed, in order. *)
Fixpoint printed (t : list event) : list string :=
  match t with
  | [] => []
  | EvPrint s :: t' => s :: printed t'
  | _ :: t' => printed t'
  end.

(** The nodes whose [run] was invoked, in order. *)
Fixpoint ran_nodes (t : list event) : list loc :=
  match t with
  | [] => []
  | EvRun n _ _ _ :: t' => n :: ran_nodes t'
  | _ :: t' => ran_nodes t'
  end.


(** How many times [topological_sort] was called. *)
Fixpoint count_topological_sort (t : list event) : nat :=
  match t with
  | [] => 0
  | EvTopologicalSort _ :: t' => S (count_topological_sort t')
  | _ :: t' => count_topological_sort t'
  end.

(** ** Python floats *)

Open Scope Z_scope.

(** [floor(log2 q)] for a positive rational: the exponent of its leading
    bit. *)
Definition Qlog2 (q : Q) : Z :=
  let e := Z.log2 (Qnum q) - Z.log2 (Zpos (Qden q)) in
  if Qle_bool (2 ^ e)%Q q then e else e - 1.

(** The nearest integer, a tie going to the even neighbour. *)
Definition round_half_even (q : Q) : Z :=
  let f := Qfloor q in
  match Qcompare (q - inject_Z f) (1 # 2) with
  | Lt => f
  | Gt => f + 1
  | Eq => if Z.even f then f else f + 1
  end.

(** The exponent of the last place of the float nearest to [q >= 0]:
    binary64 has 53 significant bits and no exponent below [-1074] (below
    [2^-1022] the floats are the multiples of [2^-1074]). *)
Definition float_exponent (q : Q) : Z :=
  Z.max (-1074) (Qlog2 q - 52).

(** The float nearest to [q >= 0]: [q] in units of the last place, rounded
    to an integer, ties to even. *)
Definition round_magnitude (q : Q) : Q :=
  let e := float_exponent q in
  (inject_Z (round_half_even (q / 2 ^ e)) * 2 ^ e)%Q.

(** The float nearest to the rational [q], ties to even: what every float
    operation makes of its exact result. *)
Definition round_float64 (q : Q) : Q :=
  Qred (if Qle_bool 0 q then round_magnitude q else - round_magnitude (- q))%Q.

(** [x * y], [x + y], [x - y] and [x / y] on floats. *)
Definition float_mul (x y : Q) : Q := round_float64 (x * y).
Definition float_add (x y : Q) : Q := round_float64 (x + y).
Definition float_sub (x y : Q) : Q := round_float64 (x - y).
Definition float_div (x y : Q) : Q := round_float64 (x / y).

(** The float that a decimal literal of the sources denotes ([0.003],
    [0.6745]). *)
Definition py_float (literal : Q) : Q := round_float64 literal.

(** The rational [q] is a finite float. *)
Definition is_float64 (q : Q) : Prop :=
  (round_float64 q == q)%Q /\ (Qabs q < 2 ^ 1024)%Q.

(** The float operation that gave [x] overflowed: the largest finite float
    is below [2^1024], and [x] stands for an infinity. *)
Definition float_overflow (x : Q) : bool :=
  Qle_bool (2 ^ 1024)%Q (Qabs x).

(** ** numpy and Python sequence operations used by the numeric sources *)

Definition inspect {A : Type} (a : A) : {b : A | a = b} :=
  exist _ a eq_refl.

(** [l[i]] for a sequence: a negative index counts from the end, an index
    outside the sequence raises [IndexError] ([None]). *)
Definition py_index {A : Type} (l : list A) (i : Z) : option A :=
  let n := Z.of_nat (List.length l) in
  if (0 <=? i) && (i <? n) then nth_error l (Z.to_nat i)
  else if (i <? 0) && (- n <=? i) then nth_error l (Z.to_nat (i + n))
  else None.

(** A bound of a slice [l[lo:hi]] brought into [0..n]. *)
Definition py_clip (n i : Z) : Z :=
  if i <? 0 then Z.max 0 (i + n) else Z.min i n.

(** [l[lo:hi]]. *)
Definition py_slice {A : Type} (l : list A) (lo hi : Z) : list A :=
  let n := Z.of_nat (List.length l) in
  let lo' := py_clip n lo in
  let hi' := py_clip n hi in
  firstn (Z.to_nat (hi' - lo')) (skipn (Z.to_nat lo') l).

(** [a[lo:hi] = v] for a numpy array [a]. *)
Definition np_slice_fill {A : Type} (l : list A) (lo hi : Z) (v : A) : list A :=
  let n := Z.of_nat (List.length l) in
  let lo' := py_clip n lo in
  let hi' := py_clip n hi in
  map (fun kx : nat * A =>
         if (lo' <=? Z.of_nat (fst kx)) && (Z.of_nat (fst kx) <? hi') then v else snd kx)
      (py_enumerate l).

(** [np.arange(k)]. *)
Definition np_arange (k : Z) : list Z :=
  map Z.of_nat (seq 0 (Z.to_nat k)).

(** [a <= x], elementwise. *)
Definition np_le (a : list Q) (x : Q) : list bool :=
  map (fun y => Qle_bool y x) a.

(** [a.astype(int)] for a boolean array. *)
Definition np_astype_int (a : list bool) : list Z :=
  map (fun b : bool => if b then 1 else 0) a.

(** [a > 0], elementwise. *)
Definition np_gt0 (a : list Z) : list bool :=
  map (fun z => 0 <? z) a.

(** [np.diff(a)] for a boolean array: [out[i] = (a[i+1] != a[i])]. *)
Fixpoint np_diff_bool (a : list bool) : list bool :=
  match a with
  | x :: (y :: _) as rest => xorb y x :: np_diff_bool rest
  | _ => []
  end.

(** [np.diff(a)] for an integer array: [out[i] = a[i+1] - a[i]]. *)
Fixpoint np_diff (a : list Z) : list Z :=
  match a with
  | x :: (y :: _) as rest => (y - x) :: np_diff rest
  | _ => []
  end.

(** [np.diff(a)] for a float array: [out[i] = a[i+1] - a[i]], each a float
    subtraction. *)
Fixpoint np_diff_Q (a : list Q) : list Q :=
  match a with
  | x :: (y :: _) as rest => float_sub y x :: np_diff_Q rest
  | _ => []
  end.

(** [a.nonzero()[0]] for a boolean array: the indices that hold [True]. *)
Fixpoint np_nonzero_from (i : Z) (a : list bool) : list Z :=
  match a with
  | [] => []
  | b :: rest => if b then i :: np_nonzero_from (i + 1) rest
                 else np_nonzero_from (i + 1) rest
  end.

Definition np_nonzero (a : list bool) : list Z :=
  np_nonzero_from 0 a.

(** [a >= x], elementwise, for an array of indices or counts and a float. *)
Definition np_ge (a : list Z) (x : Q) : list bool :=
  map (fun z => Qle_bool x (inject_Z z)) a.

(** [np.insert(a, 0, v)]. *)
Definition np_insert0 {A : Type} (a : list A) (v : A) : list A :=
  v :: a.

(** [np.all(a)]. *)
Definition np_all (a : list bool) : bool :=
  forallb (fun b => b) a.

(** [a[mask]] for a boolean [mask]: the entries of [a] where [mask] holds;
    [IndexError] ([None]) when the lengths differ. *)
Fixpoint np_mask {A : Type} (a : list A) (mask : list bool) : option (list A) :=
  match a, mask with
  | [], [] => Some []
  | x :: a', b :: mask' =>
      match np_mask a' mask' with
      | Some r => Some (if b then x :: r else r)
      | None => None
      end
  | _, _ => None
  end.

(** [np.argmin(a)]: the first index of the least entry; [ValueError]
    ([None]) on an empty array. *)
Fixpoint np_argmin_from (best_i : Z) (best : Q) (i : Z) (a : list Q) : Z :=
  match a with
  | [] => best_i
  | x :: rest =>
      if Qle_bool best x then np_argmin_from best_i best (i + 1) rest
      else np_argmin_from i x (i + 1) rest
  end.

Definition np_argmin (a : list Q) : option Z :=
  match a with
  | [] => None
  | x :: rest => Some (np_argmin_from 0 x 1 rest)
  end.

(** [a.min()] and [a.max()]; [ValueError] ([None]) on an empty array. *)
Definition np_min (a : list Q) : option Q :=
  match a with
  | [] => None
  | x :: rest => Some (fold_left (fun m y => if Qle_bool m y then m else y) rest x)
  end.

Definition np_max (a : list Q) : option Q :=
  match a with
  | [] => None
  | x :: rest => Some (fold_left (fun m y => if Qle_bool y m then m else y) rest x)
  end.

(** [np.sum(a)]. *)
Definition np_sum (a : list Z) : Z :=
  fold_left Z.add a 0.

(** [int(x)] for a float: truncation towards zero; [OverflowError] ([None])
    for an infinity. *)
Definition py_int (x : Q) : option Z :=
  if float_overflow x then None else Some (Z.quot (Qnum x) (Zpos (Qden x))).

(** [[f(x) for x in l]] where [f] may raise. *)
Fixpoint map_opt {A B : Type} (f : A -> option B) (l : list A) : option (list B) :=
  match l with
  | [] => Some []
  | x :: rest =>
      match f x with
      | None => None
      | Some y =>
          match map_opt f rest with
          | None => None
          | Some ys => Some (y :: ys)
          end
      end
  end.

(** ** [class ThresholdCutoff] *)

(** Selecting by a mask that does not hold everywhere makes the array
    shorter: the measure by which the loop below ends. *)
Lemma np_mask_length {A : Type} (a : list A) (mask : list bool) (r : list A) :
  np_mask a mask = Some r -> (List.length r <= List.length a)%nat.
Proof.
  revert mask r.
  induction a as [|x a IH]; intros [|b mask] r H; simpl in H; try discriminate.
  - injection H as <-. simpl. lia.
  - destruct (np_mask a mask) as [r'|] eqn:E; [|discriminate].
    injection H as <-. specialize (IH _ _ E).
    destruct b; simpl; lia.
Qed.

Lemma np_mask_shrinks {A : Type} (a : list A) (mask : list bool) (r : list A) :
  np_all mask = false -> np_mask a mask = Some r ->
  (List.length r < List.length a)%nat.
Proof.
  revert mask r.
  induction a as [|x a IH]; intros [|b mask] r Hall H; simpl in H; try discriminate.
  destruct (np_mask a mask) as [r'|] eqn:E; [|discriminate].
  injection H as <-.
  destruct b; simpl in *.
  - specialize (IH _ _ Hall E). lia.
  - apply np_mask_length in E. lia.
Qed.

(** [ThresholdCutoff.detect_threshold_crossings]: the [while] loop.  Its state
    is the pair of [threshold_crossings] and [distance_sufficient]; every
    round that is entered drops at least one crossing, which is why the loop
    ends. *)
Equations? dead_time_loop (dead_time_idx : Q) (threshold_crossings : list Z)
  (distance_sufficient : list bool) : option (list Z)
  by wf (List.length threshold_crossings) lt :=
  dead_time_loop dead_time_idx threshold_crossings distance_sufficient
    with inspect (np_all distance_sufficient) => {
    | exist _ true _ => Some threshold_crossings ;
    | exist _ false Hall
        with inspect (np_mask threshold_crossings distance_sufficient) => {
        | exist _ None _ => None ;
        | exist _ (Some kept) Hkept =>
            dead_time_loop dead_time_idx kept
              (np_insert0 (np_ge (np_diff kept) dead_time_idx) true) } }.
Proof.
  eapply np_mask_shrinks; eauto.
Qed.

(** [ThresholdCutoff.detect_threshold_crossings(self, signal, fs, threshold,
    dead_time)]; [None] is an exception. *)
Definition detect_threshold_crossings (signal : list Q) (fs threshold dead_time : Q)
  : option (list Z) :=
  let dead_time_idx := float_mul dead_time fs in
  let threshold_crossings :=
    np_nonzero (np_diff_bool (np_gt0 (np_astype_int (np_le signal threshold)))) in
  let distance_sufficient :=
    np_insert0 (np_ge (np_diff threshold_crossings) dead_time_idx) true in
  dead_time_loop dead_time_idx threshold_crossings distance_sufficient.

(** [ThresholdCutoff.get_next_minimum(self, signal, index,
    max_samples_to_search)]; [None] is an exception. *)
Definition get_next_minimum (signal : list Q) (index max_samples_to_search : Z)
  : option Z :=
  let search_end_idx :=
    Z.min (index + max_samples_to_search) (Z.of_nat (List.length signal)) in
  match np_argmin (py_slice signal index search_end_idx) with
  | Some min_idx => Some (index + min_idx)
  | None => None
  end.

(** [ThresholdCutoff.align_to_minimum(self, signal, fs, threshold_crossings,
    search_range)]. *)
Definition align_to_minimum (signal : list Q) (fs : Q) (threshold_crossings : list Z)
  (search_range : Q) : option (list Z) :=
  match py_int (float_mul search_range fs) with
  | None => None
  | Some search_end =>
      map_opt (fun t => get_next_minimum signal t search_end) threshold_crossings
  end.

(** [np.median] and [np.std] are numpy's own and are taken as given. *)
Class Numpy : Type :=
  { np_median : list Q -> Q;
    np_std : list Q -> Q }.

(** The local [noise_mid] of [compute_spike_threshold]. *)
Definition noise_mid {N : Numpy} (signal : list Q) (use_mad : bool) : Q :=
  if use_mad then float_div (np_median (map Qabs signal)) (py_float (6745 # 10000))
  else np_std signal.

(** [ThresholdCutoff.compute_spike_threshold(self, signal, cutoff, use_mad)]. *)
Definition compute_spike_threshold {N : Numpy} (signal : list Q) (cutoff : Q)
  (use_mad : bool) : Q :=
  float_mul (- cutoff) (noise_mid signal use_mad).

(** The dataclass fields. *)
Record ThresholdCutoff : Type := mk_ThresholdCutoff
  { dead_time : Q;
    search_range : Q;
    cutoff : Q;
    use_mad : bool;
    tag : string;
    progress_bar : bool;
    units : string;
    return_neotype : bool }.

(** The defaults of the dataclass. *)
Definition ThresholdCutoff_default : ThresholdCutoff :=
  {| dead_time := py_float (3 # 1000);
     search_range := py_float (2 # 1000);
     cutoff := 5;
     use_mad := true;
     tag := "spike detection";
     progress_bar := false;
     units := "sec";
     return_neotype := false |}.

(** Modelled from the spec: [miv.core.datatype.Signal] is not among the
    sources.  A signal holds one array of samples per channel
    ([signal[channel]], [signal.number_of_channels]), the timestamps and the
    sampling rate. *)
Record Signal : Type := mk_Signal
  { channels : list (list Q);
    timestamps : list Q;
    rate : Q }.

(** One entry of the list that [__call__] builds: a plain array of spike
    times, or a [neo.SpikeTrain] of them with its [t_start] and [t_stop]. *)
Inductive spiketrain : Type :=
| PlainTrain (stamps : list Q)
| NeoTrain (stamps : list Q) (unit_name : string) (t_stop t_start : Q).

Definition stamps_of (s : spiketrain) : list Q :=
  match s with
  | PlainTrain l => l
  | NeoTrain l _ _ _ => l
  end.

(** Modelled from the spec: [miv.core.datatype.Spikestamps] is not among the
    sources.  It is the aggregate result type of the operator: one train per
    channel. *)
Record Spikestamps : Type := mk_Spikestamps
  { trains : list spiketrain }.

(** [neo.SpikeTrain] is the [neo] library's own and is taken as given: the
    constructor raises for arguments it does not accept (spike times outside
    [t_start .. t_stop], units it does not know), and [SpikeTrain_accepts]
    says whether it accepts [times], [units], [t_stop] and [t_start]. *)
Class Neo : Type :=
  { SpikeTrain_accepts : list Q -> string -> Q -> Q -> bool }.

(** The time that [__call__] gives the sample at position [p]:
    [p / rate + timestamps.min()], a float division and a float addition.
    ([p / rate] is the division of [Q], which is 0 for [rate = 0], where
    numpy yields non-finite values.) *)
Definition sample_time (rate t_min : Q) (p : Z) : Q :=
  float_add (float_div (inject_Z p) rate) t_min.

(** The body of the [for channel in range(num_channels)] loop of
    [ThresholdCutoff.__call__]: the train of one channel. *)
Definition detect_channel {N : Numpy} {E : Neo} (self : ThresholdCutoff) (signal : Signal)
  (array : list Q) : option spiketrain :=
  let spike_threshold := compute_spike_threshold array (cutoff self) (use_mad self) in
  match detect_threshold_crossings array (rate signal) spike_threshold (dead_time self) with
  | None => None
  | Some crossings =>
      match align_to_minimum array (rate signal) crossings (search_range self) with
      | None => None
      | Some spikes =>
          match np_min (timestamps signal) with
          | None => None
          | Some t_min =>
              let spikestamp := map (sample_time (rate signal) t_min) spikes in
              if return_neotype self then
                match np_max (timestamps signal) with
                | None => None
                | Some t_max =>
                    if SpikeTrain_accepts spikestamp (units self) t_max t_min
                    then Some (NeoTrain spikestamp (units self) t_max t_min)
                    else None
                end
              else Some (PlainTrain spikestamp)
          end
      end
  end.

(** The undecorated [ThresholdCutoff.__call__(self, signal)]. *)
Definition ThresholdCutoff_call_body {N : Numpy} {E : Neo} (self : ThresholdCutoff)
  (signal : Signal) : option Spikestamps :=
  match map_opt (detect_channel self signal) (channels signal) with
  | None => None
  | Some spiketrain_list => Some {| trains := spiketrain_list |}
  end.

(** What [__call__] is given and what its decorators hand on: one object, or
    a generator, that is a lazy finite sequence whose items are computed when
    they are pulled; pulling an item may raise ([None]). *)
Inductive py_value (A : Type) : Type :=
| Single (a : A)
| Generator (items : list (option A)).
Arguments Single {A} a.
Arguments Generator {A} items.

(** Modelled from the spec: [miv.core.wrapper.wrap_generator_to_generator] is
    not among the sources.  Given a generator, the wrapped computation is
    applied to each item as it is pulled and the results form a generator
    again; given one object, it is applied to it. *)
Definition wrap_generator_to_generator {A B : Type} (f : A -> option B)
  (input : py_value A) : option (py_value B) :=
  match input with
  | Single a =>
      match f a with
      | Some b => Some (Single b)
      | None => None
      end
  | Generator items =>
      Some (Generator (map (fun item : option A =>
                              match item with
                              | Some a => f a
                              | None => None
                              end) items))
  end.

(** Modelled from the spec: [Spikestamps()] and [Spikestamps.extend] are not
    among the sources.  Chunks are concatenated channel by channel; a channel
    the aggregate does not have yet starts empty. *)
Definition Spikestamps_empty : Spikestamps :=
  {| trains := [] |}.

Fixpoint extend_trains (mine other : list spiketrain) : list spiketrain :=
  match other with
  | [] => mine
  | o :: other' =>
      match mine with
      | [] => PlainTrain ([] ++ stamps_of o) :: extend_trains [] other'
      | m :: mine' => PlainTrain (stamps_of m ++ stamps_of o) :: extend_trains mine' other'
      end
  end.

Definition Spikestamps_extend (self other : Spikestamps) : Spikestamps :=
  {| trains := extend_trains (trains self) (trains other) |}.

(** Modelled from the spec: [miv.core.wrapper.wrap_output_generator_collapse]
    is not among the sources.  When the wrapped computation returns a
    generator, every chunk it yields is merged into one aggregate of the
    declared output type, and that aggregate is returned. *)
Fixpoint collapse_into (stack : Spikestamps) (items : list (option Spikestamps))
  : option Spikestamps :=
  match items with
  | [] => Some stack
  | None :: _ => None
  | Some out :: rest => collapse_into (Spikestamps_extend stack out) rest
  end.

Definition wrap_output_generator_collapse {A : Type}
  (f : A -> option (py_value Spikestamps)) (input : A)
  : option (py_value Spikestamps) :=
  match f input with
  | None => None
  | Some (Single out) => Some (Single out)
  | Some (Generator items) =>
      match collapse_into Spikestamps_empty items with
      | Some stack => Some (Single stack)
      | None => None
      end
  end.

(** [ThresholdCutoff.__call__] as decorated:
      [@wrap_output_generator_collapse(Spikestamps)]
      [@wrap_generator_to_generator]. *)
Definition ThresholdCutoff_call {N : Numpy} {E : Neo} (self : ThresholdCutoff)
  : py_value Signal -> option (py_value Spikestamps) :=
  wrap_output_generator_collapse
    (wrap_generator_to_generator (ThresholdCutoff_call_body self)).

(** The spike times of channel [c] of an aggregate (none if it has no such
    channel). *)
Definition channel_stamps (c : nat) (s : Spikestamps) : list Q :=
  match nth_error (trains s) c with
  | Some t => stamps_of t
  | None => []
  end.

(** ** [miv.statistics.burst] *)

(** The inner [while] loop of [burst]: from [q] and [t] to the final [t];
    [None] is an [IndexError].  [q] grows by one per round until the bound or
    a zero entry stops it. *)
Equations? burst_while (burst_spike : list Z) (i min_spikes : Z) (q t : Z)
  : option Z
  by wf (if 0 <? q
         then S (Z.to_nat (Z.of_nat (List.length burst_spike) - i - min_spikes - q))
         else O) lt :=
  burst_while burst_spike i min_spikes q t
    with inspect ((0 <? q)
                  && (i + q + min_spikes <=? Z.of_nat (List.length burst_spike) - 1)) => {
    | exist _ false _ => Some t ;
    | exist _ true Hcond
        with py_index burst_spike (i + q + min_spikes - 1) => {
        | None => None ;
        | Some v with inspect (v =? 1) => {
            | exist _ true _ => burst_while burst_spike i min_spikes (q + 1) q ;
            | exist _ false _ => burst_while burst_spike i min_spikes 0 t } } }.
Proof.
  all: apply andb_prop in Hcond as [Hq Hb];
    apply Z.ltb_lt in Hq; apply Z.leb_le in Hb.
  - rewrite (proj2 (Z.ltb_lt 0 q) Hq).
    replace (0 <? q + 1) with true by (symmetry; apply Z.ltb_lt; lia).
    lia.
  - rewrite (proj2 (Z.ltb_lt 0 q) Hq). simpl. lia.
Qed.

(** The body of the [for i in np.arange(...)] loop of [burst], on the state
    made of [burst_spike] and the list [burst]. *)
Definition burst_step (min_spikes : Z) (state : list Z * list (Z * Z)) (i : Z)
  : option (list Z * list (Z * Z)) :=
  let '(burst_spike, burst) := state in
  if np_sum (py_slice burst_spike i (i + min_spikes)) =? min_spikes then
    match burst_while burst_spike i min_spikes 1 0 with
    | None => None
    | Some t =>
        Some (np_slice_fill burst_spike i (i + t + min_spikes) 0,
              (burst ++ [(i, t + min_spikes)])%list)
    end
  else Some (burst_spike, burst).

Fixpoint burst_for (min_spikes : Z) (range : list Z) (state : list Z * list (Z * Z))
  : option (list Z * list (Z * Z)) :=
  match range with
  | [] => Some state
  | i :: rest =>
      match burst_step min_spikes state i with
      | None => None
      | Some state' => burst_for min_spikes rest state'
      end
  end.

(** What [burst] returns: the four scalars of the branch [np.sum(Q) == 0], or
    the four arrays of the other branch; a rate is [None] where numpy
    divides by a zero duration. *)
Inductive burst_result : Type :=
| BurstScalars (start_time burst_duration burst_len burst_rate : Z)
| BurstArrays (start_time burst_duration : list Q) (burst_len : list Z)
    (burst_rate : list (option Q)).

(** [burst(spiketrains, channel, min_isi, min_len)]; [None] is an exception. *)
Definition burst (spiketrains : list (list Q)) (channel : Z) (min_isi : Q)
  (min_len : Z) : option burst_result :=
  match py_index spiketrains channel with
  | None => None
  | Some magnitude =>
      let spike_interval := np_diff_Q magnitude in
      let burst_spike :=
        map (fun x => if Qle_bool x min_isi then 1 else 0) spike_interval in
      let min_spikes := min_len in
      match burst_for min_spikes
              (np_arange (Z.of_nat (List.length burst_spike) - min_spikes))
              (burst_spike, []) with
      | None => None
      | Some (_, Q_arr) =>
          if np_sum (map (fun row : Z * Z => fst row + snd row) Q_arr) =? 0 then
            Some (BurstScalars 0 0 0 0)
          else
            let spike := magnitude in
            match map_opt (fun row : Z * Z => py_index spike (fst row)) Q_arr,
                  map_opt (fun row : Z * Z => py_index spike (fst row + snd row)) Q_arr with
            | Some start_time, Some end_time =>
                let burst_len := map (fun row : Z * Z => snd row + 1) Q_arr in
                let burst_duration :=
                  map (fun se : Q * Q => float_sub (snd se) (fst se))
                    (combine start_time end_time) in
                let burst_rate :=
                  map (fun ld : Z * Q =>
                         if Qeq_bool (snd ld) 0 then None
                         else Some (float_div (inject_Z (fst ld)) (snd ld)))
                      (combine burst_len burst_duration) in
                Some (BurstArrays start_time burst_duration burst_len burst_rate)
            | _, _ => None
            end
      end
  end.

(** The property the burst search is after: some window of [min_len]
    consecutive inter-spike intervals, each at most [min_isi]. *)
Definition window_at (isi : list Q) (min_isi : Q) (min_len : Z) (i : Z) : bool :=
  (0 <=? i) && (i + min_len <=? Z.of_nat (List.length isi))
  && forallb (fun x => Qle_bool x min_isi) (py_slice isi i (i + min_len)).

Definition has_window (isi : list Q) (min_isi : Q) (min_len : Z) : bool :=
  existsb (window_at isi min_isi min_len) (np_arange (Z.of_nat (List.length isi) + 1)).

(** What holds of the state of the loop of [burst] between two rounds, for
    the intervals [isi]: the array keeps its length, every burst recorded so
    far starts at a valid index, has at least [min_len] intervals and ends
    before the last interval, and the array is untouched as long as no burst
    was recorded. *)
Definition burst_inv (isi : list Q) (min_isi : Q) (min_len : Z)
  (burst_spike : list Z) (burst : list (Z * Z)) : Prop :=
  List.length burst_spike = List.length isi
  /\ Forall (fun row : Z * Z =>
               0 <= fst row /\ min_len <= snd row
               /\ fst row + snd row <= Z.of_nat (List.length isi) - 1) burst
  /\ (burst = [] ->
       burst_spike = map (fun x => if Qle_bool x min_isi then 1 else 0) isi).

(** The windows that the loop of [burst] does test: those that start before
    [len(burst_spike) - min_len]. *)
Definition has_tested_window (isi : list Q) (min_isi : Q) (min_len : Z) : bool :=
  existsb (window_at isi min_isi min_len) (np_arange (Z.of_nat (List.length isi) - min_len)).

(** ** Observations and specification-side definitions *)

Open Scope string_scope.

(** The calls of [run] in a trace, in order: node, [dry_run], [save_path] and
    the store the node found. *)
Fixpoint run_events (t : list event) : list (loc * bool * py_path * store) :=
  match t with
  | [] => []
  | EvRun n d p seen :: t' => (n, d, p, seen) :: run_events t'
  | _ :: t' => run_events t'
  end.

(** The store in which round [k] of the loop of [Pipeline.run] starts: the
    initial store for the first round, and afterwards the store that the
    previous node's [run] left behind. *)
Definition store_before {C : Collaborators} (st : store) (t : list event) (k : nat)
  : store :=
  match k with
  | O => st
  | S j =>
      match nth_error (run_events t) j with
      | Some (n, d, p, seen) => fst (node_run n d p seen)
      | None => st
      end
  end.

(** The store that the statement [if hasattr(node, "cacher"): ...] leaves. *)
Definition configured_store {C : Collaborators} (no_cache : bool) (node : loc)
  (st : store) : store :=
  store_of (configure_cacher no_cache node st).

(** The line that [print("Running: ", node)] writes. *)
Definition running_line (st : store) (node : loc) : string :=
  py_join " " ["Running: "; node_str (nodes st node)].

(** What [Pipeline.run] emits once its loop is over. *)
Definition closing_events (verbose : bool) : list event :=
  if verbose then [EvPrint "Pipeline done:"; EvPrint (py_str_mul "-" 46)] else [].

(** The summary as the specification words it: a header line, then one line
    ["{index}: {node}"] per node, joined by newlines. *)
Fixpoint spec_numbered_lines (st : store) (index : nat) (order : list loc)
  : list string :=
  match order with
  | [] => []
  | node :: rest =>
      (py_str_of_nat index ++ ": " ++ node_str (nodes st node))
        :: spec_numbered_lines st (S index) rest
  end.

Definition spec_summary (st : store) (order : list loc) : string :=
  py_join newline ("Execution order:" :: spec_numbered_lines st 0 order).

(** [l1] is an initial segment of [l2]. *)
Definition is_prefix {A : Type} (l1 l2 : list A) : Prop :=
  exists rest, l2 = (l1 ++ rest)%list.

(** ** Concrete pipelines used in the examples *)

(** Three nodes [A], [B], [C] at addresses 0, 1, 2; [B] has a cacher (at
    address 0) whose policy is ["ON"]; every other node prints as ["?"]. *)
Definition abc_store : store :=
  {| nodes := fun n =>
       match n with
       | 0%nat => {| node_str := "A"; node_cacher := None |}
       | 1%nat => {| node_str := "B"; node_cacher := Some 0%nat |}
       | 2%nat => {| node_str := "C"; node_cacher := None |}
       | _ => {| node_str := "?"; node_cacher := None |}
       end;
     cachers := fun _ => {| cache_policy := "ON" |} |}.

(** A linear chain [0 >> 1 >> ... >> root] in which no node fails. *)
Definition chain_collaborators : Collaborators :=
  {| exn := string;
     node_run := fun _ _ _ st => (st, None);
     topological_sort := fun _ root => seq 0 (S root) |}.

(** The same chain, in which the node at address 1 raises. *)
Definition failing_collaborators : Collaborators :=
  {| exn := string;
     node_run := fun n _ _ st => (st, if Nat.eqb n 1 then Some "node 1 failed" else None);
     topological_sort := fun _ root => seq 0 (S root) |}.

(** [Pipeline.run()] with every argument left to its default, and with
    [verbose=True]. *)
Definition no_args : run_args :=
  {| arg_save_path := None; arg_no_cache := None; arg_dry_run := None; arg_verbose := None |}.

Definition verbose_args : run_args :=
  {| arg_save_path := None; arg_no_cache := None; arg_dry_run := None;
     arg_verbose := Some true |}.

(** ** Definitions used by the further properties (Part III) *)

Open Scope Z_scope.

(** The array [threshold_crossings] of [detect_threshold_crossings] as it is
    before the loop: every position where the signal changes sides of the
    threshold. *)
Definition threshold_crossings_of (signal : list Q) (threshold : Q) : list Z :=
  np_nonzero (np_diff_bool (np_gt0 (np_astype_int (np_le signal threshold)))).

(** The samples at [c] and [c + 1] lie on different sides of the threshold. *)
Definition changes_side_at (signal : list Q) (threshold : Q) (c : Z) : Prop :=
  0 <= c
  /\ exists v0 v1 : Q,
       py_index signal c = Some v0
       /\ py_index signal (c + 1) = Some v1
       /\ Qle_bool v0 threshold <> Qle_bool v1 threshold.

(** The list [burst] of [burst] when its loop is over: one row
    [[i, t + min_len]] per burst, [i] the index of its first spike and
    [t + min_len] the number of its inter-spike intervals. *)
Definition burst_rows (magnitude : list Q) (min_isi : Q) (min_len : Z)
  : option (list (Z * Z)) :=
  let burst_spike :=
    map (fun x => if Qle_bool x min_isi then 1 else 0) (np_diff_Q magnitude) in
  match burst_for min_len
          (np_arange (Z.of_nat (List.length burst_spike) - min_len))
          (burst_spike, []) with
  | Some (_, rows) => Some rows
  | None => None
  end.

(** The spike time at index [i] of a train ([spike[i]] for an index inside
    the train). *)
Definition spike_at (spike : list Q) (i : Z) : Q :=
  nth (Z.to_nat i) spike 0%Q.

(** [end_time - start_time] of one row [[i, n]] of [Q]: the float difference
    of [spike[i + n]] and [spike[i]]. *)
Definition row_duration (spike : list Q) (row : Z * Z) : Q :=
  float_sub (spike_at spike (fst row + snd row)) (spike_at spike (fst row)).

(** What [burst] makes of the rows, when every index is inside the train. *)
Definition arrays_of_rows (spike : list Q) (rows : list (Z * Z)) : burst_result :=
  BurstArrays
    (map (fun row : Z * Z => spike_at spike (fst row)) rows)
    (map (row_duration spike) rows)
    (map (fun row : Z * Z => snd row + 1) rows)
    (map (fun row : Z * Z =>
            if Qeq_bool (row_duration spike row) 0 then None
            else Some (float_div (inject_Z (snd row + 1)) (row_duration spike row)))
       rows).

(** A row covers inter-spike intervals that exist, are not the last one, and
    are all at most [min_isi]. *)
Definition row_ok (isi : list Q) (min_isi : Q) (min_len : Z) (row : Z * Z) : Prop :=
  0 <= fst row /\ min_len <= snd row
  /\ fst row + snd row <= Z.of_nat (List.length isi) - 1
  /\ forall j : Z,
       fst row <= j < fst row + snd row ->
       exists x : Q, py_index isi j = Some x /\ Qle_bool x min_isi = true.

(** Each burst starts after the last spike of the one before. *)
Definition rows_separated (rows : list (Z * Z)) : Prop :=
  StronglySorted (fun r1 r2 : Z * Z => fst r1 + snd r1 < fst r2) rows.

(** Where a row ends: at the last interval that the inner loop can reach, or
    before an interval that is longer than [min_isi]. *)
Definition row_ends (isi : list Q) (min_isi : Q) (row : Z * Z) : Prop :=
  Z.of_nat (List.length isi) - 1 <= fst row + snd row
  \/ exists x : Q,
       py_index isi (fst row + snd row) = Some x /\ Qle_bool x min_isi = false.

(** The state of the loop of [burst] before it visits the window start
    [next]: the array holds zeros and ones, a one only where the interval is
    short; the rows recorded so far are as [row_ok], [rows_separated] and
    [row_ends] say, start before [next], and no window that the loop still
    visits can start inside one of them or at its last spike; from the end
    of the last row on, the array is as it was at the start. *)
Definition burst_inv_rows (isi : list Q) (min_isi : Q) (min_len : Z) (next : Z)
  (burst_spike : list Z) (burst : list (Z * Z)) : Prop :=
  List.length burst_spike = List.length isi
  /\ (forall (j : Z) (x : Z),
        py_index burst_spike j = Some x -> 0 <= j ->
        x = 0 \/ (x = 1 /\ exists v : Q, py_index isi j = Some v /\ Qle_bool v min_isi = true))
  /\ Forall (row_ok isi min_isi min_len) burst
  /\ rows_separated burst
  /\ Forall (fun row : Z * Z =>
               fst row < next
               /\ forall j : Z,
                    fst row <= j <= fst row + snd row ->
                    j <= Z.of_nat (List.length isi) - min_len - 1 ->
                    py_index burst_spike j = Some 0) burst
  /\ (forall j : Z,
        0 <= j -> Forall (fun row : Z * Z => fst row + snd row <= j) burst ->
        py_index burst_spike j
        = py_index (map (fun x => if Qle_bool x min_isi then 1 else 0) isi) j)
  /\ Forall (row_ends isi min_isi) burst.

(** Bursts given by their start times and durations, each beginning after
    the one before has ended. *)
Fixpoint chronological (start_time burst_duration : list Q) : Prop :=
  match start_time, burst_duration with
  | s1 :: ((s2 :: _) as later), d1 :: durations =>
      (s1 + d1 < s2)%Q /\ chronological later durations
  | _, _ => True
  end.

(** The progress lines of a verbose run, read off its calls of [run]: each
    node is announced by its string form in the store in which its round
    starts. *)
Fixpoint announcements {C : Collaborators} (before : store)
  (calls : list (loc * bool * py_path * store)) : list string :=
  match calls with
  | [] => []
  | (n, d, p, seen) :: rest =>
      running_line before n :: announcements (fst (node_run n d p seen)) rest
  end.

(** Whether one of the nodes [ran] has the cacher at address [c]. *)
Definition cacher_of_some (st : store) (ran : list loc) (c : loc) : bool :=
  existsb (fun n => match node_cacher (nodes st n) with
                    | Some c' => Nat.eqb c' c
                    | None => false
                    end) ran.

(** An instance of [Numpy] to run examples with: the median is the middle
    entry of the sorted array or the mean of the two middle entries, a float
    addition and a float division (0 stands for numpy's [nan] on an empty
    array).  The standard deviation is irrational in general and is not part
    of this instance (it answers 0); the examples set [use_mad = True], so
    that it is never called. *)
Fixpoint insert_sorted (x : Q) (l : list Q) : list Q :=
  match l with
  | [] => [x]
  | y :: rest => if Qle_bool x y then x :: l else y :: insert_sorted x rest
  end.

Definition float_median (a : list Q) : Q :=
  let sorted := fold_right insert_sorted [] a in
  let n := List.length sorted in
  if Nat.even n
  then float_div (float_add (nth (n / 2 - 1) sorted 0%Q) (nth (n / 2) sorted 0%Q)) 2
  else nth (n / 2) sorted 0%Q.

Definition example_numpy : Numpy :=
  {| np_median := float_median; np_std := fun _ => 0%Q |}.

(** An instance of [Neo] to run examples with: the constructor accepts
    spike times that lie in [t_start .. t_stop]. *)
Definition example_neo : Neo :=
  {| SpikeTrain_accepts := fun times _ t_stop t_start =>
       forallb (fun t => Qle_bool t_start t && Qle_bool t t_stop) times |}.

(** Twelve samples that are at most 0 from index 3 to index 10: the signal
    changes sides of the threshold 0 after the indices 2 and 10, eight
    samples apart. *)
Definition eight_samples_low : list Q :=
  [1; 1; 1; -1; -1; -1; -1; -1; -1; -1; -1; 1]%Q.

(** A sampling frequency and a dead time, both floats, whose exact product
    is [8 + 2^-75] and whose float product is [8.0]:
    [fs = 8 - 2^-23 + 2^-49] and [dead_time = 1 + 2^-26]. *)
Definition fs_below_8 : Q :=
  (8 - (1 # 8388608) + (1 # 562949953421312))%Q.

Definition dead_time_above_1 : Q :=
  (1 + (1 # 67108864))%Q.

(** A recording of one channel, six samples at 1 Hz starting at time 10. *)
Definition example_signal : Signal :=
  {| channels := [[0; -5; -6; 0; -7; 0]%Q];
     timestamps := [10; 11; 12; 13; 14; 15]%Q;
     rate := 1 |}.

(** A detector with a cutoff of 1, no dead time and a search range of three
    seconds. *)
Definition example_detector : ThresholdCutoff :=
  {| dead_time := 0;
     search_range := 3;
     cutoff := 1;
     use_mad := true;
     tag := "spike detection";
     progress_bar := false;
     units := "sec";
     return_neotype := false |}.

Open Scope string_scope.

(* ===================================================================== *)
(** * Part II: properties                                                 *)
(* ===================================================================== *)

(** ** The executor *)

Section ExecutorFacts.

Context {C : Collaborators}.

Variables (sp : py_path) (nc dr vb : bool).

Lemma run_events_app (t1 t2 : list event) :
  run_events (t1 ++ t2) = (run_events t1 ++ run_events t2)%list.
Proof.
  induction t1 as [|ev t1 IH]; [reflexivity|].
  destruct ev; simpl; rewrite IH; reflexivity.
Qed.

Lemma ran_nodes_app (t1 t2 : list event) :
  ran_nodes (t1 ++ t2) = (ran_nodes t1 ++ ran_nodes t2)%list.
Proof.
  induction t1 as [|ev t1 IH]; [reflexivity|].
  destruct ev; simpl; rewrite IH; reflexivity.
Qed.

Lemma printed_app (t1 t2 : list event) :
  printed (t1 ++ t2) = (printed t1 ++ printed t2)%list.
Proof.
  induction t1 as [|ev t1 IH]; [reflexivity|].
  destruct ev; simpl; rewrite IH; reflexivity.
Qed.

Lemma count_topological_sort_app (t1 t2 : list event) :
  count_topological_sort (t1 ++ t2)
  = (count_topological_sort t1 + count_topological_sort t2)%nat.
Proof.
  induction t1 as [|ev t1 IH]; [reflexivity|].
  destruct ev; simpl; rewrite IH; reflexivity.
Qed.

Lemma ran_nodes_run_events (t : list event) :
  ran_nodes t = map (fun ev : loc * bool * py_path * store => fst (fst (fst ev))) (run_events t).
Proof.
  induction t as [|ev t IH]; [reflexivity|].
  destruct ev; simpl; rewrite IH; reflexivity.
Qed.


(** The statement that configures the cacher prints nothing, never raises,
    and touches nothing but the policy of the node's own cacher. *)
Lemma configure_cacher_eq (node : loc) (st : store) :
  configure_cacher nc node st = ([], configured_store nc node st, Returned tt).
Proof.
  unfold configured_store, configure_cacher, bind, get_store, store_of.
  destruct (node_cacher (nodes st node)); reflexivity.
Qed.

Lemma configured_store_eq (node : loc) (st : store) :
  configured_store nc node st
  = match node_cacher (nodes st node) with
    | Some c => set_cache_policy c (if nc then "OFF" else "AUTO") st
    | None => st
    end.
Proof.
  unfold configured_store, configure_cacher, bind, get_store, store_of.
  destruct (node_cacher (nodes st node)); reflexivity.
Qed.

Lemma configured_store_nodes (node : loc) (st : store) :
  nodes (configured_store nc node st) = nodes st.
Proof.
  rewrite configured_store_eq.
  destruct (node_cacher (nodes st node)); reflexivity.
Qed.

(** One round of the loop, written out. *)
Lemma run_node_eq (node : loc) (st : store) :
  run_node sp nc dr vb node st
  = let pr := if vb then [EvPrint (running_line st node)] else [] in
    let seen := configured_store nc node st in
    match node_run node dr sp seen with
    | (st', Some e) => ((pr ++ [EvRun node dr sp seen])%list, st', Raised e)
    | (st', None) => ((pr ++ [EvRun node dr sp seen])%list, st', Returned tt)
    end.
Proof.
  unfold run_node. unfold bind at 1.
  assert (Hw : when vb (s <- py_str node ;; print [ "Running: "; s]) st
               = ((if vb then [EvPrint (running_line st node)] else []), st, Returned tt)).
  { destruct vb; reflexivity. }
  rewrite Hw. unfold bind. rewrite configure_cacher_eq.
  unfold call_run. cbv zeta.
  destruct (node_run node dr sp (configured_store nc node st)) as [st' [e|]];
    reflexivity.
Qed.

(** The loop of [Pipeline.run], one round at a time. *)
Lemma run_loop_cons (node : loc) (rest : list loc) (st : store) :
  for_each (node :: rest) (run_node sp nc dr vb) st
  = let pr := if vb then [EvPrint (running_line st node)] else [] in
    let seen := configured_store nc node st in
    match node_run node dr sp seen with
    | (st', Some e) => ((pr ++ [EvRun node dr sp seen])%list, st', Raised e)
    | (st', None) =>
        match for_each rest (run_node sp nc dr vb) st' with
        | (t, st'', r) => ((pr ++ EvRun node dr sp seen :: t)%list, st'', r)
        end
    end.
Proof.
  unfold for_each. simpl. unfold bind at 1. rewrite run_node_eq. cbv zeta.
  destruct (node_run node dr sp (configured_store nc node st)) as [st' [e|]].
  - reflexivity.
  - destruct (for_fold _ rest tt st') as [[t st''] r].
    rewrite <- app_assoc. reflexivity.
Qed.

Lemma run_events_round (pr : list event) (ev : event) (t : list event) :
  run_events pr = [] ->
  run_events (pr ++ ev :: t) = (run_events [ev] ++ run_events t)%list.
Proof.
  intros H. rewrite run_events_app, H. destruct ev; reflexivity.
Qed.

Lemma running_prefix_no_run (st : store) (node : loc) :
  run_events (if vb then [EvPrint (running_line st node)] else []) = [].
Proof. destruct vb; reflexivity. Qed.

Lemma store_before_shift (st st' : store) (t t' : list event)
  (n : loc) (d : bool) (p : py_path) (seen : store) (j : nat) :
  run_events t = (n, d, p, seen) :: run_events t' ->
  fst (node_run n d p seen) = st' ->
  (j < List.length (run_events t'))%nat ->
  store_before st t (S j) = store_before st' t' j.
Proof.
  intros Ht Hst Hj. unfold store_before. rewrite Ht.
  destruct j as [|j]; simpl.
  - exact Hst.
  - destruct (nth_error (run_events t') j) as [[[[n' d'] p'] seen']|] eqn:E.
    + reflexivity.
    + apply nth_error_None in E. lia.
Qed.

(** Every call of [run] that the loop makes: which node, with which
    arguments, in which store, and what happens when it raises. *)
Lemma run_loop_events (order : list loc) :
  forall (st : store) (k : nat) (n : loc) (d : bool) (s : py_path) (seen : store),
    nth_error (run_events (trace_of (for_each order (run_node sp nc dr vb) st))) k
    = Some (n, d, s, seen) ->
    nth_error order k = Some n /\ d = dr /\ s = sp
    /\ seen = configured_store nc n
                (store_before st (trace_of (for_each order (run_node sp nc dr vb) st)) k)
    /\ (forall (st2 : store) (e : exn),
          node_run n d s seen = (st2, Some e) ->
          outcome_of (for_each order (run_node sp nc dr vb) st) = Raised e
          /\ store_of (for_each order (run_node sp nc dr vb) st) = st2
          /\ List.length
               (run_events (trace_of (for_each order (run_node sp nc dr vb) st)))
             = S k).
Proof.
  induction order as [|node rest IH]; intros st k n d s seen Hk.
  - destruct k; discriminate Hk.
  - rewrite run_loop_cons in *. cbv zeta in *.
    destruct (node_run node dr sp (configured_store nc node st)) as [st' [e0|]] eqn:Hrun.
    + unfold trace_of, outcome_of, store_of in *. simpl fst in *. simpl snd in *.
      rewrite run_events_round in * by apply running_prefix_no_run.
      simpl in Hk |- *.
      destruct k as [|k]; [|destruct k; discriminate Hk].
      injection Hk as <- <- <- <-.
      split; [reflexivity|]. split; [reflexivity|]. split; [reflexivity|].
      split; [reflexivity|].
      intros st2 e He. rewrite Hrun in He. injection He as <- <-.
      repeat split; reflexivity.
    + specialize (IH st').
      destruct (for_each rest (run_node sp nc dr vb) st') as [[t st''] r] eqn:Hrest.
      unfold trace_of, outcome_of, store_of in *. simpl fst in *. simpl snd in *.
      assert (Hev : run_events
                      ((if vb then [EvPrint (running_line st node)] else [])
                       ++ EvRun node dr sp (configured_store nc node st) :: t)
                    = (node, dr, sp, configured_store nc node st) :: run_events t).
      { rewrite run_events_round by apply running_prefix_no_run. reflexivity. }
      rewrite Hev in Hk. rewrite Hev.
      destruct k as [|k].
      * injection Hk as <- <- <- <-.
        split; [reflexivity|]. split; [reflexivity|]. split; [reflexivity|].
        split; [reflexivity|].
        intros st2 e He. rewrite Hrun in He. discriminate He.
      * simpl in Hk. destruct (IH k n d s seen Hk) as (Ho & Hd & Hs & Hseen & Hraise).
        assert (Hlt : (k < List.length (run_events t))%nat).
        { apply nth_error_Some. rewrite Hk. discriminate. }
        rewrite (@store_before_shift st st' _ t node dr sp
                   (configured_store nc node st) k Hev
                   ltac:(rewrite Hrun; reflexivity) Hlt).
        split; [exact Ho|]. split; [exact Hd|]. split; [exact Hs|].
        split; [exact Hseen|].
        intros st2 e He. destruct (Hraise st2 e He) as (H1 & H2 & H3).
        split; [exact H1|]. split; [exact H2|].
        simpl. rewrite H3. reflexivity.
Qed.

(** The loop never sorts the graph again. *)
Lemma run_loop_no_sort (order : list loc) (st : store) :
  count_topological_sort (trace_of (for_each order (run_node sp nc dr vb) st)) = 0%nat.
Proof.
  revert st. induction order as [|node rest IH]; intros st; [reflexivity|].
  rewrite run_loop_cons. cbv zeta.
  destruct (node_run node dr sp (configured_store nc node st)) as [st' [e0|]].
  - unfold trace_of. simpl. rewrite count_topological_sort_app.
    destruct vb; reflexivity.
  - specialize (IH st').
    destruct (for_each rest (run_node sp nc dr vb) st') as [[t st''] r].
    unfold trace_of in *. simpl in *. rewrite count_topological_sort_app.
    simpl. rewrite IH. destruct vb; reflexivity.
Qed.

(** The nodes are run in the order of the list, up to the first failure. *)
Lemma run_loop_ran_nodes (order : list loc) (st : store) :
  match outcome_of (for_each order (run_node sp nc dr vb) st) with
  | Returned _ =>
      ran_nodes (trace_of (for_each order (run_node sp nc dr vb) st)) = order
  | Raised _ =>
      exists (pre post : list loc) (k : loc),
        order = (pre ++ k :: post)%list
        /\ ran_nodes (trace_of (for_each order (run_node sp nc dr vb) st))
           = (pre ++ [k])%list
  end.
Proof.
  revert st. induction order as [|node rest IH]; intros st; [reflexivity|].
  rewrite run_loop_cons. cbv zeta.
  assert (Hpr : forall t, ran_nodes ((if vb then [EvPrint (running_line st node)] else []) ++ t)
                          = ran_nodes t).
  { intros t. destruct vb; reflexivity. }
  destruct (node_run node dr sp (configured_store nc node st)) as [st' [e0|]].
  - unfold trace_of, outcome_of. simpl. rewrite Hpr. simpl.
    exists [], rest, node. split; reflexivity.
  - specialize (IH st').
    destruct (for_each rest (run_node sp nc dr vb) st') as [[t st''] r].
    unfold trace_of, outcome_of in *. simpl in *. rewrite Hpr. simpl.
    destruct r as [u|e].
    + rewrite IH. reflexivity.
    + destruct IH as (pre & post & k & Ho & Hr).
      exists (node :: pre), post, k. simpl. rewrite Ho, Hr. split; reflexivity.
Qed.

Lemma run_loop_prefix (order : list loc) (st : store) :
  is_prefix (ran_nodes (trace_of (for_each order (run_node sp nc dr vb) st))) order.
Proof.
  pose proof (run_loop_ran_nodes order st) as H.
  destruct (outcome_of (for_each order (run_node sp nc dr vb) st)).
  - rewrite H. exists []. rewrite app_nil_r. reflexivity.
  - destruct H as (pre & post & k & Ho & Hr). rewrite Hr, Ho.
    exists post. rewrite <- app_assoc. reflexivity.
Qed.


End ExecutorFacts.

Section PipelineFacts.

Context {C : Collaborators}.

(** The loop of [summarize] appends the numbered lines to what it has. *)
Lemma summarize_loop (st : store) (order : list loc) :
  forall (index : nat) (strs : list string),
    for_fold
      (fun strs (iop : nat * loc) =>
         s <- py_str (snd iop) ;;
         ret (strs ++ [(py_str_of_nat (fst iop) ++ ": " ++ s)%string])%list)
      (combine (seq index (List.length order)) order) strs st
    = ([], st, Returned (strs ++ spec_numbered_lines st index order)%list).
Proof.
  induction order as [|node rest IH]; intros index strs; simpl.
  - unfold ret. rewrite app_nil_r. reflexivity.
  - unfold bind at 1. unfold bind at 1. unfold py_str, bind, get_store, ret at 1 2.
    simpl. rewrite IH. simpl. rewrite <- app_assoc. reflexivity.
Qed.

(** [summarize] reads the store and does nothing else. *)
Lemma Pipeline_summarize_eq (self : Pipeline) (st : store) :
  Pipeline_summarize self st
  = ([], st, Returned (spec_summary st (execution_order self))).
Proof.
  unfold Pipeline_summarize, py_enumerate. unfold bind at 1.
  rewrite summarize_loop. reflexivity.
Qed.

(** [Pipeline.run] is its loop followed, when [verbose], by the two closing
    lines; the value of [summarize] is dropped. *)
Lemma Pipeline_run_eq (self : Pipeline) (args : run_args) (st : store) :
  Pipeline_run self args st
  = match for_each (execution_order self)
            (run_node (py_default (PyStr "./results") (arg_save_path args))
               (py_default false (arg_no_cache args))
               (py_default false (arg_dry_run args))
               (py_default false (arg_verbose args))) st with
    | (t, st1, Raised e) => (t, st1, Raised e)
    | (t, st1, Returned _) =>
        ((t ++ closing_events (py_default false (arg_verbose args)))%list, st1, Returned tt)
    end.
Proof.
  unfold Pipeline_run. cbv zeta. unfold bind at 1.
  destruct (for_each _ _ st) as [[t st1] [u|e]]; [|reflexivity].
  destruct (py_default false (arg_verbose args)); simpl.
  - unfold bind at 1. unfold print at 1, emit at 1.
    unfold bind at 1. rewrite Pipeline_summarize_eq.
    reflexivity.
  - unfold ret. reflexivity.
Qed.

Lemma closing_events_no_run (verbose : bool) :
  run_events (closing_events verbose) = [].
Proof. destruct verbose; reflexivity. Qed.

Lemma Pipeline_run_run_events (self : Pipeline) (args : run_args) (st : store) :
  run_events (trace_of (Pipeline_run self args st))
  = run_events
      (trace_of
         (for_each (execution_order self)
            (run_node (py_default (PyStr "./results") (arg_save_path args))
               (py_default false (arg_no_cache args))
               (py_default false (arg_dry_run args))
               (py_default false (arg_verbose args))) st)).
Proof.
  rewrite Pipeline_run_eq.
  destruct (for_each _ _ st) as [[t st1] [u|e]]; [|reflexivity].
  unfold trace_of. simpl.
  rewrite run_events_app, closing_events_no_run, app_nil_r. reflexivity.
Qed.

Lemma Pipeline_run_outcome (self : Pipeline) (args : run_args) (st : store) :
  outcome_of (Pipeline_run self args st)
  = match outcome_of
            (for_each (execution_order self)
               (run_node (py_default (PyStr "./results") (arg_save_path args))
                  (py_default false (arg_no_cache args))
                  (py_default false (arg_dry_run args))
                  (py_default false (arg_verbose args))) st) with
    | Returned _ => Returned tt
    | Raised e => Raised e
    end.
Proof.
  rewrite Pipeline_run_eq.
  destruct (for_each _ _ st) as [[t st1] [u|e]]; reflexivity.
Qed.

Lemma Pipeline_run_store (self : Pipeline) (args : run_args) (st : store) :
  store_of (Pipeline_run self args st)
  = store_of
      (for_each (execution_order self)
         (run_node (py_default (PyStr "./results") (arg_save_path args))
            (py_default false (arg_no_cache args))
            (py_default false (arg_dry_run args))
            (py_default false (arg_verbose args))) st).
Proof.
  rewrite Pipeline_run_eq.
  destruct (for_each _ _ st) as [[t st1] [u|e]]; reflexivity.
Qed.

Lemma store_before_run_events (st : store) (t t' : list event) (k : nat) :
  run_events t = run_events t' -> store_before st t k = store_before st t' k.
Proof. intros H. unfold store_before. rewrite H. reflexivity. Qed.

Lemma Pipeline_run_ran_nodes (self : Pipeline) (args : run_args) (st : store) :
  ran_nodes (trace_of (Pipeline_run self args st))
  = ran_nodes
      (trace_of
         (for_each (execution_order self)
            (run_node (py_default (PyStr "./results") (arg_save_path args))
               (py_default false (arg_no_cache args))
               (py_default false (arg_dry_run args))
               (py_default false (arg_verbose args))) st)).
Proof.
  rewrite !ran_nodes_run_events, Pipeline_run_run_events. reflexivity.
Qed.

Lemma Pipeline_run_no_sort (self : Pipeline) (args : run_args) (st : store) :
  count_topological_sort (trace_of (Pipeline_run self args st)) = 0%nat.
Proof.
  rewrite Pipeline_run_eq.
  pose proof (run_loop_no_sort
                (py_default (PyStr "./results") (arg_save_path args))
                (py_default false (arg_no_cache args))
                (py_default false (arg_dry_run args))
                (py_default false (arg_verbose args))
                (execution_order self) st) as H.
  destruct (for_each _ _ st) as [[t st1] [u|e]]; unfold trace_of in *; simpl in *.
  - rewrite count_topological_sort_app, H.
    destruct (py_default false (arg_verbose args)); reflexivity.
  - exact H.
Qed.

Lemma Pipeline_run_prefix (self : Pipeline) (args : run_args) (st : store) :
  is_prefix (ran_nodes (trace_of (Pipeline_run self args st))) (execution_order self).
Proof.
  rewrite Pipeline_run_ran_nodes. apply run_loop_prefix.
Qed.

Lemma Pipeline_run_complete (self : Pipeline) (args : run_args) (st : store) :
  match outcome_of (Pipeline_run self args st) with
  | Returned _ => ran_nodes (trace_of (Pipeline_run self args st)) = execution_order self
  | Raised _ => True
  end.
Proof.
  rewrite Pipeline_run_outcome, Pipeline_run_ran_nodes.
  pose proof (run_loop_ran_nodes
                (py_default (PyStr "./results") (arg_save_path args))
                (py_default false (arg_no_cache args))
                (py_default false (arg_dry_run args))
                (py_default false (arg_verbose args))
                (execution_order self) st) as H.
  destruct (outcome_of (for_each _ _ st)); [exact H|exact I].
Qed.

(** Calls made on a pipeline after its construction: none of them sorts the
    graph, and each runs an initial segment of the pipeline's order. *)
Lemma invoke_no_sort (p : Pipeline) (c : method_call) (st : store) :
  count_topological_sort (trace_of (invoke p c st)) = 0%nat.
Proof.
  destruct c as [args|]; simpl.
  - apply Pipeline_run_no_sort.
  - unfold bind. rewrite Pipeline_summarize_eq. reflexivity.
Qed.

Lemma invoke_prefix (p : Pipeline) (c : method_call) (st : store) :
  is_prefix (ran_nodes (trace_of (invoke p c st))) (execution_order p).
Proof.
  destruct c as [args|]; simpl.
  - apply Pipeline_run_prefix.
  - unfold bind. rewrite Pipeline_summarize_eq. simpl.
    exists (execution_order p). reflexivity.
Qed.

Lemma calls_frozen (p : Pipeline) (calls : list method_call) :
  forall st : store,
    count_topological_sort (trace_of (for_each calls (invoke p) st)) = 0%nat
    /\ exists chunks : list (list loc),
         ran_nodes (trace_of (for_each calls (invoke p) st)) = List.concat chunks
         /\ Forall (fun chunk => is_prefix chunk (execution_order p)) chunks.
Proof.
  induction calls as [|c calls IH]; intros st.
  - split; [reflexivity|]. exists []. split; [reflexivity|constructor].
  - pose proof (invoke_no_sort p c st) as Hs.
    pose proof (invoke_prefix p c st) as Hp.
    assert (Hstep : for_each (c :: calls) (invoke p) st
                    = match invoke p c st with
                      | (t1, st1, Raised e) => (t1, st1, Raised e)
                      | (t1, st1, Returned _) =>
                          match for_each calls (invoke p) st1 with
                          | (t2, st2, r) => ((t1 ++ t2)%list, st2, r)
                          end
                      end).
    { unfold for_each. simpl. unfold bind at 1.
      destruct (invoke p c st) as [[t1 st1] [[]|e]]; reflexivity. }
    rewrite Hstep. clear Hstep.
    destruct (invoke p c st) as [[t1 st1] [u|e]]; unfold trace_of in *; simpl in *.
    + destruct (IH st1) as (Hs2 & chunks & Hc & Hf).
      destruct (for_each calls (invoke p) st1) as [[t2 st2] r2]. simpl in *.
      split.
      * rewrite count_topological_sort_app, Hs, Hs2. reflexivity.
      * exists (ran_nodes t1 :: chunks). split.
        -- rewrite ran_nodes_app, Hc. reflexivity.
        -- constructor; assumption.
    + split; [exact Hs|].
      exists [ran_nodes t1]. split.
      * simpl. rewrite app_nil_r. reflexivity.
      * constructor; [exact Hp|constructor].
Qed.

Lemma Pipeline_init_eq (node : loc) (st : store) :
  Pipeline_init node st
  = ([EvTopologicalSort node], st,
     Returned {| execution_order := topological_sort st node |}).
Proof. reflexivity. Qed.

End PipelineFacts.

(** ** Claims on [Pipeline] *)

Section PipelineClaims.

Context {C : Collaborators}.

(** C2.  Every call of a node's [run] that [Pipeline.run] makes finds the
    store as the previous round left it, except that, when the node has a
    cacher, the policy of that cacher has been set to ["OFF"] if [no_cache]
    and to ["AUTO"] otherwise; a node without a cacher is run in the store
    unchanged. *)
Theorem run_sets_cache_policy_before_node_run
  (self : Pipeline) (args : run_args) (st : store)
  (k : nat) (n : loc) (d : bool) (s : py_path) (seen : store) :
  nth_error (run_events (trace_of (Pipeline_run self args st))) k = Some (n, d, s, seen) ->
  let policy := if py_default false (arg_no_cache args) then "OFF" else "AUTO" in
  let before := store_before st (trace_of (Pipeline_run self args st)) k in
  nth_error (execution_order self) k = Some n
  /\ seen = match node_cacher (nodes before n) with
            | Some c => set_cache_policy c policy before
            | None => before
            end
  /\ (forall c : loc,
        node_cacher (nodes before n) = Some c ->
        node_cacher (nodes seen n) = Some c /\ cache_policy (cachers seen c) = policy)
  /\ (node_cacher (nodes before n) = None -> seen = before).
Proof.
  intros Hk policy before. subst policy before.
  rewrite Pipeline_run_run_events in Hk.
  rewrite (@store_before_run_events _ st _ _ k (Pipeline_run_run_events self args st)).
  destruct (run_loop_events _ _ _ _ _ _ _ Hk) as (Ho & _ & _ & Hseen & _).
  rewrite configured_store_eq in Hseen.
  split; [exact Ho|]. split; [exact Hseen|]. split.
  - intros c Hc. rewrite Hc in Hseen. subst seen. simpl. split; [exact Hc|].
    rewrite Nat.eqb_refl. reflexivity.
  - intros Hnone. rewrite Hnone in Hseen. exact Hseen.
Qed.

(** C3.  When the [run] of the node at index [k] of the execution order
    raises [e], [Pipeline.run] raises that same [e], the store is the one the
    failing node left, and the nodes that were run are exactly those at the
    indices [0..k]: no later node is run and the failure is not swallowed. *)
Theorem node_failure_aborts_run
  (self : Pipeline) (args : run_args) (st : store)
  (k : nat) (n : loc) (d : bool) (s : py_path) (seen st2 : store) (e : exn) :
  nth_error (run_events (trace_of (Pipeline_run self args st))) k = Some (n, d, s, seen) ->
  node_run n d s seen = (st2, Some e) ->
  nth_error (execution_order self) k = Some n
  /\ outcome_of (Pipeline_run self args st) = Raised e
  /\ store_of (Pipeline_run self args st) = st2
  /\ ran_nodes (trace_of (Pipeline_run self args st)) = firstn (S k) (execution_order self).
Proof.
  intros Hk Hrun.
  pose proof (Pipeline_run_prefix self args st) as Hpre.
  rewrite ran_nodes_run_events in *.
  rewrite Pipeline_run_outcome, Pipeline_run_store.
  rewrite Pipeline_run_run_events in *.
  destruct (run_loop_events _ _ _ _ _ _ _ Hk) as (Ho & _ & _ & _ & Hraise).
  destruct (Hraise st2 e Hrun) as (Hout & Hst & Hlen).
  split; [exact Ho|]. split; [rewrite Hout; reflexivity|]. split; [exact Hst|].
  remember (run_events (trace_of (for_each (execution_order self) _ st))) as evs eqn:Hevs.
  clear Hevs Hk Hout Hst.
  destruct Hpre as [rest Hrest]. rewrite Hrest.
  rewrite <- Hlen, <- (length_map (fun ev : loc * bool * py_path * store => fst (fst (fst ev)))).
  rewrite firstn_app, Nat.sub_diag, firstn_all. simpl. rewrite app_nil_r. reflexivity.
Qed.

(** C4.  [Pipeline.summarize()] returns the header line ["Execution order:"]
    followed by one line ["{index}: {node}"] per node of the execution order,
    joined by newlines, and changes nothing; for the chain [A], [B], [C] the
    lines are ["Execution order:"], ["0: A"], ["1: B"], ["2: C"]. *)
Theorem summarize_returns_numbered_lines (self : Pipeline) (st : store) :
  Pipeline_summarize self st
  = ([], st, Returned (spec_summary st (execution_order self)))
  /\ List.length (spec_numbered_lines st 0 (execution_order self))
     = List.length (execution_order self)
  /\ (forall k : nat,
        nth_error (spec_numbered_lines st 0 (execution_order self)) k
        = option_map (fun node => py_str_of_nat k ++ ": " ++ node_str (nodes st node))
            (nth_error (execution_order self) k))
  /\ outcome_of (Pipeline_summarize {| execution_order := [0; 1; 2]%nat |} abc_store)
     = Returned (py_join newline ["Execution order:"; "0: A"; "1: B"; "2: C"]).
Proof.
  split; [apply Pipeline_summarize_eq|].
  assert (Hgen : forall order index,
             List.length (spec_numbered_lines st index order) = List.length order
             /\ forall k,
                 nth_error (spec_numbered_lines st index order) k
                 = option_map
                     (fun node => py_str_of_nat (index + k) ++ ": " ++ node_str (nodes st node))
                     (nth_error order k)).
  { induction order as [|node rest IH]; intros index.
    - split; [reflexivity|]. intros [|k]; reflexivity.
    - destruct (IH (S index)) as [Hlen Hnth]. split.
      + simpl. rewrite Hlen. reflexivity.
      + intros [|k]; simpl.
        * rewrite Nat.add_0_r. reflexivity.
        * rewrite Hnth. rewrite Nat.add_succ_r. reflexivity. }
  destruct (Hgen (execution_order self) 0%nat) as [Hlen Hnth].
  split; [exact Hlen|]. split; [exact Hnth|].
  rewrite Pipeline_summarize_eq. reflexivity.
Qed.

(** C5.  The execution order is computed once, by the one call of
    [topological_sort] on the terminal node that [Pipeline.__init__] makes.
    Whatever is called on the pipeline afterwards, and whatever the nodes do
    to the store meanwhile, [topological_sort] is not called again, every
    [run] walks that same order from its start, and [summarize] lists it. *)
Theorem execution_order_computed_once_and_frozen
  (node : loc) (calls : list method_call) (st : store) :
  let order := topological_sort st node in
  let p := {| execution_order := order |} in
  Pipeline_init node st = ([EvTopologicalSort node], st, Returned p)
  /\ hd_error (trace_of (session node calls st)) = Some (EvTopologicalSort node)
  /\ count_topological_sort (trace_of (session node calls st)) = 1%nat
  /\ (exists chunks : list (list loc),
        ran_nodes (trace_of (session node calls st)) = List.concat chunks
        /\ Forall (fun chunk => is_prefix chunk order) chunks)
  /\ (forall (args : run_args) (st' : store),
        count_topological_sort (trace_of (Pipeline_run p args st')) = 0%nat
        /\ is_prefix (ran_nodes (trace_of (Pipeline_run p args st'))) order
        /\ match outcome_of (Pipeline_run p args st') with
           | Returned _ => ran_nodes (trace_of (Pipeline_run p args st')) = order
           | Raised _ => True
           end
        /\ Pipeline_summarize p st' = ([], st', Returned (spec_summary st' order))).
Proof.
  intros order p.
  assert (Hs : session node calls st
               = match for_each calls (invoke p) st with
                 | (t, st1, r) => (EvTopologicalSort node :: t, st1, r)
                 end).
  { unfold session. unfold bind at 1. rewrite Pipeline_init_eq.
    fold order. fold p.
    destruct (for_each calls (invoke p) st) as [[t st1] r]. reflexivity. }
  destruct (calls_frozen p calls st) as (Hcount & chunks & Hc & Hf).
  split; [apply Pipeline_init_eq|].
  rewrite Hs. destruct (for_each calls (invoke p) st) as [[t st1] r].
  unfold trace_of in *. simpl in *.
  split; [reflexivity|]. split; [rewrite Hcount; reflexivity|].
  split; [exists chunks; split; assumption|].
  intros args st'.
  split; [apply Pipeline_run_no_sort|].
  split; [apply (Pipeline_run_prefix p args st')|].
  split; [apply (Pipeline_run_complete p args st')|].
  apply Pipeline_summarize_eq.
Qed.


End PipelineClaims.

(** C1.  With [verbose=True] the run of the chain [A], [B], [C] prints the
    three progress lines, ["Pipeline done:"] and a rule of 46 dashes: the
    string that [summarize] returns is computed and dropped, so no line
    ["index: node"] is emitted after the loop. *)
Theorem run_verbose_drops_the_summary :
  printed (trace_of (Pipeline_run (C := chain_collaborators)
                       {| execution_order := [0; 1; 2]%nat |} verbose_args abc_store))
  = ["Running:  A"; "Running:  B"; "Running:  C"; "Pipeline done:";
     "----------------------------------------------"]
  /\ outcome_of (Pipeline_summarize (C := chain_collaborators)
                   {| execution_order := [0; 1; 2]%nat |} abc_store)
     = Returned (py_join newline ["Execution order:"; "0: A"; "1: B"; "2: C"])
  /\ ~ In "0: A"
         (printed (trace_of (Pipeline_run (C := chain_collaborators)
                               {| execution_order := [0; 1; 2]%nat |} verbose_args abc_store))).
Proof.
  split; [reflexivity|]. split; [reflexivity|].
  intros H. vm_compute in H.
  repeat (destruct H as [H|H]; [discriminate H|]). exact H.
Qed.

(** In general the lines printed after the loop are the two closing lines
    only, whatever the pipeline. *)
Lemma run_verbose_closing_lines {C : Collaborators} (self : Pipeline)
  (args : run_args) (st : store) :
  arg_verbose args = Some true ->
  forall (t : list event) (st1 : store),
    for_each (execution_order self)
      (run_node (py_default (PyStr "./results") (arg_save_path args))
         (py_default false (arg_no_cache args))
         (py_default false (arg_dry_run args)) true) st = (t, st1, Returned tt) ->
    printed (trace_of (Pipeline_run self args st))
    = (printed t ++ ["Pipeline done:"; py_str_mul "-" 46])%list.
Proof.
  intros Hv t st1 Hloop. rewrite Pipeline_run_eq, Hv. simpl py_default at 4 5.
  simpl py_default. rewrite Hloop. unfold trace_of. simpl fst.
  rewrite printed_app. reflexivity.
Qed.

(** Witness of C2: in the chain [A], [B], [C] the node [B] has a cacher whose
    policy is ["ON"]; the default run sets it to ["AUTO"] before [B] runs. *)
Lemma run_sets_cache_policy_witness :
  nth_error (run_events (trace_of (Pipeline_run (C := chain_collaborators)
                                     {| execution_order := [0; 1; 2]%nat |} no_args abc_store)))
    1%nat
  = Some (1%nat, false, PyStr "./results", set_cache_policy 0%nat "AUTO" abc_store)
  /\ cache_policy (cachers (set_cache_policy 0%nat "AUTO" abc_store) 0%nat) = "AUTO".
Proof.
  split; [reflexivity|].
  pose proof (@run_sets_cache_policy_before_node_run chain_collaborators
                {| execution_order := [0; 1; 2]%nat |} no_args abc_store
                1%nat 1%nat false (PyStr "./results")
                (set_cache_policy 0%nat "AUTO" abc_store) eq_refl) as H.
  cbv zeta in H. destruct H as (_ & _ & H & _).
  exact (proj2 (H 0%nat eq_refl)).
Defined.

(** Witness of C3: in the chain [A], [B], [C] whose node [B] raises, the run
    raises that exception after running [A] and [B] only. *)
Lemma node_failure_aborts_run_witness :
  nth_error (run_events (trace_of (Pipeline_run (C := failing_collaborators)
                                     {| execution_order := [0; 1; 2]%nat |} no_args abc_store)))
    1%nat
  = Some (1%nat, false, PyStr "./results", set_cache_policy 0%nat "AUTO" abc_store)
  /\ outcome_of (Pipeline_run (C := failing_collaborators)
                   {| execution_order := [0; 1; 2]%nat |} no_args abc_store)
     = Raised "node 1 failed"
  /\ ran_nodes (trace_of (Pipeline_run (C := failing_collaborators)
                            {| execution_order := [0; 1; 2]%nat |} no_args abc_store))
     = [0; 1]%nat.
Proof.
  split; [reflexivity|].
  pose proof (@node_failure_aborts_run failing_collaborators
                {| execution_order := [0; 1; 2]%nat |} no_args abc_store
                1%nat 1%nat false (PyStr "./results")
                (set_cache_policy 0%nat "AUTO" abc_store)
                (set_cache_policy 0%nat "AUTO" abc_store)
                "node 1 failed" eq_refl eq_refl) as H.
  destruct H as (_ & Hout & _ & Hran).
  split; [exact Hout|exact Hran].
Defined.

(** ** Python floats: rounding *)

Unset Implicit Arguments.

Section FloatFacts.

Open Scope Q_scope.

(** Powers of two. *)
Lemma pow2_pos (e : Z) : 0 < 2 ^ e.
Proof. apply Qpower_0_lt. reflexivity. Qed.

Lemma pow2_plus (a b : Z) : 2 ^ (a + b) == 2 ^ a * 2 ^ b.
Proof. apply Qpower_plus. discriminate. Qed.

Lemma pow2_le (a b : Z) : (a <= b)%Z -> 2 ^ a <= 2 ^ b.
Proof. intros H. apply Qpower_le_compat_l; [exact H|discriminate]. Qed.

Lemma pow2_lt (a b : Z) : (a < b)%Z -> 2 ^ a < 2 ^ b.
Proof. intros H. apply Qpower_lt_compat_l; [exact H|reflexivity]. Qed.

Lemma pow2_Z (a : Z) : (0 <= a)%Z -> 2 ^ a == inject_Z (2 ^ a).
Proof. intros H. rewrite Zpower_Qpower by exact H. reflexivity. Qed.

Lemma Qlog2_spec (q : Q) : 0 < q -> 2 ^ (Qlog2 q) <= q /\ q < 2 ^ (Qlog2 q + 1).
Proof.
  intros Hq. destruct q as [n d]. unfold Qlog2. cbn [Qnum Qden].
  assert (Hn : (0 < n)%Z).
  { unfold Qlt in Hq. simpl in Hq. lia. }
  set (a := Z.log2 n). set (b := Z.log2 (Zpos d)).
  assert (Ha : (2 ^ a <= n < 2 ^ (a + 1))%Z).
  { destruct (Z.log2_spec n Hn) as [H1 H2]. subst a.
    replace (Z.log2 n + 1)%Z with (Z.succ (Z.log2 n)) by lia. lia. }
  assert (Hb : (2 ^ b <= Zpos d < 2 ^ (b + 1))%Z).
  { destruct (Z.log2_spec (Zpos d) eq_refl) as [H1 H2]. subst b.
    replace (Z.log2 (Zpos d) + 1)%Z with (Z.succ (Z.log2 (Zpos d))) by lia. lia. }
  assert (Ha0 : (0 <= a)%Z) by apply Z.log2_nonneg.
  assert (Hb0 : (0 <= b)%Z) by apply Z.log2_nonneg.
  assert (Hpa : (0 < 2 ^ a)%Z) by (apply Z.pow_pos_nonneg; lia).
  assert (Hpb : (0 < 2 ^ b)%Z) by (apply Z.pow_pos_nonneg; lia).
  assert (Hpa1 : (0 < 2 ^ (a + 1))%Z) by (apply Z.pow_pos_nonneg; lia).
  assert (Hpb1 : (0 < 2 ^ (b + 1))%Z) by (apply Z.pow_pos_nonneg; lia).
  assert (Hq' : (n # d) == inject_Z n / inject_Z (Zpos d)) by apply Qmake_Qdiv.
  assert (Hd : 0 < inject_Z (Zpos d)) by reflexivity.
  assert (Hup : (n # d) < 2 ^ (a - b + 1)).
  { rewrite Hq'. apply Qlt_shift_div_r; [exact Hd|].
    replace (a - b + 1)%Z with ((a + 1) + - b)%Z by lia.
    rewrite pow2_plus, Qpower_opp, (pow2_Z (a + 1)), (pow2_Z b) by lia.
    apply Qlt_le_trans with (inject_Z (2 ^ (a + 1)) * / inject_Z (2 ^ b) * inject_Z (2 ^ b)).
    - setoid_replace (inject_Z (2 ^ (a + 1)) * / inject_Z (2 ^ b) * inject_Z (2 ^ b))
        with (inject_Z (2 ^ (a + 1))).
      + rewrite <- Zlt_Qlt. lia.
      + field. intros H. unfold Qeq in H. simpl in H. lia.
    - apply Qmult_le_l.
      + apply Qmult_lt_0_compat.
        * change 0 with (inject_Z 0). rewrite <- Zlt_Qlt. lia.
        * apply Qinv_lt_0_compat. change 0 with (inject_Z 0). rewrite <- Zlt_Qlt. lia.
      + rewrite <- Zle_Qle. lia. }
  assert (Hlo : 2 ^ (a - b - 1) <= (n # d)).
  { rewrite Hq'. apply Qle_shift_div_l; [exact Hd|].
    replace (a - b - 1)%Z with (a + - (b + 1))%Z by lia.
    rewrite pow2_plus, Qpower_opp, (pow2_Z a), (pow2_Z (b + 1)) by lia.
    apply Qle_trans with (inject_Z (2 ^ a) * / inject_Z (2 ^ (b + 1)) * inject_Z (2 ^ (b + 1))).
    - apply Qmult_le_l.
      + apply Qmult_lt_0_compat.
        * change 0 with (inject_Z 0). rewrite <- Zlt_Qlt. lia.
        * apply Qinv_lt_0_compat. change 0 with (inject_Z 0). rewrite <- Zlt_Qlt. lia.
      + rewrite <- Zle_Qle. lia.
    - setoid_replace (inject_Z (2 ^ a) * / inject_Z (2 ^ (b + 1)) * inject_Z (2 ^ (b + 1)))
        with (inject_Z (2 ^ a)).
      + rewrite <- Zle_Qle. lia.
      + field. intros H. unfold Qeq in H. simpl in H. lia. }
  destruct (Qle_bool (2 ^ (a - b)) (n # d)) eqn:E.
  - apply Qle_bool_iff in E. split; [exact E|exact Hup].
  - split; [exact Hlo|].
    replace (a - b - 1 + 1)%Z with (a - b)%Z by lia.
    apply Qnot_le_lt. intros H. apply Qle_bool_iff in H. congruence.
Qed.

Lemma Qlog2_unique (q : Q) (k : Z) :
  2 ^ k <= q -> q < 2 ^ (k + 1) -> Qlog2 q = k.
Proof.
  intros Hlo Hup.
  assert (Hq : 0 < q) by (eapply Qlt_le_trans; [apply (pow2_pos k)|exact Hlo]).
  destruct (Qlog2_spec q Hq) as [Hlo' Hup'].
  assert (H1 : (k < Qlog2 q + 1)%Z).
  { apply Qpower_lt_compat_l_inv with (q := 2); [|reflexivity].
    eapply Qle_lt_trans; eauto. }
  assert (H2 : (Qlog2 q < k + 1)%Z).
  { apply Qpower_lt_compat_l_inv with (q := 2); [|reflexivity].
    eapply Qle_lt_trans; eauto. }
  lia.
Qed.

Lemma Qlog2_monotone (x y : Q) : 0 < x -> x <= y -> (Qlog2 x <= Qlog2 y)%Z.
Proof.
  intros Hx Hxy.
  assert (Hy : 0 < y) by (eapply Qlt_le_trans; eauto).
  destruct (Qlog2_spec x Hx) as [Hlo _].
  destruct (Qlog2_spec y Hy) as [_ Hup].
  assert (H : (Qlog2 x < Qlog2 y + 1)%Z).
  { apply Qpower_lt_compat_l_inv with (q := 2); [|reflexivity].
    eapply Qle_lt_trans; [exact Hlo|]. eapply Qle_lt_trans; eauto. }
  lia.
Qed.

Lemma Qlog2_comp (x y : Q) : 0 < x -> x == y -> Qlog2 x = Qlog2 y.
Proof.
  intros Hx Hxy.
  destruct (Qlog2_spec x Hx) as [Hlo Hup].
  symmetry. apply Qlog2_unique; rewrite <- Hxy; assumption.
Qed.

(** Rounding to the nearest integer. *)

Lemma round_half_even_comp (x y : Q) : x == y -> round_half_even x = round_half_even y.
Proof.
  intros H. unfold round_half_even.
  rewrite (Qfloor_comp _ _ H).
  assert (Hc : (x - inject_Z (Qfloor y) ?= 1 # 2) = (y - inject_Z (Qfloor y) ?= 1 # 2)).
  { apply Qcompare_comp; [rewrite H; reflexivity|reflexivity]. }
  rewrite Hc. reflexivity.
Qed.

Lemma round_half_even_bounds (q : Q) :
  inject_Z (round_half_even q) - (1 # 2) <= q /\ q <= inject_Z (round_half_even q) + (1 # 2).
Proof.
  unfold round_half_even.
  pose proof (Qfloor_le q) as Hlo.
  pose proof (Qlt_floor q) as Hup.
  rewrite inject_Z_plus in Hup. change (inject_Z 1) with 1 in Hup.
  destruct (Qcompare_spec (q - inject_Z (Qfloor q)) (1 # 2)) as [E|E|E].
  - destruct (Z.even (Qfloor q)); [|rewrite inject_Z_plus; change (inject_Z 1) with 1]; lra.
  - lra.
  - rewrite inject_Z_plus. change (inject_Z 1) with 1. lra.
Qed.

Lemma round_half_even_Z (z : Z) : round_half_even (inject_Z z) = z.
Proof.
  unfold round_half_even. rewrite Qfloor_Z.
  destruct (Qcompare_spec (inject_Z z - inject_Z z) (1 # 2)) as [E|E|E]; [lra|reflexivity|lra].
Qed.

Lemma round_half_even_monotone (x y : Q) :
  x <= y -> (round_half_even x <= round_half_even y)%Z.
Proof.
  intros Hxy.
  pose proof (Qfloor_resp_le _ _ Hxy) as Hf.
  destruct (Z.eq_dec (Qfloor x) (Qfloor y)) as [E|E].
  - unfold round_half_even. rewrite E.
    destruct (Qcompare_spec (x - inject_Z (Qfloor y)) (1 # 2)) as [E1|E1|E1];
      destruct (Qcompare_spec (y - inject_Z (Qfloor y)) (1 # 2)) as [E2|E2|E2];
      try lia; try lra; destruct (Z.even (Qfloor y)); try lia.
  - assert (Hlt : (Qfloor x + 1 <= Qfloor y)%Z) by lia.
    assert (H1 : (round_half_even x <= Qfloor x + 1)%Z).
    { unfold round_half_even.
      destruct (Qcompare (x - inject_Z (Qfloor x)) (1 # 2)); [destruct (Z.even _)| |]; lia. }
    assert (H2 : (Qfloor y <= round_half_even y)%Z).
    { unfold round_half_even.
      destruct (Qcompare (y - inject_Z (Qfloor y)) (1 # 2)); [destruct (Z.even _)| |]; lia. }
    lia.
Qed.

Lemma Qdiv_pow2_le (x y : Q) (e : Z) : x <= y -> x / 2 ^ e <= y / 2 ^ e.
Proof.
  intros H. unfold Qdiv. apply Qmult_le_compat_r; [exact H|].
  apply Qlt_le_weak, Qinv_lt_0_compat, pow2_pos.
Qed.

Lemma Qdiv_pow2 (e k : Z) : 2 ^ k / 2 ^ e == 2 ^ (k - e).
Proof. symmetry. apply Qpower_minus. discriminate. Qed.

Lemma round_half_even_nonneg (q : Q) : 0 <= q -> (0 <= round_half_even q)%Z.
Proof.
  intros H. rewrite <- (round_half_even_Z 0). apply round_half_even_monotone. exact H.
Qed.

Lemma round_magnitude_zero (q : Q) : q == 0 -> round_magnitude q == 0.
Proof.
  intros H. unfold round_magnitude.
  assert (E : q / 2 ^ float_exponent q == inject_Z 0).
  { unfold Qdiv. rewrite (Qmult_comp _ _ H _ _ (Qeq_refl _)). apply Qmult_0_l. }
  rewrite (round_half_even_comp _ _ E), round_half_even_Z. apply Qmult_0_l.
Qed.

Lemma round_magnitude_nonneg (q : Q) : 0 <= q -> 0 <= round_magnitude q.
Proof.
  intros H. unfold round_magnitude.
  apply Qmult_le_0_compat.
  - change 0 with (inject_Z 0). rewrite <- Zle_Qle. apply round_half_even_nonneg.
    apply Qle_shift_div_l; [apply pow2_pos|]. rewrite Qmult_0_l. exact H.
  - apply Qlt_le_weak, pow2_pos.
Qed.

Lemma float_exponent_monotone (x y : Q) :
  0 < x -> x <= y -> (float_exponent x <= float_exponent y)%Z.
Proof.
  intros Hx Hxy. unfold float_exponent.
  pose proof (Qlog2_monotone x y Hx Hxy). lia.
Qed.

(** The scaled value is below 2^53, and at least 2^52 unless the exponent is
    the least one. *)
Lemma scaled_upper (q : Q) : 0 < q -> q / 2 ^ float_exponent q < 2 ^ 53.
Proof.
  intros Hq. destruct (Qlog2_spec q Hq) as [_ Hup].
  apply Qlt_shift_div_r; [apply pow2_pos|].
  rewrite <- pow2_plus.
  eapply Qlt_le_trans; [exact Hup|]. apply pow2_le. unfold float_exponent. lia.
Qed.

Lemma scaled_lower (q : Q) :
  0 < q -> (-1074 < float_exponent q)%Z -> 2 ^ 52 <= q / 2 ^ float_exponent q.
Proof.
  intros Hq He. destruct (Qlog2_spec q Hq) as [Hlo _].
  apply Qle_shift_div_l; [apply pow2_pos|].
  rewrite <- pow2_plus.
  eapply Qle_trans; [|exact Hlo]. apply pow2_le. unfold float_exponent in *. lia.
Qed.

Lemma round_magnitude_upper (q : Q) :
  0 < q -> round_magnitude q <= 2 ^ (float_exponent q + 53).
Proof.
  intros Hq. unfold round_magnitude.
  rewrite (Z.add_comm _ 53), pow2_plus.
  apply Qmult_le_compat_r; [|apply Qlt_le_weak, pow2_pos].
  rewrite (pow2_Z 53) by lia. rewrite <- Zle_Qle.
  rewrite <- (round_half_even_Z (2 ^ 53)).
  apply round_half_even_monotone.
  rewrite <- (pow2_Z 53) by lia. apply Qlt_le_weak, scaled_upper, Hq.
Qed.

Lemma round_magnitude_lower (q : Q) :
  0 < q -> (-1074 < float_exponent q)%Z -> 2 ^ (float_exponent q + 52) <= round_magnitude q.
Proof.
  intros Hq He. unfold round_magnitude.
  rewrite (Z.add_comm _ 52), pow2_plus.
  apply Qmult_le_compat_r; [|apply Qlt_le_weak, pow2_pos].
  rewrite (pow2_Z 52) by lia. rewrite <- Zle_Qle.
  rewrite <- (round_half_even_Z (2 ^ 52)).
  apply round_half_even_monotone.
  rewrite <- (pow2_Z 52) by lia. apply scaled_lower; assumption.
Qed.

Lemma round_magnitude_monotone (x y : Q) :
  0 <= x -> x <= y -> round_magnitude x <= round_magnitude y.
Proof.
  intros Hx Hxy.
  assert (Hy : 0 <= y) by (eapply Qle_trans; eauto).
  destruct (Qeq_dec x 0) as [E|E].
  - rewrite (round_magnitude_zero x E). apply round_magnitude_nonneg, Hy.
  - assert (Hx' : 0 < x).
    { apply Qle_lteq in Hx. destruct Hx as [H|H]; [exact H|]. exfalso. apply E. symmetry. exact H. }
    assert (Hy' : 0 < y) by (eapply Qlt_le_trans; eauto).
    pose proof (float_exponent_monotone x y Hx' Hxy) as He.
    destruct (Z.eq_dec (float_exponent x) (float_exponent y)) as [Ee|Ee].
    + unfold round_magnitude. rewrite Ee.
      apply Qmult_le_compat_r; [|apply Qlt_le_weak, pow2_pos].
      rewrite <- Zle_Qle. apply round_half_even_monotone.
      apply Qdiv_pow2_le, Hxy.
    + eapply Qle_trans; [apply round_magnitude_upper, Hx'|].
      eapply Qle_trans; [|apply round_magnitude_lower; [exact Hy'|]].
      * apply pow2_le. lia.
      * unfold float_exponent in *. lia.
Qed.

Lemma round_magnitude_comp (x y : Q) :
  0 <= x -> x == y -> round_magnitude x == round_magnitude y.
Proof.
  intros Hx Hxy. apply Qle_antisym; apply round_magnitude_monotone.
  - exact Hx.
  - rewrite Hxy. apply Qle_refl.
  - rewrite <- Hxy. exact Hx.
  - rewrite Hxy. apply Qle_refl.
Qed.

(** Rounding to the nearest float: it keeps the order. *)

Lemma round_float64_nonneg_eq (q : Q) : 0 <= q -> round_float64 q == round_magnitude q.
Proof.
  intros H. unfold round_float64. rewrite Qred_correct.
  apply Qle_bool_iff in H. rewrite H. reflexivity.
Qed.

Lemma round_float64_neg_eq (q : Q) : q < 0 -> round_float64 q == - round_magnitude (- q).
Proof.
  intros H. unfold round_float64. rewrite Qred_correct.
  destruct (Qle_bool 0 q) eqn:E; [|reflexivity].
  apply Qle_bool_iff in E. lra.
Qed.

Lemma round_float64_monotone (x y : Q) : x <= y -> round_float64 x <= round_float64 y.
Proof.
  intros Hxy.
  destruct (Qlt_le_dec x 0) as [Hx|Hx]; destruct (Qlt_le_dec y 0) as [Hy|Hy].
  - rewrite (round_float64_neg_eq x Hx), (round_float64_neg_eq y Hy).
    apply Qopp_le_compat. apply round_magnitude_monotone; lra.
  - rewrite (round_float64_neg_eq x Hx), (round_float64_nonneg_eq y Hy).
    pose proof (round_magnitude_nonneg (- x)). pose proof (round_magnitude_nonneg y Hy).
    assert (0 <= - x) by lra. specialize (H H1). lra.
  - lra.
  - rewrite (round_float64_nonneg_eq x Hx), (round_float64_nonneg_eq y Hy).
    apply round_magnitude_monotone; assumption.
Qed.

Lemma round_float64_comp (x y : Q) : x == y -> round_float64 x == round_float64 y.
Proof.
  intros H. apply Qle_antisym; apply round_float64_monotone; rewrite H; apply Qle_refl.
Qed.

#[global] Instance round_float64_Proper : Proper (Qeq ==> Qeq) round_float64.
Proof. intros x y H. apply round_float64_comp, H. Qed.

(** A multiple of a power of two with at most 53 bits is a float: rounding
    leaves it as it is. *)
Lemma round_magnitude_exact (q : Q) (m k : Z) :
  q == inject_Z m * 2 ^ k -> (0 < m <= 2 ^ 53)%Z -> (-1074 <= k)%Z ->
  round_magnitude q == q.
Proof.
  intros Hq Hm Hk.
  assert (Hpos : 0 < q).
  { rewrite Hq. apply Qmult_lt_0_compat; [|apply pow2_pos].
    change 0 with (inject_Z 0). rewrite <- Zlt_Qlt. lia. }
  destruct (Qlog2_spec q Hpos) as [Hlo Hup].
  assert (Hint : exists z : Z, q / 2 ^ float_exponent q == inject_Z z).
  { destruct (Z_le_gt_dec (float_exponent q) k) as [Hle|Hgt].
    - exists (m * 2 ^ (k - float_exponent q))%Z.
      rewrite inject_Z_mult, <- (pow2_Z (k - float_exponent q)) by lia.
      rewrite Hq at 1. unfold Qdiv. rewrite <- Qmult_assoc.
      apply Qmult_comp; [reflexivity|].
      rewrite <- Qpower_opp, <- pow2_plus.
      replace (k + - float_exponent q)%Z with (k - float_exponent q)%Z by lia. reflexivity.
    - assert (Hlog : (52 + k < Qlog2 q)%Z) by (unfold float_exponent in Hgt; lia).
      assert (Hm53 : m = (2 ^ 53)%Z).
      { destruct (Z.eq_dec m (2 ^ 53)%Z) as [E|E]; [exact E|exfalso].
        assert (Hlt : q < 2 ^ (53 + k)).
        { rewrite Hq, pow2_plus. apply Qmult_lt_compat_r; [apply pow2_pos|].
          rewrite (pow2_Z 53) by lia. rewrite <- Zlt_Qlt. lia. }
        assert (H : (Qlog2 q < 53 + k)%Z).
        { apply Qpower_lt_compat_l_inv with (q := 2); [|reflexivity].
          eapply Qle_lt_trans; eauto. }
        lia. }
      assert (Hq2 : q == 2 ^ (53 + k)).
      { rewrite Hq, Hm53, pow2_plus, (pow2_Z 53) by lia. reflexivity. }
      assert (Hl : Qlog2 q = (53 + k)%Z).
      { apply Qlog2_unique; rewrite Hq2; [apply Qle_refl|apply pow2_lt; lia]. }
      exists (2 ^ 52)%Z.
      rewrite <- (pow2_Z 52) by lia.
      assert (He : float_exponent q = (k + 1)%Z) by (unfold float_exponent; lia).
      rewrite He. unfold Qdiv.
      rewrite (Qmult_comp _ _ Hq2 _ _ (Qeq_refl _)).
      rewrite <- Qpower_opp, <- pow2_plus.
      replace (53 + k + - (k + 1))%Z with 52%Z by lia. reflexivity. }
  destruct Hint as [z Hz].
  unfold round_magnitude.
  rewrite (round_half_even_comp _ _ Hz), round_half_even_Z, <- Hz.
  field. intros H. pose proof (pow2_pos (float_exponent q)) as Hp. rewrite H in Hp.
  exact (Qlt_irrefl 0 Hp).
Qed.

Lemma round_float64_exact (q : Q) (m k : Z) :
  q == inject_Z m * 2 ^ k -> (Z.abs m <= 2 ^ 53)%Z -> (-1074 <= k)%Z ->
  round_float64 q == q.
Proof.
  intros Hq Hm Hk.
  destruct (Z_dec' m 0) as [[Hneg|Hpos]|Hzero].
  - assert (Hq0 : q < 0).
    { rewrite Hq. setoid_replace 0 with (0 * 2 ^ k) by ring.
      apply Qmult_lt_compat_r; [apply pow2_pos|].
      change 0 with (inject_Z 0). rewrite <- Zlt_Qlt. exact Hneg. }
    rewrite (round_float64_neg_eq q Hq0).
    rewrite (round_magnitude_exact (- q) (- m) k); [ring| |lia|exact Hk].
    rewrite Hq, inject_Z_opp. ring.
  - assert (Hq0 : 0 <= q).
    { rewrite Hq. apply Qmult_le_0_compat; [|apply Qlt_le_weak, pow2_pos].
      change 0 with (inject_Z 0). rewrite <- Zle_Qle. lia. }
    rewrite (round_float64_nonneg_eq q Hq0).
    apply (round_magnitude_exact q m k); [exact Hq|lia|exact Hk].
  - assert (Hq0 : q == 0) by (rewrite Hq, Hzero; ring).
    rewrite (round_float64_nonneg_eq q) by (rewrite Hq0; apply Qle_refl).
    rewrite (round_magnitude_zero q Hq0). symmetry. exact Hq0.
Qed.

(** Every float is a multiple of 2^-1074. *)
Lemma round_magnitude_grid (q : Q) :
  exists z : Z, round_magnitude q == inject_Z z * 2 ^ (-1074).
Proof.
  unfold round_magnitude.
  exists (round_half_even (q / 2 ^ float_exponent q) * 2 ^ (float_exponent q + 1074))%Z.
  assert (He : (0 <= float_exponent q + 1074)%Z) by (unfold float_exponent; lia).
  rewrite inject_Z_mult, <- (pow2_Z _ He), <- Qmult_assoc, <- pow2_plus.
  replace (float_exponent q + 1074 + -1074)%Z with (float_exponent q) by lia.
  reflexivity.
Qed.

Lemma round_float64_grid (q : Q) :
  exists z : Z, round_float64 q == inject_Z z * 2 ^ (-1074).
Proof.
  destruct (Qlt_le_dec q 0) as [H|H].
  - destruct (round_magnitude_grid (- q)) as [z Hz]. exists (- z)%Z.
    rewrite (round_float64_neg_eq q H), Hz, inject_Z_opp. ring.
  - destruct (round_magnitude_grid q) as [z Hz]. exists z.
    rewrite (round_float64_nonneg_eq q H). exact Hz.
Qed.

Lemma is_float64_grid (q : Q) :
  is_float64 q -> exists z : Z, q == inject_Z z * 2 ^ (-1074).
Proof.
  intros [H _]. destruct (round_float64_grid q) as [z Hz]. exists z.
  rewrite <- H. exact Hz.
Qed.

(** The difference of two floats on the grid is on the grid. *)
Lemma grid_sub (x y : Q) :
  (exists a : Z, x == inject_Z a * 2 ^ (-1074)) ->
  (exists b : Z, y == inject_Z b * 2 ^ (-1074)) ->
  exists c : Z, x - y == inject_Z c * 2 ^ (-1074).
Proof.
  intros [a Ha] [b Hb]. exists (a - b)%Z.
  rewrite Ha, Hb. unfold Z.sub. rewrite inject_Z_plus, inject_Z_opp. ring.
Qed.

(** A positive number of the grid is at least 2^-1074. *)
Lemma grid_positive (q : Q) (z : Z) :
  q == inject_Z z * 2 ^ (-1074) -> 0 < q -> 2 ^ (-1074) <= q.
Proof.
  intros Hq Hpos.
  assert (Hz : (1 <= z)%Z).
  { destruct (Z_le_gt_dec z 0) as [H|H]; [exfalso|lia].
    assert (q <= 0).
    { rewrite Hq. setoid_replace 0 with (0 * 2 ^ (-1074)) by ring.
      apply Qmult_le_compat_r; [|apply Qlt_le_weak, pow2_pos].
      change 0 with (inject_Z 0). rewrite <- Zle_Qle. exact H. }
    lra. }
  rewrite Hq. setoid_replace (2 ^ (-1074)) with (1 * 2 ^ (-1074)) at 1 by ring.
  apply Qmult_le_compat_r; [|apply Qlt_le_weak, pow2_pos].
  change 1 with (inject_Z 1). rewrite <- Zle_Qle. exact Hz.
Qed.

(** Rounding a positive number of the grid gives a positive float. *)
Lemma round_float64_positive (q : Q) :
  2 ^ (-1074) <= q -> 0 < round_float64 q.
Proof.
  intros H.
  eapply Qlt_le_trans; [apply (pow2_pos (-1074))|].
  rewrite <- (round_float64_exact (2 ^ (-1074)) 1 (-1074)); [| |simpl; lia|lia].
  - apply round_float64_monotone. exact H.
  - change (inject_Z 1) with 1. ring.
Qed.

(** Rounding a positive number of the grid moves it by at most one part in
    2^53. *)
Lemma round_float64_error (q : Q) (z : Z) :
  q == inject_Z z * 2 ^ (-1074) -> 0 < q ->
  round_float64 q - q <= q * 2 ^ (-53).
Proof.
  intros Hq Hpos.
  rewrite (round_float64_nonneg_eq q (Qlt_le_weak _ _ Hpos)).
  destruct (Z.eq_dec (float_exponent q) (-1074)) as [He|He].
  - assert (Hz : q / 2 ^ float_exponent q == inject_Z z).
    { rewrite He, Hq. field. intros H. pose proof (pow2_pos (-1074)) as Hp.
      rewrite H in Hp. exact (Qlt_irrefl 0 Hp). }
    unfold round_magnitude.
    rewrite (round_half_even_comp _ _ Hz), round_half_even_Z, He, <- Hq.
    setoid_replace (q - q) with 0 by ring.
    apply Qmult_le_0_compat; [apply Qlt_le_weak, Hpos|apply Qlt_le_weak, pow2_pos].
  - assert (Hn : (-1074 < float_exponent q)%Z) by (unfold float_exponent in *; lia).
    destruct (Qlog2_spec q Hpos) as [Hlo _].
    assert (Hexp : float_exponent q = (Qlog2 q - 52)%Z) by (unfold float_exponent in *; lia).
    destruct (round_half_even_bounds (q / 2 ^ float_exponent q)) as [Hb _].
    unfold round_magnitude.
    set (r := inject_Z (round_half_even (q / 2 ^ float_exponent q))) in *.
    pose proof (pow2_pos (float_exponent q)) as Hp.
    assert (H1 : r * 2 ^ float_exponent q - q <= (1 # 2) * 2 ^ float_exponent q).
    { assert (Hs : (r - (1 # 2)) * 2 ^ float_exponent q
                   <= q / 2 ^ float_exponent q * 2 ^ float_exponent q).
      { apply Qmult_le_compat_r; [exact Hb|apply Qlt_le_weak, Hp]. }
      assert (Hc : q / 2 ^ float_exponent q * 2 ^ float_exponent q == q).
      { field. intros H. rewrite H in Hp. exact (Qlt_irrefl 0 Hp). }
      rewrite Hc in Hs. lra. }
    eapply Qle_trans; [exact H1|].
    assert (H2 : 2 ^ float_exponent q <= q * 2 ^ (-52)).
    { rewrite Hexp. replace (Qlog2 q - 52)%Z with (Qlog2 q + - 52)%Z by lia.
      rewrite pow2_plus. apply Qmult_le_compat_r; [exact Hlo|apply Qlt_le_weak, pow2_pos]. }
    assert (H3 : (1 # 2) * (q * 2 ^ (-52)) == q * 2 ^ (-53)).
    { replace (-52)%Z with (1 + -53)%Z by lia. rewrite pow2_plus.
      change (2 ^ 1) with 2. field. }
    rewrite <- H3. apply Qmult_le_l; [reflexivity|exact H2].
Qed.

(** A float product lies on the same side of an integer below [2^53] as the
    exact product does: a bound that the exact product meets is met by the
    product that the code computes. *)
Lemma float_mul_le_Z (x y : Q) (z : Z) :
  (Z.abs z <= 2 ^ 53)%Z -> x * y <= inject_Z z -> float_mul x y <= inject_Z z.
Proof.
  intros Hz H. unfold float_mul.
  rewrite <- (round_float64_exact (inject_Z z) z 0); [| |exact Hz|lia].
  - apply round_float64_monotone. exact H.
  - change (2 ^ 0) with 1. ring.
Qed.

Lemma float_mul_ge_Z (x y : Q) (z : Z) :
  (Z.abs z <= 2 ^ 53)%Z -> inject_Z z <= x * y -> inject_Z z <= float_mul x y.
Proof.
  intros Hz H. unfold float_mul.
  rewrite <- (round_float64_exact (inject_Z z) z 0); [| |exact Hz|lia].
  - apply round_float64_monotone. exact H.
  - change (2 ^ 0) with 1. ring.
Qed.

End FloatFacts.

Set Implicit Arguments.

(** ** [ThresholdCutoff]: threshold crossings and alignment *)

Open Scope Z_scope.

Section DetectionFacts.

Lemma np_nonzero_from_lower (i : Z) (a : list bool) :
  Forall (fun x => i <= x) (np_nonzero_from i a).
Proof.
  revert i. induction a as [|b a IH]; intros i; simpl; [constructor|].
  assert (Hrest : Forall (fun x => i <= x) (np_nonzero_from (i + 1) a)).
  { eapply Forall_impl; [|apply IH]. simpl. intros x Hx. lia. }
  destruct b; [constructor; [lia|exact Hrest]|exact Hrest].
Qed.

(** The indices that [nonzero] returns increase strictly. *)
Lemma np_nonzero_from_sorted (i : Z) (a : list bool) :
  StronglySorted Z.lt (np_nonzero_from i a).
Proof.
  revert i. induction a as [|b a IH]; intros i; simpl; [constructor|].
  destruct b; [|apply IH].
  constructor; [apply IH|].
  eapply Forall_impl; [|apply (np_nonzero_from_lower (i + 1) a)].
  simpl. intros x Hx. lia.
Qed.

Lemma np_mask_In {A : Type} (a : list A) (mask : list bool) (r : list A) :
  np_mask a mask = Some r -> forall x, In x r -> In x a.
Proof.
  revert mask r.
  induction a as [|y a IH]; intros [|b mask] r H x Hx; simpl in H; try discriminate.
  - injection H as <-. exact Hx.
  - destruct (np_mask a mask) as [r'|] eqn:E; [|discriminate].
    injection H as <-.
    destruct b; [destruct Hx as [->|Hx]|]; simpl; eauto.
Qed.

(** Selecting by a mask keeps a strictly increasing array strictly
    increasing. *)
Lemma np_mask_sorted (a : list Z) (mask : list bool) (r : list Z) :
  StronglySorted Z.lt a -> np_mask a mask = Some r -> StronglySorted Z.lt r.
Proof.
  revert mask r.
  induction a as [|y a IH]; intros [|b mask] r Hs H; simpl in H; try discriminate.
  - injection H as <-. constructor.
  - destruct (np_mask a mask) as [r'|] eqn:E; [|discriminate].
    injection H as <-. inversion Hs as [|? ? Hs' Hall]; subst.
    specialize (IH _ _ Hs' E).
    destruct b; [|exact IH].
    constructor; [exact IH|].
    apply Forall_forall. intros x Hx.
    rewrite Forall_forall in Hall. apply Hall. eapply np_mask_In; eauto.
Qed.

Lemma np_mask_defined {A : Type} (a : list A) (mask : list bool) :
  List.length a = List.length mask -> exists r, np_mask a mask = Some r.
Proof.
  revert mask. induction a as [|y a IH]; intros [|b mask] H; simpl in H; try discriminate.
  - exists []. reflexivity.
  - injection H as H. destruct (IH _ H) as [r Hr].
    simpl. rewrite Hr. eexists. reflexivity.
Qed.

Lemma np_diff_length (a : list Z) :
  List.length (np_diff a) = pred (List.length a).
Proof.
  induction a as [|x a IH]; [reflexivity|].
  destruct a as [|y a]; [reflexivity|].
  change (np_diff (x :: y :: a)) with ((y - x) :: np_diff (y :: a)).
  change (List.length ((y - x) :: np_diff (y :: a)))
    with (S (List.length (np_diff (y :: a)))).
  rewrite IH. reflexivity.
Qed.

(** When every entry of [distance_sufficient] holds, every gap between
    neighbours is at least the dead time. *)
Lemma np_all_gaps (d : Q) (tc : list Z) :
  np_all (np_insert0 (np_ge (np_diff tc) d) true) = true ->
  Forall (fun g => (d <= inject_Z g)%Q) (np_diff tc).
Proof.
  unfold np_insert0, np_all, np_ge. simpl. intros H.
  rewrite forallb_forall in H. apply Forall_forall. intros g Hg.
  apply Qle_bool_iff. apply H.
  apply (in_map (fun z => Qle_bool d (inject_Z z))). exact Hg.
Qed.

(** The loop ends, and it ends with a strictly increasing selection of the
    crossings in which neighbours are at least the dead time apart. *)
Lemma dead_time_loop_spec (d : Q) (tc : list Z) (ds : list bool) :
  ds = np_insert0 (np_ge (np_diff tc) d) true ->
  StronglySorted Z.lt tc ->
  exists r : list Z,
    dead_time_loop d tc ds = Some r
    /\ StronglySorted Z.lt r
    /\ Forall (fun g => (d <= inject_Z g)%Q) (np_diff r)
    /\ (forall x, In x r -> In x tc).
Proof.
  funelim (dead_time_loop d tc ds); intros Hds Hsorted.
  - exists threshold_crossings. subst distance_sufficient.
    split; [reflexivity|]. split; [exact Hsorted|]. split; [|auto].
    apply np_all_gaps. assumption.
  - destruct (H eq_refl (np_mask_sorted _ Hsorted Hkept)) as (r & Hr & Hs & Hg & Hin).
    exists r. split; [exact Hr|]. split; [exact Hs|]. split; [exact Hg|].
    intros x Hx. eapply np_mask_In; eauto.
  - exfalso. subst distance_sufficient.
    destruct threshold_crossings as [|x tc'].
    + simpl in Hall. discriminate Hall.
    + destruct (@np_mask_defined _ (x :: tc')
                  (np_insert0 (np_ge (np_diff (x :: tc')) dead_time_idx) true))
        as [r Hr].
      * unfold np_insert0, np_ge. cbn [List.length].
        rewrite length_map, np_diff_length. reflexivity.
      * congruence.
Qed.

End DetectionFacts.

(** C8.  [detect_threshold_crossings] returns, for every signal, sampling
    frequency, threshold and dead time (so in particular for [fs > 0] and
    [dead_time >= 0]), an index array that increases strictly and in which
    any two neighbours are at least [dead_time_idx] samples apart, where
    [dead_time_idx] is the float product [dead_time * fs] that the code
    computes and compares with.  (The exact product of the two floats can
    exceed the float product by a rounding error, and then the gap as well:
    see the lemma that follows.) *)
Theorem detect_threshold_crossings_respects_dead_time
  (signal : list Q) (fs threshold dead_time : Q) :
  exists r : list Z,
    detect_threshold_crossings signal fs threshold dead_time = Some r
    /\ StronglySorted Z.lt r
    /\ Forall (fun gap => (float_mul dead_time fs <= inject_Z gap)%Q) (np_diff r).
Proof.
  unfold detect_threshold_crossings. cbv zeta.
  destruct (@dead_time_loop_spec (float_mul dead_time fs)
              (np_nonzero (np_diff_bool (np_gt0 (np_astype_int (np_le signal threshold)))))
              _ eq_refl (np_nonzero_from_sorted 0 _))
    as (r & Hr & Hs & Hg & _).
  exists r. split; [exact Hr|]. split; [exact Hs|exact Hg].
Qed.

(** C8, with the exact product in the place of the float product: false.
    For [fs = 8 - 2^-23 + 2^-49] and [dead_time = 1 + 2^-26] the exact
    product is [8 + 2^-75], the float product that the code compares with is
    [8.0], and the two side changes of [eight_samples_low], eight samples
    apart, are both returned. *)
Lemma detect_threshold_crossings_gap_below_exact_product :
  (is_float64 fs_below_8 /\ is_float64 dead_time_above_1
   /\ (0 < fs_below_8)%Q /\ (0 <= dead_time_above_1)%Q)
  /\ detect_threshold_crossings eight_samples_low fs_below_8 0 dead_time_above_1
     = Some [2; 10]
  /\ ~ (exists r : list Z,
          detect_threshold_crossings eight_samples_low fs_below_8 0 dead_time_above_1
          = Some r
          /\ StronglySorted Z.lt r
          /\ Forall (fun gap => (dead_time_above_1 * fs_below_8 <= inject_Z gap)%Q)
               (np_diff r)).
Proof.
  assert (Hrun : detect_threshold_crossings eight_samples_low fs_below_8 0
                   dead_time_above_1 = Some [2; 10])
    by (vm_compute; reflexivity).
  split; [|split; [exact Hrun|]].
  - repeat split; vm_compute; try reflexivity; discriminate.
  - intros (r & Hr & _ & Hgaps). rewrite Hrun in Hr. injection Hr as <-.
    inversion Hgaps as [|gap rest Hgap _]; subst.
    vm_compute in Hgap. apply Hgap. reflexivity.
Qed.

Section AlignmentFacts.

Lemma np_argmin_from_range (a : list Q) :
  forall (best_i : Z) (best : Q) (i : Z),
    np_argmin_from best_i best i a = best_i
    \/ i <= np_argmin_from best_i best i a < i + Z.of_nat (List.length a).
Proof.
  induction a as [|x a IH]; intros best_i best i; simpl np_argmin_from.
  - left. reflexivity.
  - cbn [List.length]. rewrite Nat2Z.inj_succ.
    destruct (Qle_bool best x).
    + destruct (IH best_i best (i + 1)) as [H|H]; [left; exact H|right; lia].
    + destruct (IH i x (i + 1)) as [H|H]; right; lia.
Qed.

(** [argmin] of a non-empty array is one of its indices. *)
Lemma np_argmin_range (a : list Q) :
  a <> [] ->
  exists m : Z, np_argmin a = Some m /\ 0 <= m < Z.of_nat (List.length a).
Proof.
  destruct a as [|x a]; [congruence|]. intros _.
  eexists. split; [reflexivity|].
  cbn [List.length]. rewrite Nat2Z.inj_succ.
  destruct (np_argmin_from_range a 0 x 1) as [H|H]; lia.
Qed.

(** A slice whose bounds lie inside the array has as many entries as the
    bounds are apart. *)
Lemma py_slice_length {A : Type} (l : list A) (lo hi : Z) :
  0 <= lo -> lo <= hi -> hi <= Z.of_nat (List.length l) ->
  List.length (py_slice l lo hi) = Z.to_nat (hi - lo).
Proof.
  intros Hlo Hlh Hhi. unfold py_slice, py_clip. cbv zeta.
  replace (lo <? 0) with false by (symmetry; apply Z.ltb_ge; lia).
  replace (hi <? 0) with false by (symmetry; apply Z.ltb_ge; lia).
  rewrite length_firstn, length_skipn. lia.
Qed.

End AlignmentFacts.

(** C10.  For an index inside the signal and a search of at least one
    sample, [get_next_minimum] returns a position that is not before the
    index and lies before both the end of the search window and the end of
    the signal. *)
Theorem get_next_minimum_in_window
  (signal : list Q) (index max_samples_to_search : Z) :
  0 <= index < Z.of_nat (List.length signal) ->
  1 <= max_samples_to_search ->
  exists r : Z,
    get_next_minimum signal index max_samples_to_search = Some r
    /\ index <= r
       < Z.min (index + max_samples_to_search) (Z.of_nat (List.length signal)).
Proof.
  intros Hi Hm. unfold get_next_minimum. cbv zeta.
  set (search_end_idx :=
         Z.min (index + max_samples_to_search) (Z.of_nat (List.length signal))).
  assert (Hend : index < search_end_idx <= Z.of_nat (List.length signal))
    by (subst search_end_idx; lia).
  assert (Hlen : List.length (py_slice signal index search_end_idx)
                 = Z.to_nat (search_end_idx - index))
    by (apply py_slice_length; lia).
  destruct (@np_argmin_range (py_slice signal index search_end_idx)) as (m & Hm1 & Hm2).
  - intros Hnil. rewrite Hnil in Hlen. simpl in Hlen. lia.
  - rewrite Hm1. exists (index + m). split; [reflexivity|].
    rewrite Hlen in Hm2. lia.
Qed.

(** Witness of C10: the minimum of the three samples from index 1 on. *)
Lemma get_next_minimum_in_window_witness :
  (0 <= 1 < Z.of_nat (List.length [0; -5; -6; 0; -7; 0]%Q))
  /\ 1 <= 3
  /\ exists r : Z,
       get_next_minimum [0; -5; -6; 0; -7; 0]%Q 1 3 = Some r
       /\ 1 <= r < Z.min (1 + 3) (Z.of_nat (List.length [0; -5; -6; 0; -7; 0]%Q)).
Proof.
  split; [simpl; lia|]. split; [lia|].
  apply (@get_next_minimum_in_window [0; -5; -6; 0; -7; 0]%Q 1 3); simpl; lia.
Defined.

(** ** [ThresholdCutoff.__call__]: collapsing the chunks *)

Section CollapseFacts.

Lemma extend_trains_nil_stamps (other : list spiketrain) (c : nat) :
  match nth_error (extend_trains [] other) c with
  | Some t => stamps_of t
  | None => []
  end
  = match nth_error other c with
    | Some t => stamps_of t
    | None => []
    end.
Proof.
  revert c. induction other as [|o other IH]; intros c; [reflexivity|].
  destruct c as [|c]; simpl; [reflexivity|apply IH].
Qed.

(** Extending an aggregate appends, channel by channel. *)
Lemma channel_stamps_extend (self other : Spikestamps) (c : nat) :
  channel_stamps c (Spikestamps_extend self other)
  = (channel_stamps c self ++ channel_stamps c other)%list.
Proof.
  unfold channel_stamps, Spikestamps_extend. simpl.
  destruct self as [mine]. destruct other as [theirs]. simpl.
  revert mine c. induction theirs as [|o theirs IH]; intros mine c.
  - simpl. destruct (nth_error mine c); destruct c; simpl;
      rewrite ?app_nil_r; reflexivity.
  - destruct mine as [|m mine].
    + change (nth_error [] c) with (@nth_error spiketrain [] c).
      rewrite extend_trains_nil_stamps.
      destruct c; reflexivity.
    + destruct c as [|c]; simpl; [reflexivity|apply IH].
Qed.

(** Collapsing a generator merges every chunk it yields, in order; it raises
    when pulling a chunk raises. *)
Lemma collapse_into_spec (items : list (option Spikestamps)) :
  forall stack : Spikestamps,
    match map_opt (fun item => item) items with
    | Some outs =>
        exists s : Spikestamps,
          collapse_into stack items = Some s
          /\ forall c : nat,
               channel_stamps c s
               = (channel_stamps c stack ++ flat_map (channel_stamps c) outs)%list
    | None => collapse_into stack items = None
    end.
Proof.
  induction items as [|[out|] items IH]; intros stack; simpl.
  - exists stack. split; [reflexivity|]. intros c. rewrite app_nil_r. reflexivity.
  - specialize (IH (Spikestamps_extend stack out)).
    destruct (map_opt (fun item => item) items) as [outs|].
    + destruct IH as (s & Hs & Hc). exists s. split; [exact Hs|].
      intros c. rewrite Hc, channel_stamps_extend. simpl.
      rewrite <- app_assoc. reflexivity.
    + exact IH.
  - reflexivity.
Qed.

End CollapseFacts.

(** C7.  Given a generator of signals, the decorated [__call__] pulls every
    chunk of the wrapped computation and returns one [Spikestamps] whose
    channels hold the chunks' spike times concatenated in order (or raises
    when a chunk raises); in no case does it return a generator. *)
Theorem call_collapses_generator_output {N : Numpy} {E : Neo} (self : ThresholdCutoff) :
  (forall items : list (option Signal),
     match map_opt (fun chunk => chunk)
             (map (fun item : option Signal =>
                     match item with
                     | Some signal => ThresholdCutoff_call_body self signal
                     | None => None
                     end) items) with
     | Some outs =>
         exists s : Spikestamps,
           ThresholdCutoff_call self (Generator items) = Some (Single s)
           /\ forall c : nat, channel_stamps c s = flat_map (channel_stamps c) outs
     | None => ThresholdCutoff_call self (Generator items) = None
     end)
  /\ (forall input : py_value Signal,
        match ThresholdCutoff_call self input with
        | Some (Generator _) => False
        | _ => True
        end).
Proof.
  split.
  - intros items.
    unfold ThresholdCutoff_call, wrap_output_generator_collapse,
      wrap_generator_to_generator.
    pose proof (collapse_into_spec
                  (map (fun item : option Signal =>
                          match item with
                          | Some signal => ThresholdCutoff_call_body self signal
                          | None => None
                          end) items) Spikestamps_empty) as H.
    destruct (map_opt _ _) as [outs|].
    + destruct H as (s & Hs & Hc). exists s. rewrite Hs. split; [reflexivity|].
      intros c. rewrite Hc. destruct c; reflexivity.
    + rewrite H. reflexivity.
  - intros input.
    unfold ThresholdCutoff_call, wrap_output_generator_collapse,
      wrap_generator_to_generator.
    destruct input as [signal|items].
    + destruct (ThresholdCutoff_call_body self signal); exact I.
    + destruct (collapse_into _ _); exact I.
Qed.

(** ** [burst] *)

(** C9.  A train of two spikes 0.01 s apart has one inter-spike interval, which
    is at most [min_isi = 0.1]: a window of [min_len = 1] such intervals.
    [burst] does not look at it, because the loop over the window starts
    stops one short of the last window, and returns the four zeros.  With a
    third spike the first window is found and the burst has two spikes. *)
Theorem burst_skips_the_last_window :
  has_window (np_diff_Q [0; 1 # 100]%Q) (1 # 10) 1 = true
  /\ burst [[0; 1 # 100]%Q] 0 (1 # 10) 1 = Some (BurstScalars 0 0 0 0)
  /\ burst [[0; 1 # 100; 2 # 100]%Q] 0 (1 # 10) 1
     = Some (BurstArrays [0%Q] [float_sub (1 # 100) 0] [2]
               [Some (float_div (inject_Z 2) (float_sub (1 # 100) 0))]).
Proof.
  split; [vm_compute; reflexivity|]. split; vm_compute; reflexivity.
Qed.

(** *** What [burst] computes in general *)

Section BurstFacts.

Lemma py_index_defined {A : Type} (l : list A) (i : Z) :
  0 <= i < Z.of_nat (List.length l) -> exists v, py_index l i = Some v.
Proof.
  intros Hi. unfold py_index. cbv zeta.
  replace (0 <=? i) with true by (symmetry; apply Z.leb_le; lia).
  replace (i <? Z.of_nat (List.length l)) with true by (symmetry; apply Z.ltb_lt; lia).
  simpl. destruct (nth_error l (Z.to_nat i)) as [v|] eqn:E.
  - exists v. reflexivity.
  - apply nth_error_None in E. lia.
Qed.

Lemma map_opt_defined {A B : Type} (f : A -> option B) (l : list A) :
  Forall (fun x => exists y, f x = Some y) l ->
  exists ys, map_opt f l = Some ys /\ List.length ys = List.length l.
Proof.
  induction 1 as [|x l [y Hy] _ (ys & Hys & Hlen)]; simpl.
  - exists []. split; reflexivity.
  - rewrite Hy, Hys. exists (y :: ys). simpl. rewrite Hlen. split; reflexivity.
Qed.

(** The inner loop ends, and the extension it finds stays inside the
    intervals before the last one. *)
Lemma burst_while_spec (burst_spike : list Z) (i min_spikes q t : Z) :
  0 <= i -> 1 <= min_spikes -> 0 <= q -> 0 <= t ->
  i + t + min_spikes <= Z.of_nat (List.length burst_spike) - 1 ->
  exists t' : Z,
    burst_while burst_spike i min_spikes q t = Some t'
    /\ 0 <= t'
    /\ i + t' + min_spikes <= Z.of_nat (List.length burst_spike) - 1.
Proof.
  funelim (burst_while burst_spike i min_spikes q t); intros Hi Hm Hq Ht Hb.
  - exists t. split; [reflexivity|]. split; assumption.
  - exfalso. pose proof Hcond as Hc.
    apply andb_prop in Hc as [Hq1 Hb1].
    apply Z.ltb_lt in Hq1. apply Z.leb_le in Hb1.
    destruct (@py_index_defined _ burst_spike (i + q + min_spikes - 1)) as [v Hv]; [lia|].
    congruence.
  - pose proof Hcond as Hc. apply andb_prop in Hc as [Hq1 Hb1].
    apply Z.ltb_lt in Hq1. apply Z.leb_le in Hb1.
    apply H; lia.
  - apply H; lia.
Qed.

Lemma np_slice_fill_length {A : Type} (l : list A) (lo hi : Z) (v : A) :
  List.length (np_slice_fill l lo hi v) = List.length l.
Proof.
  unfold np_slice_fill, py_enumerate. cbv zeta.
  rewrite length_map, length_combine, length_seq. lia.
Qed.

Lemma np_sum_shift (l : list Z) (a : Z) :
  fold_left Z.add l a = a + np_sum l.
Proof.
  unfold np_sum. revert a. induction l as [|x l IH]; intros a; simpl; [lia|].
  rewrite (IH (a + x)), (IH x). lia.
Qed.

Lemma np_sum_cons (x : Z) (l : list Z) :
  np_sum (x :: l) = x + np_sum l.
Proof. unfold np_sum at 1. simpl. apply np_sum_shift. Qed.

Variable min_isi : Q.

Let short (x : Q) : Z := if Qle_bool x min_isi then 1 else 0.

Lemma np_sum_short_bounds (l : list Q) :
  0 <= np_sum (map short l) <= Z.of_nat (List.length l).
Proof.
  induction l as [|x l IH]; [unfold np_sum; simpl; lia|].
  cbn [map List.length]. rewrite np_sum_cons, Nat2Z.inj_succ.
  unfold short at 1 3. destruct (Qle_bool x min_isi); lia.
Qed.

(** A slice of the 0/1 array sums to its length exactly when all its
    intervals are short. *)
Lemma np_sum_short_full (l : list Q) :
  (np_sum (map short l) =? Z.of_nat (List.length l))
  = forallb (fun x => Qle_bool x min_isi) l.
Proof.
  induction l as [|x l IH]; [reflexivity|].
  cbn [map List.length forallb]. rewrite np_sum_cons, Nat2Z.inj_succ.
  pose proof (np_sum_short_bounds l) as Hb.
  unfold short at 1. destruct (Qle_bool x min_isi); simpl andb.
  - rewrite <- IH.
    destruct (Z.eqb_spec (np_sum (map short l)) (Z.of_nat (List.length l)));
      [apply Z.eqb_eq|apply Z.eqb_neq]; lia.
  - apply Z.eqb_neq. lia.
Qed.

Lemma py_slice_map {A B : Type} (f : A -> B) (l : list A) (lo hi : Z) :
  py_slice (map f l) lo hi = map f (py_slice l lo hi).
Proof.
  unfold py_slice. cbv zeta. rewrite length_map, skipn_map, firstn_map. reflexivity.
Qed.

(** On the untouched array, the test of the loop is the test for a window. *)
Lemma window_test (isi : list Q) (min_len i : Z) :
  0 <= i -> 0 <= min_len -> i + min_len <= Z.of_nat (List.length isi) ->
  (np_sum (py_slice (map short isi) i (i + min_len)) =? min_len)
  = window_at isi min_isi min_len i.
Proof.
  intros Hi Hm Hn. unfold window_at.
  replace (0 <=? i) with true by (symmetry; apply Z.leb_le; lia).
  replace (i + min_len <=? Z.of_nat (List.length isi)) with true
    by (symmetry; apply Z.leb_le; lia).
  simpl andb. rewrite py_slice_map, <- np_sum_short_full.
  rewrite py_slice_length by lia.
  replace (Z.of_nat (Z.to_nat (i + min_len - i))) with min_len by lia.
  reflexivity.
Qed.

Variables (isi : list Q) (min_len : Z).

Hypothesis min_len_positive : 1 <= min_len.

(** One round of the loop, for a window start that the loop visits. *)
Lemma burst_step_spec (burst_spike : list Z) (burst : list (Z * Z)) (i : Z) :
  burst_inv isi min_isi min_len burst_spike burst ->
  0 <= i <= Z.of_nat (List.length isi) - min_len - 1 ->
  exists (burst_spike' : list Z) (burst' : list (Z * Z)),
    burst_step min_len (burst_spike, burst) i = Some (burst_spike', burst')
    /\ burst_inv isi min_isi min_len burst_spike' burst'
    /\ (burst' = [] <-> burst = [] /\ window_at isi min_isi min_len i = false).
Proof.
  intros (Hlen & Hrows & Hfresh) Hi. unfold burst_step.
  destruct (np_sum (py_slice burst_spike i (i + min_len)) =? min_len) eqn:Htest.
  - destruct (@burst_while_spec burst_spike i min_len 1 0) as (t & Ht & Ht0 & Htb);
      try lia.
    rewrite Ht. eexists _, _. split; [reflexivity|]. split; [|split].
    + split; [rewrite np_slice_fill_length; exact Hlen|]. split.
      * apply Forall_app. split; [exact Hrows|].
        constructor; [|constructor]. simpl. rewrite Hlen in Htb. lia.
      * intros Hnil. destruct burst; discriminate Hnil.
    + intros Hnil. destruct burst; discriminate Hnil.
    + intros [Hnil Hw]. exfalso.
      rewrite (Hfresh Hnil) in Htest.
      pose proof (@window_test isi min_len i) as Hwt. unfold short in Hwt.
      rewrite Hwt in Htest by lia. congruence.
  - eexists _, _. split; [reflexivity|]. split; [|split].
    + split; [exact Hlen|]. split; [exact Hrows|exact Hfresh].
    + intros Hnil. split; [exact Hnil|].
      rewrite (Hfresh Hnil) in Htest.
      pose proof (@window_test isi min_len i) as Hwt. unfold short in Hwt.
      rewrite Hwt in Htest by lia. exact Htest.
    + intros [Hnil _]. exact Hnil.
Qed.

(** The whole loop: it ends without an exception, and it records no burst
    exactly when it started with none and none of the windows it visits
    holds short intervals only. *)
Lemma burst_for_spec (range : list Z) :
  Forall (fun i => 0 <= i <= Z.of_nat (List.length isi) - min_len - 1) range ->
  forall (burst_spike : list Z) (burst : list (Z * Z)),
    burst_inv isi min_isi min_len burst_spike burst ->
    exists (burst_spike' : list Z) (burst' : list (Z * Z)),
      burst_for min_len range (burst_spike, burst) = Some (burst_spike', burst')
      /\ burst_inv isi min_isi min_len burst_spike' burst'
      /\ (burst' = [] <->
          burst = [] /\ existsb (window_at isi min_isi min_len) range = false).
Proof.
  induction 1 as [|i range Hi _ IH]; intros burst_spike burst Hinv.
  - exists burst_spike, burst. split; [reflexivity|]. split; [exact Hinv|].
    simpl. tauto.
  - destruct (burst_step_spec Hinv Hi) as (bs1 & b1 & Hstep & Hinv1 & Hiff1).
    destruct (IH bs1 b1 Hinv1) as (bs2 & b2 & Hfor & Hinv2 & Hiff2).
    exists bs2, b2. cbn [burst_for]. rewrite Hstep.
    split; [exact Hfor|]. split; [exact Hinv2|].
    simpl existsb. rewrite orb_false_iff. tauto.
Qed.

Lemma np_arange_bounds (k : Z) :
  Forall (fun i => 0 <= i <= k - 1) (np_arange k).
Proof.
  unfold np_arange. apply Forall_forall. intros i Hin.
  apply in_map_iff in Hin as (j & <- & Hj). apply in_seq in Hj. lia.
Qed.

Lemma np_diff_Q_length (a : list Q) :
  List.length (np_diff_Q a) = pred (List.length a).
Proof.
  induction a as [|x a IH]; [reflexivity|].
  destruct a as [|y a]; [reflexivity|].
  change (np_diff_Q (x :: y :: a)) with (float_sub y x :: np_diff_Q (y :: a)).
  change (List.length (float_sub y x :: np_diff_Q (y :: a)))
    with (S (List.length (np_diff_Q (y :: a)))).
  rewrite IH. reflexivity.
Qed.

Lemma np_sum_rows_positive (rows : list (Z * Z)) :
  rows <> [] ->
  Forall (fun row : Z * Z => 0 <= fst row /\ min_len <= snd row) rows ->
  0 < np_sum (map (fun row : Z * Z => fst row + snd row) rows).
Proof.
  intros Hne Hrows.
  assert (Hge : 0 <= np_sum (map (fun row : Z * Z => fst row + snd row) rows)
                /\ (rows <> [] ->
                    0 < np_sum (map (fun row : Z * Z => fst row + snd row) rows))).
  { clear Hne. induction Hrows as [|row rows [H1 H2] _ [IH1 IH2]].
    - split; [unfold np_sum; simpl; lia|congruence].
    - cbn [map]. rewrite np_sum_cons. split; [lia|]. intros _. lia. }
  apply Hge. exact Hne.
Qed.

End BurstFacts.

(** X15.  For [min_len >= 1] and a valid channel, [burst] returns without an
    exception: the four zeros when none of the windows that start before
    [len - min_len] holds short intervals only (intervals as [np.diff] gives
    them, float differences), and otherwise arrays in which every burst has
    at least [min_len + 1] spikes. *)
Lemma burst_characterised (spiketrains : list (list Q)) (channel : Z) (min_isi : Q)
  (min_len : Z) (magnitude : list Q) :
  py_index spiketrains channel = Some magnitude ->
  1 <= min_len ->
  if has_tested_window (np_diff_Q magnitude) min_isi min_len
  then exists (start_time burst_duration : list Q) (burst_len : list Z)
              (burst_rate : list (option Q)),
         burst spiketrains channel min_isi min_len
         = Some (BurstArrays start_time burst_duration burst_len burst_rate)
         /\ Forall (fun len => min_len + 1 <= len) burst_len
  else burst spiketrains channel min_isi min_len = Some (BurstScalars 0 0 0 0).
Proof.
  intros Hch Hm. unfold burst. rewrite Hch. cbv zeta. rewrite length_map.
  set (isi := np_diff_Q magnitude).
  destruct (@burst_for_spec min_isi isi min_len Hm
              (np_arange (Z.of_nat (List.length isi) - min_len))
              (np_arange_bounds _)
              (map (fun x => if Qle_bool x min_isi then 1 else 0) isi) [])
    as (bs' & rows & Hfor & (Hlen & Hrows & _) & Hiff).
  { split; [apply length_map|]. split; [constructor|]. reflexivity. }
  rewrite Hfor. unfold has_tested_window. fold isi.
  destruct (existsb (window_at isi min_isi min_len)
              (np_arange (Z.of_nat (List.length isi) - min_len))) eqn:Hw.
  - assert (Hne : rows <> []).
    { intros Hnil. apply Hiff in Hnil as [_ Hnil]. discriminate Hnil. }
    assert (Hpos : 0 < np_sum (map (fun row : Z * Z => fst row + snd row) rows)).
    { apply (@np_sum_rows_positive min_len Hm rows Hne).
      eapply Forall_impl; [|exact Hrows]. simpl. tauto. }
    replace (np_sum (map (fun row : Z * Z => fst row + snd row) rows) =? 0)
      with false by (symmetry; apply Z.eqb_neq; lia).
    assert (Hisi : (List.length isi <= List.length magnitude)%nat).
    { subst isi. rewrite np_diff_Q_length. lia. }
    destruct (@map_opt_defined _ _ (fun row : Z * Z => py_index magnitude (fst row)) rows)
      as (starts & Hstarts & _).
    { eapply Forall_impl; [|exact Hrows]. simpl. intros row (H1 & H2 & H3).
      apply py_index_defined. lia. }
    destruct (@map_opt_defined _ _
                (fun row : Z * Z => py_index magnitude (fst row + snd row)) rows)
      as (ends & Hends & _).
    { eapply Forall_impl; [|exact Hrows]. simpl. intros row (H1 & H2 & H3).
      apply py_index_defined. lia. }
    rewrite Hstarts, Hends.
    eexists _, _, _, _. split; [reflexivity|].
    apply Forall_map. eapply Forall_impl; [|exact Hrows].
    simpl. intros row (H1 & H2 & H3). lia.
  - assert (Hnil : rows = []) by (apply Hiff; split; reflexivity).
    subst rows. reflexivity.
Qed.

(** ** Worked examples *)

(** Crossings in both directions are found at 0, 2, 3, 4, 7, 9; with a dead
    time of two samples the second round of the loop is the last. *)
Example detect_threshold_crossings_example :
  detect_threshold_crossings [0; -5; -6; 0; -7; 0; 0; 0; -9; -9; 0]%Q 1 (-3) 2
  = Some [0; 2; 7; 9].
Proof. reflexivity. Qed.

Example align_to_minimum_example :
  align_to_minimum [0; -5; -6; 0; -7; 0; 0; 0; -9; -9; 0]%Q 1 [0; 2; 7; 9] 3
  = Some [2; 4; 8; 9].
Proof. reflexivity. Qed.

(** Two bursts: four spikes from index 0 and three spikes from index 5; the
    last interval is not looked at. *)
Example burst_example :
  burst [map py_float [0; 1 # 100; 2 # 100; 3 # 100; 1; 2; 201 # 100; 202 # 100; 3]%Q] 0
    (py_float (1 # 10)) 2
  = Some (BurstArrays [0; 2]%Q
            [float_sub (py_float (3 # 100)) 0; float_sub (py_float (202 # 100)) 2] [4; 3]
            [Some (float_div 4 (float_sub (py_float (3 # 100)) 0));
             Some (float_div 3 (float_sub (py_float (202 # 100)) 2))]).
Proof. vm_compute. reflexivity. Qed.

(** The search range in samples is the truncated float product: for
    [fs = 3 * (1 + 2^-30)] and [search_range = 1 - 2^-30] the exact product
    is below 3, the float product is [3.0], and three samples are searched. *)
Example align_to_minimum_rounds_example :
  py_int (float_mul (1 - (1 # 1073741824)) (3 * (1 + (1 # 1073741824)))) = Some 3
  /\ py_int ((1 - (1 # 1073741824)) * (3 * (1 + (1 # 1073741824))))%Q = Some 2
  /\ align_to_minimum [0; -1; -2; -3; 0]%Q (3 * (1 + (1 # 1073741824))) [0]
       (1 - (1 # 1073741824))
     = Some [2].
Proof. vm_compute. repeat split; reflexivity. Qed.

(** The inter-spike intervals are float differences: the spikes
    [0.5 - 2^-54] and [1.5] are more than [1.0] apart, their float difference
    is [1.0], and with [min_isi = 1.0] they are reported as a burst. *)
Example burst_rounds_example :
  ((1 # 1) < (3 # 2) - ((1 # 2) - (1 # 18014398509481984)))%Q
  /\ float_sub (3 # 2) ((1 # 2) - (1 # 18014398509481984)) = 1%Q
  /\ burst [[(1 # 2) - (1 # 18014398509481984); 3 # 2; 9]%Q] 0 1 1
     = Some (BurstArrays [((1 # 2) - (1 # 18014398509481984))%Q] [1%Q] [2] [Some 2%Q]).
Proof. vm_compute. repeat split; reflexivity. Qed.

(** The same float arithmetic as Python's: [0.1 + 0.2] is not [0.3], and
    [0.003 * 30000.0] is [90.0] although the float [0.003] is more than
    [3 / 1000]. *)
Example float_arithmetic_example :
  float_add (py_float (1 # 10)) (py_float (2 # 10))
  = (1351079888211149 # 4503599627370496)%Q
  /\ py_float (3 # 10) = (5404319552844595 # 18014398509481984)%Q
  /\ float_mul (py_float (3 # 1000)) 30000 = 90%Q
  /\ (90 < py_float (3 # 1000) * 30000)%Q
  /\ py_int (float_mul (py_float (2 # 1000)) 30000) = Some 60.
Proof. vm_compute. repeat split; reflexivity. Qed.

Example collapse_example :
  collapse_into Spikestamps_empty
    [Some {| trains := [PlainTrain [1%Q]; PlainTrain []] |};
     Some {| trains := [PlainTrain [2%Q]; PlainTrain [3%Q]] |}]
  = Some {| trains := [PlainTrain [1%Q; 2%Q]; PlainTrain [3%Q]] |}.
Proof. reflexivity. Qed.

Example run_no_cache_example :
  map (fun ev : loc * bool * py_path * store =>
         cache_policy (cachers (snd ev) 0%nat))
    (run_events (trace_of (Pipeline_run (C := chain_collaborators)
                             {| execution_order := [0; 1; 2]%nat |}
                             {| arg_save_path := Some (PyPath "out");
                                arg_no_cache := Some true;
                                arg_dry_run := None; arg_verbose := None |}
                             abc_store)))
  = ["ON"; "OFF"; "OFF"].
Proof. reflexivity. Qed.

(* ===================================================================== *)
(** * Part III: further properties of the sources                         *)
(* ===================================================================== *)

(** ** [get_next_minimum] and [align_to_minimum] *)

Section MinimumFacts.

Lemma Qle_bool_false_lt (x y : Q) : Qle_bool x y = false -> (y < x)%Q.
Proof.
  intros H. apply Qnot_le_lt. intros Hle.
  apply Qle_bool_iff in Hle. congruence.
Qed.

(** The scan behind [np.argmin]: with [best] the least entry seen so far,
    first met at [best_i], the result is the first position of the least
    entry of everything seen. *)
Lemma np_argmin_from_spec (rest : list Q) :
  forall (pre : list Q) (best_i : nat) (best : Q),
    nth_error pre best_i = Some best ->
    (forall j v, nth_error pre j = Some v -> (best <= v)%Q) ->
    (forall j v, (j < best_i)%nat -> nth_error pre j = Some v -> ~ (v <= best)%Q) ->
    exists (m : nat) (vm : Q),
      np_argmin_from (Z.of_nat best_i) best (Z.of_nat (List.length pre)) rest = Z.of_nat m
      /\ nth_error (pre ++ rest) m = Some vm
      /\ (forall j v, nth_error (pre ++ rest) j = Some v -> (vm <= v)%Q)
      /\ (forall j v, (j < m)%nat -> nth_error (pre ++ rest) j = Some v -> ~ (v <= vm)%Q).
Proof.
  induction rest as [|x rest IH]; intros pre best_i best Hbest Hmin Hfirst.
  - exists best_i, best. rewrite app_nil_r. simpl. auto.
  - simpl np_argmin_from.
    assert (Hlen : Z.of_nat (List.length pre) + 1 = Z.of_nat (List.length (pre ++ [x])))
      by (rewrite length_app; simpl; lia).
    replace (pre ++ x :: rest)%list with ((pre ++ [x]) ++ rest)%list
      by (rewrite <- app_assoc; reflexivity).
    rewrite Hlen.
    destruct (Qle_bool best x) eqn:Hle.
    + apply Qle_bool_iff in Hle. apply IH.
      * rewrite nth_error_app1; [exact Hbest|].
        apply nth_error_Some. congruence.
      * intros j v Hj.
        destruct (Nat.lt_ge_cases j (List.length pre)) as [Hlt|Hge].
        -- rewrite nth_error_app1 in Hj by exact Hlt. eapply Hmin; eauto.
        -- rewrite nth_error_app2 in Hj by exact Hge.
           destruct (j - List.length pre)%nat as [|k]; simpl in Hj.
           ++ injection Hj as <-. exact Hle.
           ++ destruct k; discriminate Hj.
      * intros j v Hj Hv.
        assert (Hb : (best_i < List.length pre)%nat)
          by (apply nth_error_Some; congruence).
        rewrite nth_error_app1 in Hv by lia. eapply Hfirst; eauto.
    + apply Qle_bool_false_lt in Hle.
      apply IH.
      * rewrite nth_error_app2 by lia. rewrite Nat.sub_diag. reflexivity.
      * intros j v Hj.
        destruct (Nat.lt_ge_cases j (List.length pre)) as [Hlt|Hge].
        -- rewrite nth_error_app1 in Hj by exact Hlt.
           apply Qlt_le_weak. eapply Qlt_le_trans; [exact Hle|]. eapply Hmin; eauto.
        -- rewrite nth_error_app2 in Hj by exact Hge.
           destruct (j - List.length pre)%nat as [|k]; simpl in Hj.
           ++ injection Hj as <-. apply Qle_refl.
           ++ destruct k; discriminate Hj.
      * intros j v Hj Hv.
        rewrite nth_error_app1 in Hv by exact Hj.
        intros Hvx. apply (Qlt_not_le _ _ Hle).
        eapply Qle_trans; [|exact Hvx]. eapply Hmin; eauto.
Qed.

(** [np.argmin] returns the first position of the least entry. *)
Lemma np_argmin_spec (a : list Q) :
  a <> [] ->
  exists (m : nat) (vm : Q),
    np_argmin a = Some (Z.of_nat m)
    /\ nth_error a m = Some vm
    /\ (forall j v, nth_error a j = Some v -> (vm <= v)%Q)
    /\ (forall j v, (j < m)%nat -> nth_error a j = Some v -> ~ (v <= vm)%Q).
Proof.
  destruct a as [|x a]; [congruence|]. intros _.
  destruct (@np_argmin_from_spec a [x] 0%nat x) as (m & vm & Hm & Hrest).
  - reflexivity.
  - intros [|[|j]] v Hj; try discriminate Hj. injection Hj as <-. apply Qle_refl.
  - intros j v Hj. lia.
  - exists m, vm. split; [|exact Hrest].
    unfold np_argmin. simpl in Hm. rewrite Hm. reflexivity.
Qed.

(** Reading a slice whose bounds lie inside the array. *)
Lemma py_slice_nth {A : Type} (l : list A) (lo hi : Z) (j : nat) :
  0 <= lo -> lo <= hi -> hi <= Z.of_nat (List.length l) ->
  (j < Z.to_nat (hi - lo))%nat ->
  nth_error (py_slice l lo hi) j = nth_error l (Z.to_nat lo + j).
Proof.
  intros Hlo Hlh Hhi Hj. unfold py_slice, py_clip. cbv zeta.
  replace (lo <? 0) with false by (symmetry; apply Z.ltb_ge; lia).
  replace (hi <? 0) with false by (symmetry; apply Z.ltb_ge; lia).
  rewrite nth_error_firstn.
  replace (j <? Z.to_nat (Z.min hi (Z.of_nat (List.length l))
                          - Z.min lo (Z.of_nat (List.length l))))%nat with true
    by (symmetry; apply Nat.ltb_lt; lia).
  rewrite nth_error_skipn. f_equal. lia.
Qed.

Lemma py_index_nth {A : Type} (l : list A) (i : Z) :
  0 <= i < Z.of_nat (List.length l) -> py_index l i = nth_error l (Z.to_nat i).
Proof.
  intros Hi. unfold py_index. cbv zeta.
  replace (0 <=? i) with true by (symmetry; apply Z.leb_le; lia).
  replace (i <? Z.of_nat (List.length l)) with true by (symmetry; apply Z.ltb_lt; lia).
  reflexivity.
Qed.

(** What [get_next_minimum] returns for an index inside the signal and a
    search of at least one sample. *)
Lemma get_next_minimum_spec (signal : list Q) (index max_samples_to_search : Z) :
  0 <= index < Z.of_nat (List.length signal) ->
  1 <= max_samples_to_search ->
  exists (r : Z) (vr : Q),
    get_next_minimum signal index max_samples_to_search = Some r
    /\ index <= r < Z.min (index + max_samples_to_search) (Z.of_nat (List.length signal))
    /\ py_index signal r = Some vr
    /\ (forall (j : Z) (v : Q),
          index <= j < Z.min (index + max_samples_to_search) (Z.of_nat (List.length signal)) ->
          py_index signal j = Some v -> (vr <= v)%Q)
    /\ (forall (j : Z) (v : Q),
          index <= j < r -> py_index signal j = Some v -> ~ (v <= vr)%Q).
Proof.
  intros Hi Hm. unfold get_next_minimum. cbv zeta.
  set (search_end_idx :=
         Z.min (index + max_samples_to_search) (Z.of_nat (List.length signal))).
  assert (Hend : index < search_end_idx <= Z.of_nat (List.length signal))
    by (subst search_end_idx; lia).
  assert (Hlen : List.length (py_slice signal index search_end_idx)
                 = Z.to_nat (search_end_idx - index))
    by (apply py_slice_length; lia).
  destruct (@np_argmin_spec (py_slice signal index search_end_idx))
    as (m & vm & Hm1 & Hm2 & Hm3 & Hm4).
  { intros Hnil. rewrite Hnil in Hlen. simpl in Hlen. lia. }
  assert (Hmlt : (m < Z.to_nat (search_end_idx - index))%nat).
  { rewrite <- Hlen. apply nth_error_Some. congruence. }
  rewrite Hm1. exists (index + Z.of_nat m), vm.
  split; [reflexivity|]. split; [lia|]. split; [|split].
  - rewrite py_index_nth by lia.
    rewrite py_slice_nth in Hm2 by lia.
    replace (Z.to_nat (index + Z.of_nat m)) with (Z.to_nat index + m)%nat by lia.
    exact Hm2.
  - intros j v Hj Hv. rewrite py_index_nth in Hv by lia.
    apply (Hm3 (Z.to_nat (j - index)) v).
    rewrite py_slice_nth by lia.
    replace (Z.to_nat index + Z.to_nat (j - index))%nat with (Z.to_nat j) by lia.
    exact Hv.
  - intros j v Hj Hv. rewrite py_index_nth in Hv by lia.
    apply (Hm4 (Z.to_nat (j - index)) v); [lia|].
    rewrite py_slice_nth by lia.
    replace (Z.to_nat index + Z.to_nat (j - index))%nat with (Z.to_nat j) by lia.
    exact Hv.
Qed.

(** Two searches of the same length from increasing indices find minima in
    the same order. *)
Lemma get_next_minimum_monotone (signal : list Q) (t1 t2 w r1 r2 : Z) :
  0 <= t1 -> t1 < t2 -> t2 < Z.of_nat (List.length signal) -> 1 <= w ->
  get_next_minimum signal t1 w = Some r1 ->
  get_next_minimum signal t2 w = Some r2 ->
  r1 <= r2.
Proof.
  intros H0 H12 H2 Hw Hr1 Hr2.
  destruct (@get_next_minimum_spec signal t1 w) as (r1' & v1 & E1 & B1 & I1 & M1 & F1);
    [lia|lia|].
  destruct (@get_next_minimum_spec signal t2 w) as (r2' & v2 & E2 & B2 & I2 & M2 & F2);
    [lia|lia|].
  rewrite Hr1 in E1. injection E1 as <-. rewrite Hr2 in E2. injection E2 as <-.
  destruct (Z_le_gt_dec r1 r2) as [Hle|Hgt]; [exact Hle|exfalso].
  apply (F1 r2 v2); [lia|exact I2|].
  apply (M2 r1 v1); [lia|exact I1].
Qed.

Lemma map_opt_Forall2 {A B : Type} (f : A -> option B) (l : list A) (ys : list B) :
  map_opt f l = Some ys <-> Forall2 (fun x y => f x = Some y) l ys.
Proof.
  revert ys. induction l as [|x l IH]; intros ys; simpl.
  - split.
    + intros H. injection H as <-. constructor.
    + intros H. inversion H. reflexivity.
  - split.
    + destruct (f x) as [y|] eqn:Hy; [|discriminate].
      destruct (map_opt f l) as [ys'|] eqn:Hys; [|discriminate].
      intros H. injection H as <-. constructor; [exact Hy|]. apply IH. reflexivity.
    + intros H. inversion H as [|? y ? ys' Hy Hrest]; subst.
      rewrite Hy. apply IH in Hrest. rewrite Hrest. reflexivity.
Qed.

Lemma map_opt_total {A B : Type} (f : A -> option B) (P : A -> Prop) (l : list A) :
  (forall x, P x -> exists y, f x = Some y) ->
  Forall P l -> exists ys, map_opt f l = Some ys.
Proof.
  intros Hf Hl. induction Hl as [|x l Hx _ [ys Hys]]; simpl.
  - exists []. reflexivity.
  - destruct (Hf x Hx) as [y Hy]. rewrite Hy, Hys. eexists. reflexivity.
Qed.

(** What [align_to_minimum] returns for crossings inside the signal and a
    search of at least one sample. *)
Lemma align_to_minimum_spec (signal : list Q) (fs : Q) (crossings : list Z)
  (search_range : Q) (w : Z) :
  Forall (fun t => 0 <= t < Z.of_nat (List.length signal)) crossings ->
  py_int (float_mul search_range fs) = Some w ->
  1 <= w ->
  exists spikes : list Z,
    align_to_minimum signal fs crossings search_range = Some spikes
    /\ Forall2 (fun t r => get_next_minimum signal t w = Some r) crossings spikes.
Proof.
  intros Hc Hint Hw. unfold align_to_minimum. rewrite Hint.
  destruct (@map_opt_total _ _
              (fun t => get_next_minimum signal t w)
              (fun t => 0 <= t < Z.of_nat (List.length signal)) crossings)
    as [spikes Hs].
  - intros t Ht.
    destruct (@get_next_minimum_spec signal t w Ht Hw)
      as (r & _ & Hr & _).
    exists r. exact Hr.
  - exact Hc.
  - exists spikes. split; [exact Hs|]. apply map_opt_Forall2. exact Hs.
Qed.

(** A minimum found from [t] is not after those found from later indices. *)
Lemma aligned_after (signal : list Q) (w t r : Z) :
  0 <= t -> 1 <= w ->
  get_next_minimum signal t w = Some r ->
  forall (ts rs : list Z),
    Forall2 (fun t' r' => get_next_minimum signal t' w = Some r') ts rs ->
    Forall (fun t' => t < t' < Z.of_nat (List.length signal)) ts ->
    Forall (Z.le r) rs.
Proof.
  intros Ht Hw Hr ts rs Hall.
  induction Hall as [|t' r' ts' rs' Hr' _ IH]; intros Hts; [constructor|].
  inversion Hts as [|? ? Ht' Hts']; subst.
  constructor; [|exact (IH Hts')].
  eapply (@get_next_minimum_monotone signal t t'); eauto; lia.
Qed.

(** Minima found from strictly increasing indices never decrease. *)
Lemma aligned_sorted (signal : list Q) (w : Z) (ts rs : list Z) :
  1 <= w ->
  Forall2 (fun t r => get_next_minimum signal t w = Some r) ts rs ->
  Forall (fun t => 0 <= t < Z.of_nat (List.length signal)) ts ->
  StronglySorted Z.lt ts ->
  StronglySorted Z.le rs.
Proof.
  intros Hw Hall.
  induction Hall as [|t r ts rs Hr Hrest IH]; intros Hc Hsorted; [constructor|].
  inversion Hc as [|? ? Ht Hts]; subst.
  inversion Hsorted as [|? ? Hsorted' Hlt]; subst.
  constructor; [exact (IH Hts Hsorted')|].
  apply (@aligned_after signal w t r (proj1 Ht) Hw Hr ts rs Hrest).
  rewrite Forall_forall in *. intros t' Hin.
  specialize (Hts t' Hin). specialize (Hlt t' Hin). lia.
Qed.

(** An empty search window makes [np.argmin] raise. *)
Lemma get_next_minimum_empty_slice (signal : list Q) (index max_samples_to_search : Z) :
  0 <= index ->
  max_samples_to_search = 0 \/ Z.of_nat (List.length signal) <= index ->
  get_next_minimum signal index max_samples_to_search = None.
Proof.
  intros Hi Hcase. unfold get_next_minimum. cbv zeta.
  assert (Hnil : py_slice signal index
                   (Z.min (index + max_samples_to_search) (Z.of_nat (List.length signal)))
                 = []).
  { unfold py_slice, py_clip. cbv zeta.
    replace (index <? 0) with false by (symmetry; apply Z.ltb_ge; lia).
    match goal with |- firstn ?k _ = _ => replace k with 0%nat; [reflexivity|] end.
    destruct (Z.min (index + max_samples_to_search) (Z.of_nat (List.length signal)) <? 0)
      eqn:Hneg; [apply Z.ltb_lt in Hneg|apply Z.ltb_ge in Hneg]; lia. }
  rewrite Hnil. reflexivity.
Qed.

End MinimumFacts.



(** X2.  [get_next_minimum] raises ([np.argmin] of an empty slice) when the
    search has length zero or the index lies beyond the signal. *)
Theorem get_next_minimum_empty_window_raises
  (signal : list Q) (index max_samples_to_search : Z) :
  0 <= index ->
  max_samples_to_search = 0 \/ Z.of_nat (List.length signal) <= index ->
  get_next_minimum signal index max_samples_to_search = None.
Proof.
  intros Hi Hcase. apply get_next_minimum_empty_slice; assumption.
Qed.

(** Witness of X2: a search of zero samples. *)
Lemma get_next_minimum_empty_window_raises_witness :
  0 <= 1
  /\ (0 = 0 \/ Z.of_nat (List.length [0; -5; -6]%Q) <= 1)
  /\ get_next_minimum [0; -5; -6]%Q 1 0 = None.
Proof.
  split; [lia|]. split; [left; reflexivity|].
  apply (@get_next_minimum_empty_window_raises [0; -5; -6]%Q 1 0); [lia|left; reflexivity].
Defined.

(** X3.  For crossings inside the signal and a search range of at least one
    sample ([int(search_range * fs)], the float product truncated, is at
    least 1), [align_to_minimum] returns one position per crossing, each not
    before its crossing and before both the end of its search window of
    [int(search_range * fs)] samples and the end of the signal. *)
Theorem align_to_minimum_stays_in_window
  (signal : list Q) (fs : Q) (crossings : list Z) (search_range : Q) (search_end : Z) :
  Forall (fun t => 0 <= t < Z.of_nat (List.length signal)) crossings ->
  py_int (float_mul search_range fs) = Some search_end ->
  1 <= search_end ->
  exists spikes : list Z,
    align_to_minimum signal fs crossings search_range = Some spikes
    /\ Forall2 (fun t r =>
                  t <= r < Z.min (t + search_end) (Z.of_nat (List.length signal)))
         crossings spikes.
Proof.
  intros Hc Hint Hw.
  destruct (align_to_minimum_spec signal fs search_range Hc Hint Hw)
    as (spikes & Hs & Hall).
  exists spikes. split; [exact Hs|].
  clear Hs. induction Hall as [|t r ts rs Hr _ IH]; [constructor|].
  inversion Hc as [|? ? Ht Hts]; subst.
  constructor; [|exact (IH Hts)].
  destruct (@get_next_minimum_spec signal t search_end Ht Hw)
    as (r' & _ & Hr' & Hb & _).
  rewrite Hr in Hr'. injection Hr' as <-. exact Hb.
Qed.

(** Witness of X3: three seconds at 1 Hz are three samples. *)
Lemma align_to_minimum_stays_in_window_witness :
  exists spikes : list Z,
    align_to_minimum [0; -5; -6; 0; -7; 0; 0; 0; -9; -9; 0]%Q 1 [0; 2; 7; 9] 3 = Some spikes
    /\ Forall2 (fun t r =>
                  t <= r < Z.min (t + 3)
                             (Z.of_nat (List.length [0; -5; -6; 0; -7; 0; 0; 0; -9; -9; 0]%Q)))
         [0; 2; 7; 9] spikes.
Proof.
  apply (@align_to_minimum_stays_in_window
           [0; -5; -6; 0; -7; 0; 0; 0; -9; -9; 0]%Q 1 [0; 2; 7; 9] 3 3).
  - repeat constructor; simpl; lia.
  - vm_compute. reflexivity.
  - lia.
Defined.

(** X4.  [align_to_minimum] keeps the order of the crossings: for strictly
    increasing crossings (and a search range of at least one sample, which
    [float_mul_ge_Z] gives whenever the exact product is at least 1) the
    aligned positions never decrease (two crossings may be aligned to the
    same minimum). *)
Theorem align_to_minimum_keeps_order
  (signal : list Q) (fs : Q) (crossings : list Z) (search_range : Q) (search_end : Z) :
  Forall (fun t => 0 <= t < Z.of_nat (List.length signal)) crossings ->
  StronglySorted Z.lt crossings ->
  py_int (float_mul search_range fs) = Some search_end ->
  1 <= search_end ->
  exists spikes : list Z,
    align_to_minimum signal fs crossings search_range = Some spikes
    /\ StronglySorted Z.le spikes.
Proof.
  intros Hc Hsorted Hint Hw.
  destruct (align_to_minimum_spec signal fs search_range Hc Hint Hw)
    as (spikes & Hs & Hall).
  exists spikes. split; [exact Hs|].
  exact (@aligned_sorted signal _ _ _ Hw Hall Hc Hsorted).
Qed.

(** Witness of X4: the crossings 0 and 1 are both aligned to the minimum
    at 2. *)
Lemma align_to_minimum_keeps_order_witness :
  exists spikes : list Z,
    align_to_minimum [0; -5; -6; 0; -7; 0]%Q 1 [0; 1; 3] 3 = Some spikes
    /\ StronglySorted Z.le spikes.
Proof.
  apply (@align_to_minimum_keeps_order [0; -5; -6; 0; -7; 0]%Q 1 [0; 1; 3] 3 3).
  - repeat constructor; simpl; lia.
  - repeat constructor; lia.
  - vm_compute. reflexivity.
  - lia.
Defined.

(** X5.  When the search range is shorter than one sample
    ([int(search_range * fs)], the float product truncated, is 0),
    [align_to_minimum] raises as soon as there is a crossing to align;
    without crossings it returns the empty array. *)
Theorem align_to_minimum_short_search_raises
  (signal : list Q) (fs : Q) (crossings : list Z) (search_range : Q) :
  py_int (float_mul search_range fs) = Some 0 ->
  Forall (fun t => 0 <= t) crossings ->
  align_to_minimum signal fs crossings search_range
  = match crossings with
    | [] => Some []
    | _ :: _ => None
    end.
Proof.
  intros Hw Hc. unfold align_to_minimum. rewrite Hw.
  destruct crossings as [|t ts]; [reflexivity|].
  inversion Hc as [|? ? Ht _]; subst. simpl.
  rewrite (@get_next_minimum_empty_slice signal t 0 Ht (or_introl eq_refl)). reflexivity.
Qed.

(** Witness of X5: 2 ms at 100 Hz is less than one sample. *)
Lemma align_to_minimum_short_search_raises_witness :
  align_to_minimum [0; -5; -6]%Q 100 [0] (py_float (2 # 1000)) = None.
Proof.
  apply (@align_to_minimum_short_search_raises [0; -5; -6]%Q 100 [0] (py_float (2 # 1000))).
  - vm_compute. reflexivity.
  - repeat constructor. lia.
Defined.

(** ** [detect_threshold_crossings] *)

Section CrossingFacts.

Lemma np_nonzero_from_In (a : list bool) :
  forall (i x : Z),
    In x (np_nonzero_from i a) ->
    exists k : nat, x = i + Z.of_nat k /\ nth_error a k = Some true.
Proof.
  induction a as [|b a IH]; intros i x Hin; simpl in Hin; [contradiction|].
  assert (Hrest : In x (np_nonzero_from (i + 1) a) ->
                  exists k : nat, x = i + Z.of_nat k /\ nth_error (b :: a) k = Some true).
  { intros H. destruct (IH _ _ H) as (k & -> & Hk). exists (S k). split; [lia|exact Hk]. }
  destruct b; [destruct Hin as [<-|Hin]|]; auto.
  exists 0%nat. split; [lia|reflexivity].
Qed.

Lemma np_diff_bool_nth (a : list bool) :
  forall (k : nat) (b : bool),
    nth_error (np_diff_bool a) k = Some b ->
    exists x y : bool,
      nth_error a k = Some x /\ nth_error a (S k) = Some y /\ b = xorb y x.
Proof.
  induction a as [|x a IH]; intros k b Hk; [destruct k; discriminate Hk|].
  destruct a as [|y a]; [destruct k; discriminate Hk|].
  change (np_diff_bool (x :: y :: a)) with (xorb y x :: np_diff_bool (y :: a)) in Hk.
  destruct k as [|k].
  - injection Hk as <-. exists x, y. repeat split; reflexivity.
  - simpl in Hk. destruct (IH _ _ Hk) as (x' & y' & Hx & Hy & Hb).
    exists x', y'. repeat split; assumption.
Qed.

Lemma side_mask_nth (signal : list Q) (threshold : Q) (k : nat) :
  nth_error (np_gt0 (np_astype_int (np_le signal threshold))) k
  = option_map (fun v => Qle_bool v threshold) (nth_error signal k).
Proof.
  unfold np_gt0, np_astype_int, np_le. rewrite !map_map, nth_error_map.
  destruct (nth_error signal k) as [v|]; [|reflexivity].
  simpl. destruct (Qle_bool v threshold); reflexivity.
Qed.

(** Every position in [threshold_crossings] is a change of sides. *)
Lemma threshold_crossings_of_spec (signal : list Q) (threshold : Q) (c : Z) :
  In c (threshold_crossings_of signal threshold) ->
  changes_side_at signal threshold c
  /\ c + 1 < Z.of_nat (List.length signal).
Proof.
  intros Hin. unfold threshold_crossings_of, np_nonzero in Hin.
  destruct (np_nonzero_from_In _ _ _ Hin) as (k & -> & Hk).
  destruct (np_diff_bool_nth _ _ Hk) as (x & y & Hx & Hy & Hb).
  rewrite side_mask_nth in Hx, Hy.
  destruct (nth_error signal k) as [v0|] eqn:E0; [|discriminate Hx].
  destruct (nth_error signal (S k)) as [v1|] eqn:E1; [|discriminate Hy].
  simpl in Hx, Hy. injection Hx as <-. injection Hy as <-.
  assert (Hlen : (S k < List.length signal)%nat)
    by (apply nth_error_Some; congruence).
  split; [|lia]. split; [lia|]. exists v0, v1.
  rewrite !py_index_nth by lia.
  replace (Z.to_nat (0 + Z.of_nat k)) with k by lia.
  replace (Z.to_nat (0 + Z.of_nat k + 1)) with (S k) by lia.
  split; [exact E0|]. split; [exact E1|].
  intros Heq. rewrite Heq in Hb. destruct (Qle_bool v1 threshold); discriminate Hb.
Qed.

Lemma np_mask_head {A : Type} (a : list A) (mask : list bool) (r : list A) :
  np_mask a (true :: mask) = Some r -> hd_error r = hd_error a.
Proof.
  destruct a as [|x a]; simpl; [discriminate|].
  destruct (np_mask a mask); [|discriminate].
  intros H. injection H as <-. reflexivity.
Qed.

(** The loop never drops the first crossing. *)
Lemma dead_time_loop_head (d : Q) (tc : list Z) (ds : list bool) :
  ds = np_insert0 (np_ge (np_diff tc) d) true ->
  forall r : list Z, dead_time_loop d tc ds = Some r -> hd_error r = hd_error tc.
Proof.
  funelim (dead_time_loop d tc ds); intros Hds r Hr.
  - injection Hr as <-. reflexivity.
  - subst distance_sufficient. unfold np_insert0 in Hkept.
    rewrite (H eq_refl r Hr). eapply np_mask_head; eauto.
  - discriminate Hr.
Qed.

(** In a strictly increasing array of integers neighbours are at least one
    apart. *)
Lemma np_diff_sorted (tc : list Z) :
  StronglySorted Z.lt tc -> Forall (fun g => 1 <= g) (np_diff tc).
Proof.
  induction tc as [|x tc IH]; intros Hs; [constructor|].
  destruct tc as [|y tc]; [constructor|].
  change (np_diff (x :: y :: tc)) with ((y - x) :: np_diff (y :: tc)).
  inversion Hs as [|? ? Hs' Hall]; subst.
  constructor; [|exact (IH Hs')].
  inversion Hall; subst. lia.
Qed.

Lemma np_diff_bool_constant (side : bool) (a : list bool) :
  Forall (fun b => b = side) a -> Forall (fun b => b = false) (np_diff_bool a).
Proof.
  induction a as [|x a IH]; intros Ha; [constructor|].
  destruct a as [|y a]; [constructor|].
  change (np_diff_bool (x :: y :: a)) with (xorb y x :: np_diff_bool (y :: a)).
  inversion Ha as [|? ? Hx Ha']; subst.
  constructor; [|exact (IH Ha')].
  inversion Ha'; subst. destruct side; reflexivity.
Qed.

Lemma np_nonzero_from_none (i : Z) (a : list bool) :
  Forall (fun b => b = false) a -> np_nonzero_from i a = [].
Proof.
  revert i. induction a as [|b a IH]; intros i Ha; [reflexivity|].
  inversion Ha; subst. simpl. apply IH. assumption.
Qed.

(** When every gap is long enough the loop is not entered. *)
Lemma dead_time_loop_all (d : Q) (tc : list Z) (ds : list bool) :
  np_all ds = true -> dead_time_loop d tc ds = Some tc.
Proof.
  funelim (dead_time_loop d tc ds); intros Hds; congruence.
Qed.

End CrossingFacts.

(** X6.  Every index that [detect_threshold_crossings] returns is a position
    where the signal changes sides of the threshold, in either direction: of
    the samples at [c] and [c + 1], both inside the signal, exactly one is at
    or below the threshold. *)
Theorem detected_crossings_change_side
  (signal : list Q) (fs threshold dead_time : Q) :
  exists r : list Z,
    detect_threshold_crossings signal fs threshold dead_time = Some r
    /\ Forall (changes_side_at signal threshold) r.
Proof.
  unfold detect_threshold_crossings. cbv zeta.
  destruct (@dead_time_loop_spec (float_mul dead_time fs)
              (threshold_crossings_of signal threshold) _ eq_refl
              (np_nonzero_from_sorted 0 _))
    as (r & Hr & _ & _ & Hin).
  exists r. split; [exact Hr|].
  apply Forall_forall. intros c Hc.
  apply threshold_crossings_of_spec. apply Hin. exact Hc.
Qed.

(** X7.  [detect_threshold_crossings] returns a selection of the side changes
    that always starts with the first of them: the result is empty only when
    the signal never changes sides. *)
Theorem detect_keeps_first_crossing
  (signal : list Q) (fs threshold dead_time : Q) :
  exists r : list Z,
    detect_threshold_crossings signal fs threshold dead_time = Some r
    /\ hd_error r = hd_error (threshold_crossings_of signal threshold)
    /\ (forall c : Z, In c r -> In c (threshold_crossings_of signal threshold)).
Proof.
  unfold detect_threshold_crossings. cbv zeta.
  destruct (@dead_time_loop_spec (float_mul dead_time fs)
              (threshold_crossings_of signal threshold) _ eq_refl
              (np_nonzero_from_sorted 0 _))
    as (r & Hr & _ & _ & Hin).
  exists r. split; [exact Hr|]. split; [|exact Hin].
  eapply dead_time_loop_head; [reflexivity|exact Hr].
Qed.

(** X9.  A signal that stays on one side of the threshold (all samples at or
    below it, or all above it; in particular a signal of fewer than two
    samples) has no crossing: the result is the empty array. *)
Theorem detect_nothing_without_side_change
  (signal : list Q) (fs threshold dead_time : Q) (side : bool) :
  Forall (fun v => Qle_bool v threshold = side) signal ->
  detect_threshold_crossings signal fs threshold dead_time = Some [].
Proof.
  intros Hside. unfold detect_threshold_crossings. cbv zeta.
  assert (Hnone : np_nonzero (np_diff_bool (np_gt0 (np_astype_int (np_le signal threshold))))
                  = []).
  { unfold np_nonzero. apply np_nonzero_from_none.
    apply (@np_diff_bool_constant side).
    apply Forall_forall. intros b Hb.
    apply In_nth_error in Hb as [k Hk]. rewrite side_mask_nth in Hk.
    destruct (nth_error signal k) as [v|] eqn:E; [|discriminate Hk].
    simpl in Hk. injection Hk as <-.
    rewrite Forall_forall in Hside. apply Hside. eapply nth_error_In; eauto. }
  rewrite Hnone. apply dead_time_loop_all. reflexivity.
Qed.

(** Witness of X9: every sample is above the threshold. *)
Lemma detect_nothing_without_side_change_witness :
  detect_threshold_crossings [0; 1; 2; 1]%Q 1 (-3) 2 = Some [].
Proof.
  apply (@detect_nothing_without_side_change [0; 1; 2; 1]%Q 1 (-3) 2 false).
  repeat constructor.
Defined.

(** ** [ThresholdCutoff.__call__]: the trains of one signal *)

Section CallFacts.

Context {N : Numpy} {E : Neo}.

Lemma aligned_in_signal (signal : list Q) (w : Z) (ts rs : list Z) :
  1 <= w ->
  Forall2 (fun t r => get_next_minimum signal t w = Some r) ts rs ->
  Forall (fun t => 0 <= t < Z.of_nat (List.length signal)) ts ->
  Forall2 (fun t r => t <= r < Z.min (t + w) (Z.of_nat (List.length signal))) ts rs.
Proof.
  intros Hw Hall. induction Hall as [|t r ts rs Hr _ IH]; intros Hc; [constructor|].
  inversion Hc as [|? ? Ht Hts]; subst.
  constructor; [|exact (IH Hts)].
  destruct (@get_next_minimum_spec signal t w Ht Hw) as (r' & _ & Hr' & Hb & _).
  rewrite Hr in Hr'. injection Hr' as <-. exact Hb.
Qed.

(** Detection followed by alignment, as [__call__] chains them: for a search
    range of at least one sample neither raises, and the aligned positions
    lie inside the array and never decrease. *)
Lemma detect_then_align (array : list Q) (fs threshold dead_time search_range : Q)
  (w : Z) :
  py_int (float_mul search_range fs) = Some w ->
  1 <= w ->
  exists crossings spikes : list Z,
    detect_threshold_crossings array fs threshold dead_time = Some crossings
    /\ align_to_minimum array fs crossings search_range = Some spikes
    /\ StronglySorted Z.lt crossings
    /\ Forall (fun gap => (float_mul dead_time fs <= inject_Z gap)%Q) (np_diff crossings)
    /\ Forall2 (fun t r => t <= r < Z.min (t + w) (Z.of_nat (List.length array)))
         crossings spikes
    /\ Forall (fun r => 0 <= r < Z.of_nat (List.length array)) spikes
    /\ StronglySorted Z.le spikes.
Proof.
  intros Hint Hw.
  assert (Hdet : exists crossings : list Z,
             detect_threshold_crossings array fs threshold dead_time = Some crossings
             /\ StronglySorted Z.lt crossings
             /\ Forall (fun gap => (float_mul dead_time fs <= inject_Z gap)%Q) (np_diff crossings)
             /\ Forall (fun t => 0 <= t < Z.of_nat (List.length array)) crossings).
  { unfold detect_threshold_crossings. cbv zeta.
    destruct (@dead_time_loop_spec (float_mul dead_time fs)
                (threshold_crossings_of array threshold) _ eq_refl
                (np_nonzero_from_sorted 0 _))
      as (r & Hr & Hs & Hg & Hin).
    exists r. split; [exact Hr|]. split; [exact Hs|]. split; [exact Hg|].
    apply Forall_forall. intros c Hc.
    destruct (threshold_crossings_of_spec _ _ _ (Hin c Hc)) as [[H0 _] H1]. lia. }
  destruct Hdet as (crossings & Hdet & Hsorted & Hgaps & Hvalid).
  destruct (align_to_minimum_spec array fs search_range Hvalid Hint Hw)
    as (spikes & Hal & Hall).
  pose proof (@aligned_in_signal array _ _ _ Hw Hall Hvalid) as Hin.
  exists crossings, spikes.
  split; [exact Hdet|]. split; [exact Hal|]. split; [exact Hsorted|].
  split; [exact Hgaps|]. split; [exact Hin|]. split.
  - clear Hall Hal Hsorted Hgaps Hdet.
    induction Hin as [|t r ts rs Hr _ IH]; [constructor|].
    inversion Hvalid as [|? ? Ht Hts]; subst.
    constructor; [lia|exact (IH Hts)].
  - exact (@aligned_sorted array _ _ _ Hw Hall Hvalid Hsorted).
Qed.

(** The train of one channel, when plain arrays are asked for, the signal
    has timestamps and the search range covers at least one sample. *)
Lemma detect_channel_spec (self : ThresholdCutoff) (signal : Signal)
  (array : list Q) (t_min : Q) (w : Z) :
  return_neotype self = false ->
  np_min (timestamps signal) = Some t_min ->
  py_int (float_mul (search_range self) (rate signal)) = Some w ->
  1 <= w ->
  exists (spikes : list Z) (train : spiketrain),
    detect_channel self signal array = Some train
    /\ stamps_of train = map (sample_time (rate signal) t_min) spikes
    /\ Forall (fun s => 0 <= s < Z.of_nat (List.length array)) spikes
    /\ StronglySorted Z.le spikes.
Proof.
  intros Hplain Hmin Hint Hw. unfold detect_channel. cbv zeta.
  destruct (@detect_then_align array (rate signal)
              (compute_spike_threshold array (cutoff self) (use_mad self))
              (dead_time self) (search_range self) w Hint Hw)
    as (crossings & spikes & Hdet & Hal & _ & _ & _ & Hin & Hs).
  rewrite Hdet, Hal, Hmin, Hplain.
  exists spikes. eexists. split; [reflexivity|]. simpl. auto.
Qed.

Lemma map_opt_In_None {A B : Type} (f : A -> option B) (l : list A) (x : A) :
  In x l -> f x = None -> map_opt f l = None.
Proof.
  induction l as [|y l IH]; intros Hin Hx; [contradiction|].
  simpl. destruct Hin as [->|Hin].
  - rewrite Hx. reflexivity.
  - destruct (f y); [|reflexivity]. rewrite (IH Hin Hx). reflexivity.
Qed.

Lemma Forall2_from_Forall {A B : Type} (R S : A -> B -> Prop) (l : list A) (l' : list B) :
  (forall x y, R x y -> S x y) -> Forall2 R l l' -> Forall2 S l l'.
Proof. intros H Hall. induction Hall; constructor; auto. Qed.

(** The whole body, when plain arrays are asked for, the signal has
    timestamps and the search range covers at least one sample. *)
Lemma call_body_spec (self : ThresholdCutoff) (signal : Signal) (t_min : Q) (w : Z) :
  return_neotype self = false ->
  np_min (timestamps signal) = Some t_min ->
  py_int (float_mul (search_range self) (rate signal)) = Some w ->
  1 <= w ->
  exists s : Spikestamps,
    ThresholdCutoff_call_body self signal = Some s
    /\ Forall2
         (fun (array : list Q) (train : spiketrain) =>
            exists spikes : list Z,
              stamps_of train = map (sample_time (rate signal) t_min) spikes
              /\ Forall (fun p => 0 <= p < Z.of_nat (List.length array)) spikes
              /\ StronglySorted Z.le spikes)
         (channels signal) (trains s).
Proof.
  intros Hplain Hmin Hint Hw. unfold ThresholdCutoff_call_body.
  destruct (@map_opt_total _ _ (detect_channel self signal) (fun _ => True)
              (channels signal)) as [trains_list Htrains].
  - intros array _.
    destruct (detect_channel_spec self signal array Hplain Hmin Hint Hw)
      as (_ & train & Ht & _).
    exists train. exact Ht.
  - apply Forall_forall. auto.
  - rewrite Htrains. eexists. split; [reflexivity|]. simpl.
    apply map_opt_Forall2 in Htrains.
    eapply Forall2_from_Forall; [|exact Htrains].
    simpl. intros array train Ht.
    destruct (detect_channel_spec self signal array Hplain Hmin Hint Hw)
      as (spikes & train' & Ht' & Hst & Hin & Hs).
    rewrite Ht in Ht'. injection Ht' as <-.
    exists spikes. auto.
Qed.

(** A later sample is given a time that is not earlier: both roundings keep
    the order. *)
Lemma stamp_le (rate t_min : Q) (p q : Z) :
  (0 < rate)%Q -> p <= q ->
  (sample_time rate t_min p <= sample_time rate t_min q)%Q.
Proof.
  intros Hr Hpq. unfold sample_time, float_add, float_div.
  apply round_float64_monotone. apply Qplus_le_compat; [|apply Qle_refl].
  apply round_float64_monotone.
  unfold Qdiv. apply Qmult_le_compat_r.
  - rewrite <- Zle_Qle. exact Hpq.
  - apply Qlt_le_weak. apply Qinv_lt_0_compat. exact Hr.
Qed.

(** The first sample is given the time [timestamps.min()] itself. *)
Lemma stamp_zero (rate t_min : Q) :
  is_float64 t_min -> (sample_time rate t_min 0 == t_min)%Q.
Proof.
  intros [Hfloat _]. unfold sample_time, float_add, float_div.
  assert (H0 : (inject_Z 0 / rate == inject_Z 0 * 2 ^ 0)%Q).
  { unfold Qdiv. rewrite !Qmult_0_l. reflexivity. }
  assert (H1 : (round_float64 (inject_Z 0 / rate) == 0)%Q).
  { rewrite (round_float64_exact _ 0 0 H0); [|simpl; lia|lia].
    rewrite H0. apply Qmult_0_l. }
  rewrite (round_float64_comp (round_float64 (inject_Z 0 / rate) + t_min) t_min).
  - exact Hfloat.
  - rewrite H1. apply Qplus_0_l.
Qed.

Lemma stamps_sorted (rate t_min : Q) (spikes : list Z) :
  (0 < rate)%Q -> StronglySorted Z.le spikes ->
  StronglySorted Qle (map (sample_time rate t_min) spikes).
Proof.
  intros Hr Hs. induction Hs as [|p spikes _ IH Hall]; simpl; constructor; [exact IH|].
  apply Forall_map. eapply Forall_impl; [|exact Hall].
  simpl. intros q Hq. apply stamp_le; assumption.
Qed.

(** [min()] returns one of the entries. *)
Lemma np_min_In (a : list Q) (m : Q) : np_min a = Some m -> In m a.
Proof.
  destruct a as [|x rest]; [discriminate|]. simpl. intros H. injection H as <-.
  assert (Hfold : forall (l : list Q) (y : Q),
             fold_left (fun m y => if Qle_bool m y then m else y) l y = y
             \/ In (fold_left (fun m y => if Qle_bool m y then m else y) l y) l).
  { induction l as [|z l IH]; intros y; simpl; [left; reflexivity|].
    destruct (Qle_bool y z).
    - destruct (IH y) as [H|H]; [left; exact H|right; right; exact H].
    - destruct (IH z) as [H|H]; [right; left; symmetry; exact H|right; right; exact H]. }
  destruct (Hfold rest x) as [H|H]; [left; symmetry; exact H|right; exact H].
Qed.

(** Crossings that are at least [w] apart, searched over [w] samples each,
    are aligned to different positions. *)
Lemma aligned_distinct (n w : Z) (ts rs : list Z) :
  Forall2 (fun t r => t <= r < Z.min (t + w) n) ts rs ->
  StronglySorted Z.lt ts ->
  Forall (fun gap => w <= gap) (np_diff ts) ->
  StronglySorted Z.lt rs.
Proof.
  intros Hall. induction Hall as [|t r ts rs Hr Hrest IH]; intros Hs Hg; [constructor|].
  inversion Hs as [|? ? Hs' Hlt]; subst.
  assert (Hg' : Forall (fun gap => w <= gap) (np_diff ts)).
  { destruct ts as [|t' ts]; [constructor|].
    change (np_diff (t :: t' :: ts)) with ((t' - t) :: np_diff (t' :: ts)) in Hg.
    inversion Hg; assumption. }
  constructor; [exact (IH Hs' Hg')|].
  assert (Hfar : Forall (fun t' => t + w <= t') ts).
  { destruct ts as [|t' ts]; [constructor|].
    change (np_diff (t :: t' :: ts)) with ((t' - t) :: np_diff (t' :: ts)) in Hg.
    inversion Hg as [|? ? Hgap _]; subst.
    inversion Hs' as [|? ? _ Hlt']; subst.
    constructor; [lia|].
    eapply Forall_impl; [|exact Hlt']. simpl. intros x Hx. lia. }
  clear IH Hs Hs' Hg Hg' Hlt.
  induction Hrest as [|t' r' ts' rs' Hr' _ IH']; [constructor|].
  inversion Hfar as [|? ? Ht' Hfar']; subst.
  constructor; [lia|exact (IH' Hfar')].
Qed.

End CallFacts.

(** X10.  When plain arrays are asked for ([return_neotype] is [False], the
    default), the signal has timestamps and the search range covers at least
    one sample, the body of [__call__] does not raise and returns one train
    per channel; each train holds the times [p / rate + min(timestamps)], as
    the float operations give them, of sample positions [p] that lie inside
    the channel's array and never decrease.  (The rate is at least 1 Hz, so
    that no [p / rate] overflows.) *)
Theorem call_returns_one_train_per_channel {N : Numpy} {E : Neo}
  (self : ThresholdCutoff) (signal : Signal) (search_end : Z) :
  return_neotype self = false ->
  (1 <= rate signal)%Q ->
  timestamps signal <> [] ->
  py_int (float_mul (search_range self) (rate signal)) = Some search_end ->
  1 <= search_end ->
  exists (s : Spikestamps) (t_min : Q),
    ThresholdCutoff_call_body self signal = Some s
    /\ np_min (timestamps signal) = Some t_min
    /\ Forall2
         (fun (array : list Q) (train : spiketrain) =>
            exists spikes : list Z,
              stamps_of train = map (sample_time (rate signal) t_min) spikes
              /\ Forall (fun p => 0 <= p < Z.of_nat (List.length array)) spikes
              /\ StronglySorted Z.le spikes)
         (channels signal) (trains s).
Proof.
  intros Hplain _ Hts Hint Hw.
  assert (Hmin : exists t_min, np_min (timestamps signal) = Some t_min).
  { destruct (timestamps signal); [congruence|]. eexists. reflexivity. }
  destruct Hmin as [t_min Hmin].
  destruct (call_body_spec self signal Hplain Hmin Hint Hw) as (s & Hs & Hall).
  exists s, t_min. auto.
Qed.

(** Witness of X10. *)
Lemma call_returns_one_train_per_channel_witness :
  exists (s : Spikestamps) (t_min : Q),
    ThresholdCutoff_call_body (N := example_numpy) (E := example_neo)
      example_detector example_signal = Some s
    /\ np_min (timestamps example_signal) = Some t_min
    /\ Forall2
         (fun (array : list Q) (train : spiketrain) =>
            exists spikes : list Z,
              stamps_of train
              = map (sample_time (rate example_signal) t_min) spikes
              /\ Forall (fun p => 0 <= p < Z.of_nat (List.length array)) spikes
              /\ StronglySorted Z.le spikes)
         (channels example_signal) (trains s).
Proof.
  apply (@call_returns_one_train_per_channel example_numpy example_neo
           example_detector example_signal 3).
  - reflexivity.
  - vm_compute. discriminate.
  - discriminate.
  - vm_compute. reflexivity.
  - lia.
Defined.

(** X11.  With a positive sampling rate and timestamps that are floats (and
    plain arrays asked for, and a search range of at least one sample) the
    spike times of every channel are reported in non-decreasing order and lie
    between [min(timestamps)], the time of the first sample, and the time
    that the same float operations give the last sample of the channel,
    [(len(array) - 1) / rate + min(timestamps)]. *)
Theorem call_spike_times_within_recording {N : Numpy} {E : Neo}
  (self : ThresholdCutoff) (signal : Signal) (search_end : Z) :
  return_neotype self = false ->
  (0 < rate signal)%Q ->
  timestamps signal <> [] ->
  Forall is_float64 (timestamps signal) ->
  py_int (float_mul (search_range self) (rate signal)) = Some search_end ->
  1 <= search_end ->
  exists (s : Spikestamps) (t_min : Q),
    ThresholdCutoff_call_body self signal = Some s
    /\ np_min (timestamps signal) = Some t_min
    /\ Forall2
         (fun (array : list Q) (train : spiketrain) =>
            StronglySorted Qle (stamps_of train)
            /\ Forall (fun t =>
                         (t_min <= t)%Q
                         /\ (t <= sample_time (rate signal) t_min
                                    (Z.of_nat (List.length array) - 1))%Q)
                 (stamps_of train))
         (channels signal) (trains s).
Proof.
  intros Hplain Hrate Hts Hfloats Hint Hw.
  assert (Hmin : exists t_min, np_min (timestamps signal) = Some t_min).
  { destruct (timestamps signal); [congruence|]. eexists. reflexivity. }
  destruct Hmin as [t_min Hmin].
  assert (Hfloat : is_float64 t_min).
  { rewrite Forall_forall in Hfloats. apply Hfloats. apply np_min_In. exact Hmin. }
  destruct (call_body_spec self signal Hplain Hmin Hint Hw) as (s & Hs & Hall).
  exists s, t_min. split; [exact Hs|]. split; [exact Hmin|].
  eapply Forall2_from_Forall; [|exact Hall].
  simpl. intros array train (spikes & Hst & Hin & Hsorted).
  rewrite Hst. split; [apply stamps_sorted; assumption|].
  apply Forall_map. eapply Forall_impl; [|exact Hin].
  simpl. intros p Hp. split.
  - rewrite <- (stamp_zero (rate signal) Hfloat) at 1. apply stamp_le; [exact Hrate|lia].
  - apply stamp_le; [exact Hrate|lia].
Qed.

(** Witness of X11. *)
Lemma call_spike_times_within_recording_witness :
  exists (s : Spikestamps) (t_min : Q),
    ThresholdCutoff_call_body (N := example_numpy) (E := example_neo)
      example_detector example_signal = Some s
    /\ np_min (timestamps example_signal) = Some t_min
    /\ Forall2
         (fun (array : list Q) (train : spiketrain) =>
            StronglySorted Qle (stamps_of train)
            /\ Forall (fun t =>
                         (t_min <= t)%Q
                         /\ (t <= sample_time (rate example_signal) t_min
                                    (Z.of_nat (List.length array) - 1))%Q)
                 (stamps_of train))
         (channels example_signal) (trains s).
Proof.
  apply (@call_spike_times_within_recording example_numpy example_neo
           example_detector example_signal 3).
  - reflexivity.
  - reflexivity.
  - discriminate.
  - repeat constructor; vm_compute; reflexivity.
  - vm_compute. reflexivity.
  - lia.
Defined.

(** X12.  A signal that has channels but no timestamps makes the body of
    [__call__] raise ([timestamps.min()] of an empty array), whatever the
    samples are. *)
Theorem call_raises_on_empty_timestamps {N : Numpy} {E : Neo}
  (self : ThresholdCutoff) (signal : Signal) :
  timestamps signal = [] ->
  channels signal <> [] ->
  ThresholdCutoff_call_body self signal = None.
Proof.
  intros Hts Hch. unfold ThresholdCutoff_call_body.
  destruct (channels signal) as [|array rest]; [congruence|].
  rewrite (@map_opt_In_None _ _ (detect_channel self signal) (array :: rest) array);
    [reflexivity|left; reflexivity|].
  unfold detect_channel. cbv zeta.
  destruct (detect_threshold_crossings _ _ _ _); [|reflexivity].
  destruct (align_to_minimum _ _ _ _); [|reflexivity].
  rewrite Hts. reflexivity.
Qed.

(** Witness of X12. *)
Lemma call_raises_on_empty_timestamps_witness :
  ThresholdCutoff_call_body (N := example_numpy) (E := example_neo) example_detector
    {| channels := [[0; -5; 0]%Q]; timestamps := []; rate := 1 |} = None.
Proof.
  apply (@call_raises_on_empty_timestamps example_numpy example_neo example_detector
           {| channels := [[0; -5; 0]%Q]; timestamps := []; rate := 1 |});
    [reflexivity|discriminate].
Defined.

(** X13.  When the search range is shorter than one sample
    ([int(search_range * rate)], the float product truncated, is 0) the body
    of [__call__] raises as soon as one channel changes sides of its
    threshold (the noise estimate of that channel being finite, so that the
    threshold is a number or an infinity). *)
Theorem call_raises_on_short_search {N : Numpy} {E : Neo}
  (self : ThresholdCutoff) (signal : Signal) (array : list Q) :
  py_int (float_mul (search_range self) (rate signal)) = Some 0 ->
  In array (channels signal) ->
  float_overflow (noise_mid array (use_mad self)) = false ->
  threshold_crossings_of array
    (compute_spike_threshold array (cutoff self) (use_mad self)) <> [] ->
  ThresholdCutoff_call_body self signal = None.
Proof.
  intros Hw Hin _ Hcross. unfold ThresholdCutoff_call_body.
  rewrite (@map_opt_In_None _ _ (detect_channel self signal) (channels signal) array Hin);
    [reflexivity|].
  unfold detect_channel. cbv zeta.
  set (threshold := compute_spike_threshold array (cutoff self) (use_mad self)) in *.
  assert (Hdet : exists c rest,
             detect_threshold_crossings array (rate signal) threshold (dead_time self)
             = Some (c :: rest) /\ 0 <= c).
  { unfold detect_threshold_crossings. cbv zeta.
    destruct (@dead_time_loop_spec (float_mul (dead_time self) (rate signal))
                (threshold_crossings_of array threshold) _ eq_refl
                (np_nonzero_from_sorted 0 _))
      as (r & Hr & _ & _ & Hsub).
    pose proof (@dead_time_loop_head _ _ _ eq_refl r Hr) as Hhd.
    destruct r as [|c rest].
    - destruct (threshold_crossings_of array threshold); [congruence|discriminate Hhd].
    - exists c, rest. split; [exact Hr|].
      destruct (threshold_crossings_of_spec _ _ _ (Hsub c (or_introl eq_refl)))
        as [[H0 _] _].
      exact H0. }
  destruct Hdet as (c & rest & Hdet & Hc). rewrite Hdet.
  unfold align_to_minimum. rewrite Hw. simpl.
  rewrite (@get_next_minimum_empty_slice array c 0 Hc (or_introl eq_refl)).
  reflexivity.
Qed.

(** Witness of X13: the default search range of 2 ms at 100 Hz. *)
Lemma call_raises_on_short_search_witness :
  ThresholdCutoff_call_body (N := example_numpy) (E := example_neo)
    {| dead_time := py_float (3 # 1000); search_range := py_float (2 # 1000);
       cutoff := 1; use_mad := true;
       tag := "spike detection"; progress_bar := false; units := "sec";
       return_neotype := false |}
    {| channels := [[0; -5; -6; 0; -7; 0]%Q];
       timestamps := [10; 11; 12; 13; 14; 15]%Q; rate := 100 |} = None.
Proof.
  apply (@call_raises_on_short_search example_numpy example_neo _ _ [0; -5; -6; 0; -7; 0]%Q).
  - vm_compute. reflexivity.
  - left. reflexivity.
  - vm_compute. reflexivity.
  - vm_compute. discriminate.
Defined.

(** X14.  When the search range in samples, [int(search_range * fs)], is at
    least 1 and not more than the dead time in samples, [dead_time * fs]
    (both float products, as the code computes them; so it is with the
    defaults, 2 ms and 3 ms, at 30 kHz), detection followed by alignment
    reports every spike once: the aligned positions increase strictly. *)
Theorem detection_reports_each_spike_once
  (array : list Q) (fs threshold dead_time search_range : Q) (search_end : Z) :
  py_int (float_mul search_range fs) = Some search_end ->
  1 <= search_end ->
  (inject_Z search_end <= float_mul dead_time fs)%Q ->
  exists crossings spikes : list Z,
    detect_threshold_crossings array fs threshold dead_time = Some crossings
    /\ align_to_minimum array fs crossings search_range = Some spikes
    /\ StronglySorted Z.lt spikes.
Proof.
  intros Hint Hw Hd.
  destruct (@detect_then_align array fs threshold dead_time search_range search_end Hint Hw)
    as (crossings & spikes & Hdet & Hal & Hsorted & Hgaps & Hin & _ & _).
  exists crossings, spikes. split; [exact Hdet|]. split; [exact Hal|].
  eapply aligned_distinct; [exact Hin|exact Hsorted|].
  eapply Forall_impl; [|exact Hgaps].
  simpl. intros gap Hgap. rewrite Zle_Qle. eapply Qle_trans; eauto.
Qed.

(** Witness of X14: a dead time and a search range of two samples each. *)
Lemma detection_reports_each_spike_once_witness :
  exists crossings spikes : list Z,
    detect_threshold_crossings [0; -5; -6; 0; -7; 0; 0; 0; -9; -9; 0]%Q 1 (-3) 2
    = Some crossings
    /\ align_to_minimum [0; -5; -6; 0; -7; 0; 0; 0; -9; -9; 0]%Q 1 crossings 2
       = Some spikes
    /\ StronglySorted Z.lt spikes.
Proof.
  apply (@detection_reports_each_spike_once
           [0; -5; -6; 0; -7; 0; 0; 0; -9; -9; 0]%Q 1 (-3) 2 2 2).
  - vm_compute. reflexivity.
  - lia.
  - vm_compute. discriminate.
Defined.

(** ** [burst]: the bursts that are reported *)

Section BurstRowFacts.

Lemma burst_while_stopped (bs : list Z) (i m t : Z) :
  burst_while bs i m 0 t = Some t.
Proof. simp burst_while. reflexivity. Qed.

(** The inner loop from its start: the entries it walks over are ones, and
    it stops at the bound or at an entry that is not a one. *)
Lemma burst_while_run (bs : list Z) (i m q t : Z) :
  q = t + 1 ->
  0 <= i -> 1 <= m -> 0 <= t ->
  i + t + m <= Z.of_nat (List.length bs) - 1 ->
  (forall j, i + m <= j < i + m + t -> py_index bs j = Some 1) ->
  exists t' : Z,
    burst_while bs i m q t = Some t'
    /\ t <= t'
    /\ i + t' + m <= Z.of_nat (List.length bs) - 1
    /\ (forall j, i + m <= j < i + m + t' -> py_index bs j = Some 1)
    /\ (Z.of_nat (List.length bs) - 1 <= i + t' + m
        \/ exists v, py_index bs (i + t' + m) = Some v /\ v <> 1).
Proof.
  funelim (burst_while bs i m q t); intros Hq Hi Hm Ht Hb Hones.
  - exists t. split; [reflexivity|]. split; [lia|]. split; [exact Hb|].
    split; [exact Hones|]. left.
    pose proof e as He0. apply andb_false_iff in He0 as [He|He];
      [apply Z.ltb_ge in He|apply Z.leb_gt in He]; lia.
  - exfalso. pose proof Hcond as Hc. apply andb_prop in Hc as [Hq1 Hb1].
    apply Z.ltb_lt in Hq1. apply Z.leb_le in Hb1.
    destruct (@py_index_defined _ burst_spike (i + q + min_spikes - 1)) as [v Hv]; [lia|].
    congruence.
  - pose proof Hcond as Hc. apply andb_prop in Hc as [Hq1 Hb1].
    apply Z.ltb_lt in Hq1. apply Z.leb_le in Hb1.
    pose proof e as Hv. apply Z.eqb_eq in Hv.
    destruct H as (t' & Ht' & Hle & Hb' & Hones' & Hexit); try lia.
    + intros j Hj. destruct (Z.eq_dec j (i + q + min_spikes - 1)) as [->|Hne].
      * rewrite Heq, Hv. reflexivity.
      * apply Hones. lia.
    + exists t'. split; [exact Ht'|]. split; [lia|]. auto.
  - pose proof Hcond as Hc. apply andb_prop in Hc as [Hq1 Hb1].
    apply Z.ltb_lt in Hq1. apply Z.leb_le in Hb1.
    pose proof e as Hv. apply Z.eqb_neq in Hv.
    exists t. rewrite burst_while_stopped.
    split; [reflexivity|]. split; [lia|]. split; [exact Hb|].
    split; [exact Hones|]. right. exists v. split; [|exact Hv].
    replace (i + t + min_spikes) with (i + q + min_spikes - 1) by lia. exact Heq.
Qed.

Lemma nth_error_enumerate_from {A : Type} (l : list A) :
  forall (a k : nat),
    nth_error (combine (seq a (List.length l)) l) k
    = option_map (fun x => ((a + k)%nat, x)) (nth_error l k).
Proof.
  induction l as [|x l IH]; intros a k; simpl.
  - destruct k; reflexivity.
  - destruct k as [|k]; simpl.
    + rewrite Nat.add_0_r. reflexivity.
    + rewrite IH. rewrite Nat.add_succ_r. reflexivity.
Qed.

Lemma py_index_None_iff {A : Type} (l : list A) (i : Z) :
  py_index l i = None
  <-> (i < - Z.of_nat (List.length l) \/ Z.of_nat (List.length l) <= i).
Proof.
  unfold py_index. cbv zeta.
  destruct (Z.leb_spec 0 i) as [H0|H0]; destruct (Z.ltb_spec i (Z.of_nat (List.length l)))
    as [H1|H1]; simpl.
  - rewrite nth_error_None. lia.
  - replace (i <? 0) with false by (symmetry; apply Z.ltb_ge; lia). simpl.
    split; [intros _; lia|reflexivity].
  - replace (i <? 0) with true by (symmetry; apply Z.ltb_lt; lia).
    destruct (Z.leb_spec (- Z.of_nat (List.length l)) i) as [H2|H2]; simpl.
    + rewrite nth_error_None. lia.
    + split; [intros _; lia|reflexivity].
  - lia.
Qed.

(** Reading an array after [a[lo:hi] = v], at a non-negative index. *)
Lemma np_slice_fill_index {A : Type} (l : list A) (lo hi j : Z) (v : A) :
  0 <= lo -> lo <= hi -> hi <= Z.of_nat (List.length l) -> 0 <= j ->
  py_index (np_slice_fill l lo hi v) j
  = match py_index l j with
    | Some x => Some (if (lo <=? j) && (j <? hi) then v else x)
    | None => None
    end.
Proof.
  intros Hlo Hlh Hhi Hj.
  destruct (Z_lt_ge_dec j (Z.of_nat (List.length l))) as [Hin|Hout].
  - rewrite !py_index_nth by (rewrite ?np_slice_fill_length; lia).
    unfold np_slice_fill, py_enumerate, py_clip. cbv zeta.
    replace (lo <? 0) with false by (symmetry; apply Z.ltb_ge; lia).
    replace (hi <? 0) with false by (symmetry; apply Z.ltb_ge; lia).
    rewrite nth_error_map, nth_error_enumerate_from.
    destruct (nth_error l (Z.to_nat j)) as [x|]; [|reflexivity].
    simpl. rewrite Z2Nat.id by lia.
    rewrite !Z.min_l by lia. reflexivity.
  - assert (H1 : py_index (np_slice_fill l lo hi v) j = None)
      by (apply py_index_None_iff; rewrite np_slice_fill_length; lia).
    assert (H2 : py_index l j = None) by (apply py_index_None_iff; lia).
    rewrite H1, H2. reflexivity.
Qed.

Lemma np_sum_01_bounds (l : list Z) :
  Forall (fun x => x = 0 \/ x = 1) l -> 0 <= np_sum l <= Z.of_nat (List.length l).
Proof.
  induction 1 as [|x l Hx _ IH]; [unfold np_sum; simpl; lia|].
  rewrite np_sum_cons. cbn [List.length]. lia.
Qed.

(** An array of zeros and ones that sums to its length holds ones only. *)
Lemma np_sum_01_full (l : list Z) :
  Forall (fun x => x = 0 \/ x = 1) l ->
  np_sum l = Z.of_nat (List.length l) ->
  Forall (fun x => x = 1) l.
Proof.
  induction 1 as [|x l Hx Hl IH]; intros Hsum; [constructor|].
  rewrite np_sum_cons in Hsum. cbn [List.length] in Hsum.
  pose proof (np_sum_01_bounds Hl) as Hb.
  constructor; [lia|]. apply IH. lia.
Qed.

Lemma py_slice_In {A : Type} (l : list A) (lo hi : Z) (x : A) :
  In x (py_slice l lo hi) -> In x l.
Proof.
  unfold py_slice. cbv zeta.
  set (k := Z.to_nat (py_clip (Z.of_nat (List.length l)) lo)).
  set (n := Z.to_nat (py_clip (Z.of_nat (List.length l)) hi
                      - py_clip (Z.of_nat (List.length l)) lo)).
  intros H.
  rewrite <- (firstn_skipn k l). apply in_or_app. right.
  rewrite <- (firstn_skipn n (skipn k l)). apply in_or_app. left. exact H.
Qed.

Variables (isi : list Q) (min_isi : Q) (min_len : Z).

Hypothesis min_len_positive : 1 <= min_len.

(** When the test of the loop succeeds on an array of zeros and ones, the
    whole window holds ones. *)
Lemma window_all_ones (bs : list Z) (i : Z) :
  (forall (j x : Z), py_index bs j = Some x -> 0 <= j -> x = 0 \/ x = 1) ->
  0 <= i -> i + min_len <= Z.of_nat (List.length bs) ->
  np_sum (py_slice bs i (i + min_len)) = min_len ->
  forall j : Z, i <= j < i + min_len -> py_index bs j = Some 1.
Proof.
  intros H01 Hi Hn Hsum j Hj.
  assert (Hlen : List.length (py_slice bs i (i + min_len)) = Z.to_nat (i + min_len - i))
    by (apply py_slice_length; lia).
  assert (Hall : Forall (fun x => x = 1) (py_slice bs i (i + min_len))).
  { apply np_sum_01_full.
    - apply Forall_forall. intros x Hx. apply py_slice_In in Hx.
      apply In_nth_error in Hx as [k Hk].
      assert (Hk' : (k < List.length bs)%nat) by (apply nth_error_Some; congruence).
      apply (H01 (Z.of_nat k) x); [|lia].
      rewrite py_index_nth by lia. rewrite Nat2Z.id. exact Hk.
    - rewrite Hlen. lia. }
  rewrite py_index_nth by lia.
  pose proof (@py_slice_nth _ bs i (i + min_len) (Z.to_nat (j - i))) as Hnth.
  replace (Z.to_nat i + Z.to_nat (j - i))%nat with (Z.to_nat j) in Hnth by lia.
  rewrite <- Hnth by lia.
  destruct (nth_error (py_slice bs i (i + min_len)) (Z.to_nat (j - i))) as [x|] eqn:E.
  - rewrite Forall_forall in Hall. rewrite (Hall x (nth_error_In _ _ E)). reflexivity.
  - apply nth_error_None in E. lia.
Qed.

Lemma rows_separated_snoc (rows : list (Z * Z)) (row : Z * Z) :
  rows_separated rows ->
  Forall (fun r : Z * Z => fst r + snd r < fst row) rows ->
  rows_separated (rows ++ [row]).
Proof.
  unfold rows_separated. intros Hs Hall.
  induction Hs as [|r rows Hs IH Hr]; simpl.
  - constructor; constructor.
  - inversion Hall as [|? ? Hr0 Hall']; subst.
    constructor; [exact (IH Hall')|].
    apply Forall_app. split; [exact Hr|]. constructor; [exact Hr0|constructor].
Qed.

(** One round of the loop keeps [burst_inv_rows]. *)
Lemma burst_step_rows (bs : list Z) (burst : list (Z * Z)) (i : Z) :
  burst_inv_rows isi min_isi min_len i bs burst ->
  0 <= i <= Z.of_nat (List.length isi) - min_len - 1 ->
  exists (bs' : list Z) (burst' : list (Z * Z)),
    burst_step min_len (bs, burst) i = Some (bs', burst')
    /\ burst_inv_rows isi min_isi min_len (i + 1) bs' burst'.
Proof.
  intros (Hlen & H01 & Hok & Hsep & Hzero & Hsame & Hends) Hi. unfold burst_step.
  assert (H01' : forall j x : Z, py_index bs j = Some x -> 0 <= j -> x = 0 \/ x = 1).
  { intros j x Hx Hj. destruct (H01 j x Hx Hj) as [H|[H _]]; auto. }
  destruct (np_sum (py_slice bs i (i + min_len)) =? min_len) eqn:Htest.
  - apply Z.eqb_eq in Htest.
    pose proof (@window_all_ones bs i H01' (proj1 Hi) ltac:(lia) Htest) as Hwin.
    destruct (@burst_while_run bs i min_len 1 0) as (t & Ht & Ht0 & Htb & Hext & Hexit);
      try lia.
    rewrite Ht. eexists _, _. split; [reflexivity|].
    assert (Hones : forall j, i <= j < i + (t + min_len) -> py_index bs j = Some 1).
    { intros j Hj. destruct (Z_lt_ge_dec j (i + min_len)); [apply Hwin|apply Hext]; lia. }
    assert (Hfill : forall j, 0 <= j ->
               py_index (np_slice_fill bs i (i + t + min_len) 0) j
               = match py_index bs j with
                 | Some x => Some (if (i <=? j) && (j <? i + t + min_len) then 0 else x)
                 | None => None
                 end).
    { intros j Hj. apply np_slice_fill_index; lia. }
    assert (Hbefore : Forall (fun r : Z * Z => fst r + snd r < i) burst).
    { rewrite Forall_forall in *. intros r Hr.
      destruct (Hzero r Hr) as [Hlt Hz].
      destruct (Z_lt_ge_dec (fst r + snd r) i) as [Hfar|Hnear]; [exact Hfar|exfalso].
      specialize (Hz i ltac:(lia) ltac:(lia)).
      rewrite (Hones i ltac:(lia)) in Hz. discriminate Hz. }
    split; [rewrite np_slice_fill_length; exact Hlen|].
    split; [|split; [|split; [|split; [|split]]]].
    + intros j x Hx Hj. rewrite (Hfill j Hj) in Hx.
      destruct (py_index bs j) as [x0|] eqn:E; [|discriminate Hx].
      injection Hx as <-.
      destruct ((i <=? j) && (j <? i + t + min_len)); [left; reflexivity|].
      exact (H01 j x0 E Hj).
    + apply Forall_app. split; [exact Hok|]. constructor; [|constructor].
      unfold row_ok. simpl. split; [lia|]. split; [lia|]. split; [lia|].
      intros j Hj. destruct (H01 j 1 (Hones j Hj) ltac:(lia)) as [H|[_ H]]; [lia|exact H].
    + apply rows_separated_snoc; [exact Hsep|exact Hbefore].
    + apply Forall_app. split.
      * rewrite Forall_forall in *. intros r Hr.
        destruct (Hzero r Hr) as [Hlt Hz]. destruct (Hok r Hr) as (Hr0 & _).
        split; [lia|]. intros j Hj Hjb. rewrite (Hfill j ltac:(lia)).
        rewrite (Hz j Hj Hjb). destruct ((i <=? j) && (j <? i + t + min_len)); reflexivity.
      * constructor; [|constructor]. simpl. split; [lia|].
        intros j Hj Hjb. rewrite (Hfill j ltac:(lia)).
        destruct (Z_lt_ge_dec j (i + t + min_len)) as [Hin|Hout].
        -- rewrite (Hones j ltac:(lia)).
           replace ((i <=? j) && (j <? i + t + min_len)) with true; [reflexivity|].
           symmetry. apply andb_true_intro. split; [apply Z.leb_le|apply Z.ltb_lt]; lia.
        -- assert (Hj' : j = i + t + min_len) by lia. subst j.
           destruct Hexit as [Hbound|(v & Hv & Hv1)]; [lia|].
           rewrite Hv.
           replace ((i <=? i + t + min_len) && (i + t + min_len <? i + t + min_len))
             with false.
           ++ destruct (H01' _ _ Hv ltac:(lia)) as [-> | ->]; [reflexivity|congruence].
           ++ symmetry. apply andb_false_iff. right. apply Z.ltb_ge. lia.
    + intros j Hj Hall. apply Forall_app in Hall as [Hold Hnew].
      inversion Hnew as [|? ? Hj' _]; subst. simpl in Hj'.
      rewrite (Hfill j Hj), (Hsame j Hj Hold).
      destruct (py_index (map (fun x => if Qle_bool x min_isi then 1 else 0) isi) j);
        [|reflexivity].
      replace ((i <=? j) && (j <? i + t + min_len)) with false; [reflexivity|].
      symmetry. apply andb_false_iff. right. apply Z.ltb_ge. lia.
    + apply Forall_app. split; [exact Hends|]. constructor; [|constructor].
      unfold row_ends. simpl.
      destruct Hexit as [Hbound|(v & Hv & Hv1)]; [left; lia|right].
      rewrite Hsame in Hv.
      2: lia.
      2:{ eapply Forall_impl; [|exact Hbefore]. simpl. intros r Hr. lia. }
      destruct (Z_lt_ge_dec (i + t + min_len) (Z.of_nat (List.length isi))) as [Hin|Hout].
      * rewrite py_index_nth in Hv by (rewrite length_map; lia).
        rewrite nth_error_map in Hv.
        destruct (nth_error isi (Z.to_nat (i + t + min_len))) as [x|] eqn:E;
          [|discriminate Hv].
        simpl in Hv. injection Hv as <-.
        exists x. rewrite py_index_nth by lia.
        replace (i + (t + min_len)) with (i + t + min_len) by lia.
        split; [exact E|].
        destruct (Qle_bool x min_isi); [congruence|reflexivity].
      * assert (Hnone : py_index (map (fun x => if Qle_bool x min_isi then 1 else 0) isi)
                          (i + t + min_len) = None)
          by (apply py_index_None_iff; rewrite length_map; lia).
        congruence.
  - eexists _, _. split; [reflexivity|].
    split; [exact Hlen|]. split; [exact H01|]. split; [exact Hok|]. split; [exact Hsep|].
    split; [|split; [exact Hsame|exact Hends]].
    eapply Forall_impl; [|exact Hzero]. simpl. intros r [Hlt Hz]. split; [lia|exact Hz].
Qed.

(** The whole loop keeps it, over the window starts in increasing order. *)
Lemma burst_for_rows (len : nat) :
  forall (a : nat) (bs : list Z) (burst : list (Z * Z)),
    burst_inv_rows isi min_isi min_len (Z.of_nat a) bs burst ->
    Forall (fun i => 0 <= i <= Z.of_nat (List.length isi) - min_len - 1)
      (map Z.of_nat (seq a len)) ->
    exists (bs' : list Z) (burst' : list (Z * Z)),
      burst_for min_len (map Z.of_nat (seq a len)) (bs, burst) = Some (bs', burst')
      /\ burst_inv_rows isi min_isi min_len (Z.of_nat (a + len)) bs' burst'.
Proof.
  induction len as [|len IH]; intros a bs burst Hinv Hrange.
  - exists bs, burst. rewrite Nat.add_0_r. split; [reflexivity|exact Hinv].
  - simpl in Hrange. inversion Hrange as [|? ? Ha Hrest]; subst.
    destruct (burst_step_rows Hinv Ha) as (bs1 & b1 & Hstep & Hinv1).
    replace (Z.of_nat a + 1) with (Z.of_nat (S a)) in Hinv1 by lia.
    destruct (IH (S a) bs1 b1 Hinv1 Hrest) as (bs2 & b2 & Hfor & Hinv2).
    exists bs2, b2. simpl seq. cbn [map burst_for]. rewrite Hstep.
    split; [exact Hfor|].
    replace (a + S len)%nat with (S a + len)%nat by lia. exact Hinv2.
Qed.

End BurstRowFacts.

Section BurstResultFacts.

Variables (min_isi : Q) (min_len : Z).

Hypothesis min_len_positive : 1 <= min_len.

(** The rows that the loop records. *)
Lemma burst_rows_spec (magnitude : list Q) :
  exists rows : list (Z * Z),
    burst_rows magnitude min_isi min_len = Some rows
    /\ Forall (row_ok (np_diff_Q magnitude) min_isi min_len) rows
    /\ rows_separated rows
    /\ Forall (row_ends (np_diff_Q magnitude) min_isi) rows.
Proof.
  unfold burst_rows. cbv zeta. rewrite length_map.
  set (isi := np_diff_Q magnitude).
  destruct (@burst_for_rows isi min_isi min_len min_len_positive
              (Z.to_nat (Z.of_nat (List.length isi) - min_len)) 0%nat
              (map (fun x => if Qle_bool x min_isi then 1 else 0) isi) [])
    as (bs' & rows & Hfor & (_ & _ & Hok & Hsep & _ & _ & Hends)).
  - split; [apply length_map|].
    split; [|split; [constructor|split; [constructor|split; [constructor|split;
      [reflexivity|constructor]]]]].
    intros j x Hx Hj.
    destruct (Z_lt_ge_dec j (Z.of_nat (List.length isi))) as [Hin|Hout].
    + rewrite py_index_nth in Hx by (rewrite length_map; lia).
      rewrite nth_error_map in Hx.
      destruct (nth_error isi (Z.to_nat j)) as [v|] eqn:E; [|discriminate Hx].
      simpl in Hx. injection Hx as <-.
      destruct (Qle_bool v min_isi) eqn:Hv; [right|left; reflexivity].
      split; [reflexivity|]. exists v. rewrite py_index_nth by lia. auto.
    + assert (Hnone : py_index (map (fun x => if Qle_bool x min_isi then 1 else 0) isi) j
                      = None)
        by (apply py_index_None_iff; rewrite length_map; lia).
      congruence.
  - apply (np_arange_bounds (Z.of_nat (List.length isi) - min_len)).
  - exists rows. unfold np_arange. rewrite Hfor. auto.
Qed.

Lemma burst_unfold (spiketrains : list (list Q)) (channel : Z) :
  burst spiketrains channel min_isi min_len
  = match py_index spiketrains channel with
    | None => None
    | Some magnitude =>
        match burst_rows magnitude min_isi min_len with
        | None => None
        | Some rows =>
            if np_sum (map (fun row : Z * Z => fst row + snd row) rows) =? 0 then
              Some (BurstScalars 0 0 0 0)
            else
              match map_opt (fun row : Z * Z => py_index magnitude (fst row)) rows,
                    map_opt (fun row : Z * Z => py_index magnitude (fst row + snd row)) rows
              with
              | Some start_time, Some end_time =>
                  Some (BurstArrays start_time
                          (map (fun se : Q * Q => float_sub (snd se) (fst se))
                             (combine start_time end_time))
                          (map (fun row : Z * Z => snd row + 1) rows)
                          (map (fun ld : Z * Q =>
                                  if Qeq_bool (snd ld) 0 then None
                                  else Some (float_div (inject_Z (fst ld)) (snd ld)))
                             (combine (map (fun row : Z * Z => snd row + 1) rows)
                                (map (fun se : Q * Q => float_sub (snd se) (fst se))
                                   (combine start_time end_time)))))
              | _, _ => None
              end
        end
    end.
Proof.
  unfold burst, burst_rows. destruct (py_index spiketrains channel); [|reflexivity].
  cbv zeta. destruct (burst_for _ _ _) as [[bs rows]|]; reflexivity.
Qed.

Lemma map_opt_map {A B : Type} (f : A -> option B) (g : A -> B) (l : list A) :
  Forall (fun x => f x = Some (g x)) l -> map_opt f l = Some (map g l).
Proof.
  induction 1 as [|x l Hx _ IH]; simpl; [reflexivity|].
  rewrite Hx, IH. reflexivity.
Qed.

Lemma combine_map_map {A B C : Type} (f : A -> B) (g : A -> C) (l : list A) :
  combine (map f l) (map g l) = map (fun x => (f x, g x)) l.
Proof. induction l as [|x l IH]; simpl; [|rewrite IH]; reflexivity. Qed.

Lemma py_index_spike_at (spike : list Q) (i : Z) :
  0 <= i < Z.of_nat (List.length spike) ->
  py_index spike i = Some (spike_at spike i).
Proof.
  intros Hi. rewrite py_index_nth by exact Hi. unfold spike_at.
  apply nth_error_nth'. lia.
Qed.

(** The result of [burst] read off the rows. *)
Lemma burst_result_of_rows (spiketrains : list (list Q)) (channel : Z)
  (magnitude : list Q) :
  py_index spiketrains channel = Some magnitude ->
  exists rows : list (Z * Z),
    burst_rows magnitude min_isi min_len = Some rows
    /\ Forall (row_ok (np_diff_Q magnitude) min_isi min_len) rows
    /\ rows_separated rows
    /\ Forall (row_ends (np_diff_Q magnitude) min_isi) rows
    /\ burst spiketrains channel min_isi min_len
       = match rows with
         | [] => Some (BurstScalars 0 0 0 0)
         | _ :: _ => Some (arrays_of_rows magnitude rows)
         end.
Proof.
  intros Hch. destruct (burst_rows_spec magnitude) as (rows & Hrows & Hok & Hsep & Hends).
  exists rows. split; [exact Hrows|]. split; [exact Hok|]. split; [exact Hsep|].
  split; [exact Hends|].
  rewrite burst_unfold, Hch, Hrows.
  destruct rows as [|row rows]; [reflexivity|].
  assert (Hpos : 0 < np_sum (map (fun r : Z * Z => fst r + snd r) (row :: rows))).
  { apply (@np_sum_rows_positive min_len min_len_positive); [discriminate|].
    eapply Forall_impl; [|exact Hok]. simpl. unfold row_ok. tauto. }
  replace (np_sum (map (fun r : Z * Z => fst r + snd r) (row :: rows)) =? 0)
    with false by (symmetry; apply Z.eqb_neq; lia).
  assert (Hlen : (List.length (np_diff_Q magnitude) <= List.length magnitude)%nat)
    by (rewrite np_diff_Q_length; lia).
  rewrite (@map_opt_map _ _ (fun r : Z * Z => py_index magnitude (fst r))
             (fun r : Z * Z => spike_at magnitude (fst r))).
  2:{ eapply Forall_impl; [|exact Hok]. simpl. intros r (H0 & H1 & H2 & _).
      apply py_index_spike_at. lia. }
  rewrite (@map_opt_map _ _ (fun r : Z * Z => py_index magnitude (fst r + snd r))
             (fun r : Z * Z => spike_at magnitude (fst r + snd r))).
  2:{ eapply Forall_impl; [|exact Hok]. simpl. intros r (H0 & H1 & H2 & _).
      apply py_index_spike_at. lia. }
  unfold arrays_of_rows, row_duration.
  rewrite combine_map_map, map_map, combine_map_map, map_map. reflexivity.
Qed.

Lemma np_diff_Q_nth (a : list Q) :
  forall (j : nat) (x : Q),
    nth_error (np_diff_Q a) j = Some x ->
    exists u v : Q,
      nth_error a j = Some u /\ nth_error a (S j) = Some v /\ x = float_sub v u.
Proof.
  induction a as [|u a IH]; intros j x Hj; [destruct j; discriminate Hj|].
  destruct a as [|v a]; [destruct j; discriminate Hj|].
  change (np_diff_Q (u :: v :: a)) with (float_sub v u :: np_diff_Q (v :: a)) in Hj.
  destruct j as [|j].
  - injection Hj as <-. exists u, v. repeat split; reflexivity.
  - simpl in Hj. destruct (IH _ _ Hj) as (u' & v' & Hu & Hv & Hx).
    exists u', v'. repeat split; assumption.
Qed.

(** The inter-spike interval at index [j] is the float difference of the
    spikes at [j + 1] and [j]. *)
Lemma isi_spike_at (magnitude : list Q) (j : Z) (x : Q) :
  0 <= j ->
  py_index (np_diff_Q magnitude) j = Some x ->
  x = float_sub (spike_at magnitude (j + 1)) (spike_at magnitude j).
Proof.
  intros Hj Hx.
  assert (Hin : j < Z.of_nat (List.length (np_diff_Q magnitude))).
  { destruct (Z_lt_ge_dec j (Z.of_nat (List.length (np_diff_Q magnitude)))) as [H|H];
      [exact H|].
    assert (Hnone : py_index (np_diff_Q magnitude) j = None)
      by (apply py_index_None_iff; lia).
    congruence. }
  rewrite py_index_nth in Hx by lia.
  destruct (np_diff_Q_nth _ _ Hx) as (u & v & Hu & Hv & ->).
  unfold spike_at.
  replace (Z.to_nat (j + 1)) with (S (Z.to_nat j)) by lia.
  rewrite (nth_error_nth _ _ 0%Q Hu), (nth_error_nth _ _ 0%Q Hv). reflexivity.
Qed.

(** In a strictly increasing train a later spike has a later time. *)
Lemma sorted_spike_at (magnitude : list Q) :
  StronglySorted Qlt magnitude ->
  forall i j : Z,
    0 <= i -> i < j -> j < Z.of_nat (List.length magnitude) ->
    (spike_at magnitude i < spike_at magnitude j)%Q.
Proof.
  unfold spike_at. intros Hs.
  assert (Hnat : forall a b : nat,
             (a < b)%nat -> (b < List.length magnitude)%nat ->
             (nth a magnitude 0 < nth b magnitude 0)%Q).
  { induction Hs as [|x l Hs IH Hall]; intros a b Hab Hb; [simpl in Hb; lia|].
    destruct b as [|b]; [lia|]. simpl in Hb.
    destruct a as [|a]; simpl.
    - rewrite Forall_forall in Hall. apply Hall. apply nth_In. lia.
    - apply IH; lia. }
  intros i j Hi Hij Hj. apply Hnat; lia.
Qed.

Lemma Forall2_map_map {A B C : Type} (R : B -> C -> Prop) (f : A -> B) (g : A -> C)
  (l : list A) :
  Forall (fun x => R (f x) (g x)) l -> Forall2 R (map f l) (map g l).
Proof. induction 1; simpl; constructor; assumption. Qed.

Lemma spike_at_float (magnitude : list Q) (i : Z) :
  Forall is_float64 magnitude ->
  0 <= i < Z.of_nat (List.length magnitude) ->
  is_float64 (spike_at magnitude i).
Proof.
  intros Hf Hi. rewrite Forall_forall in Hf. apply Hf.
  unfold spike_at. apply nth_In. lia.
Qed.

(** The exact time between two spikes of a strictly increasing train of
    floats is a positive multiple of [2^-1074]. *)
Lemma spike_distance (magnitude : list Q) (i j : Z) :
  StronglySorted Qlt magnitude ->
  Forall is_float64 magnitude ->
  0 <= i -> i < j -> j < Z.of_nat (List.length magnitude) ->
  (0 < spike_at magnitude j - spike_at magnitude i)%Q
  /\ (exists z : Z,
        spike_at magnitude j - spike_at magnitude i == inject_Z z * 2 ^ (-1074))%Q.
Proof.
  intros Hs Hf Hi Hij Hj.
  pose proof (@sorted_spike_at magnitude Hs i j Hi Hij Hj) as Hlt.
  pose proof (@spike_at_float magnitude i Hf ltac:(lia)) as Hfi.
  pose proof (@spike_at_float magnitude j Hf ltac:(lia)) as Hfj.
  split; [lra|].
  apply grid_sub; apply is_float64_grid; assumption.
Qed.

(** In a strictly increasing train of floats every burst has a positive
    duration. *)
Lemma row_duration_positive (magnitude : list Q) (row : Z * Z) :
  StronglySorted Qlt magnitude ->
  Forall is_float64 magnitude ->
  row_ok (np_diff_Q magnitude) min_isi min_len row ->
  (0 < row_duration magnitude row)%Q.
Proof.
  intros Hs Hf (H0 & H1 & H2 & _).
  assert (Hlen : (List.length (np_diff_Q magnitude) <= List.length magnitude)%nat)
    by (rewrite np_diff_Q_length; lia).
  destruct (@spike_distance magnitude (fst row) (fst row + snd row) Hs Hf)
    as (Hpos & [z Hz]); try lia.
  unfold row_duration, float_sub. apply round_float64_positive.
  exact (grid_positive _ z Hz Hpos).
Qed.

(** When the duration has not overflowed, the rate, a count of at least one
    divided by it, does not round to zero. *)
Lemma row_rate_positive (magnitude : list Q) (row : Z * Z) :
  StronglySorted Qlt magnitude ->
  Forall is_float64 magnitude ->
  row_ok (np_diff_Q magnitude) min_isi min_len row ->
  float_overflow (row_duration magnitude row) = false ->
  (0 < float_div (inject_Z (snd row + 1)) (row_duration magnitude row))%Q.
Proof.
  intros Hs Hf Hrow Hfin.
  pose proof (row_duration_positive Hs Hf Hrow) as Hpos.
  destruct Hrow as (H0 & H1 & H2 & _).
  assert (Hdur : (row_duration magnitude row <= 2 ^ 1024)%Q).
  { unfold float_overflow in Hfin. apply Qle_bool_false_lt in Hfin.
    pose proof (Qle_Qabs (row_duration magnitude row)). lra. }
  unfold float_div. apply round_float64_positive.
  apply Qle_shift_div_l; [exact Hpos|].
  apply Qle_trans with (2 ^ (-1074) * 2 ^ 1024)%Q.
  - apply Qmult_le_l; [apply pow2_pos|exact Hdur].
  - rewrite <- pow2_plus.
    apply Qle_trans with 1%Q.
    + change 1%Q with (2 ^ 0)%Q. apply pow2_le. lia.
    + change 1%Q with (inject_Z 1). rewrite <- Zle_Qle. lia.
Qed.

(** Between the first spike of a burst and a spike [k] short intervals later
    lie less than [k] times any interval that the code found long. *)
Lemma burst_span (magnitude : list Q) (i : Z) (y : Q) (k : nat) :
  0 <= i ->
  (min_isi < round_float64 y)%Q ->
  (forall j : Z,
     i <= j < i + Z.of_nat (S k) ->
     exists x : Q, py_index (np_diff_Q magnitude) j = Some x /\ Qle_bool x min_isi = true) ->
  (spike_at magnitude (i + Z.of_nat (S k)) - spike_at magnitude i
   < inject_Z (Z.of_nat (S k)) * y)%Q.
Proof.
  intros Hi Hy.
  assert (Hstep : forall j : Z,
             0 <= j ->
             (exists x : Q,
                py_index (np_diff_Q magnitude) j = Some x /\ Qle_bool x min_isi = true) ->
             (spike_at magnitude (j + 1) - spike_at magnitude j < y)%Q).
  { intros j Hj (x & Hx & Hle). apply Qle_bool_iff in Hle.
    rewrite (isi_spike_at magnitude Hj Hx) in Hle. unfold float_sub in Hle.
    apply Qnot_le_lt. intros Hge.
    apply round_float64_monotone in Hge. lra. }
  induction k as [|k IH]; intros Hshort.
  - change (Z.of_nat 1) with 1. change (inject_Z 1) with 1%Q.
    pose proof (Hstep i Hi (Hshort i ltac:(lia))). lra.
  - assert (IH' : (spike_at magnitude (i + Z.of_nat (S k)) - spike_at magnitude i
                   < inject_Z (Z.of_nat (S k)) * y)%Q).
    { apply IH. intros j Hj. apply Hshort. lia. }
    pose proof (Hstep (i + Z.of_nat (S k)) ltac:(lia)
                  (Hshort (i + Z.of_nat (S k)) ltac:(lia))) as Hlast.
    replace (i + Z.of_nat (S (S k))) with (i + Z.of_nat (S k) + 1) by lia.
    replace (Z.of_nat (S (S k))) with (Z.of_nat (S k) + 1) by lia.
    rewrite inject_Z_plus. change (inject_Z 1) with 1%Q. lra.
Qed.

(** A burst is over, its rounded duration included, before the spike that
    closes the long interval after it. *)
Lemma row_ends_before (magnitude : list Q) (row : Z * Z) (x : Q) :
  StronglySorted Qlt magnitude ->
  Forall is_float64 magnitude ->
  Z.of_nat (List.length magnitude) <= 2 ^ 53 ->
  row_ok (np_diff_Q magnitude) min_isi min_len row ->
  py_index (np_diff_Q magnitude) (fst row + snd row) = Some x ->
  Qle_bool x min_isi = false ->
  (spike_at magnitude (fst row) + row_duration magnitude row
   < spike_at magnitude (fst row + snd row + 1))%Q.
Proof.
  intros Hs Hf Hsize (H0 & H1 & H2 & Hshort) Hx Hlong.
  pose proof (np_diff_Q_length magnitude) as Hlen.
  assert (Hin : fst row + snd row < Z.of_nat (List.length (np_diff_Q magnitude))).
  { destruct (Z_lt_ge_dec (fst row + snd row)
                (Z.of_nat (List.length (np_diff_Q magnitude)))) as [H|H]; [exact H|].
    assert (Hnone : py_index (np_diff_Q magnitude) (fst row + snd row) = None)
      by (apply py_index_None_iff; lia).
    congruence. }
  set (i := fst row) in *. set (n := snd row) in *.
  set (y := (spike_at magnitude (i + n + 1) - spike_at magnitude (i + n))%Q).
  assert (Hy : (min_isi < round_float64 y)%Q).
  { rewrite (@isi_spike_at magnitude (i + n) x ltac:(lia) Hx) in Hlong.
    unfold float_sub in Hlong.
    apply Qnot_le_lt. intros Hle. apply Qle_bool_iff in Hle.
    unfold y in Hle. rewrite Hle in Hlong. discriminate Hlong. }
  destruct (@spike_distance magnitude i (i + n) Hs Hf) as (Hpos & [z Hz]); try lia.
  assert (Hspan : (spike_at magnitude (i + n) - spike_at magnitude i < inject_Z n * y)%Q).
  { pose proof (@burst_span magnitude i y (Z.to_nat (n - 1)) H0 Hy) as Hb.
    replace (Z.of_nat (S (Z.to_nat (n - 1)))) with n in Hb by lia.
    apply Hb. intros j Hj. apply Hshort. lia. }
  pose proof (round_float64_error _ z Hz Hpos) as Herr.
  assert (Hc : (2 ^ (-53) == 1 # 9007199254740992)%Q) by reflexivity.
  rewrite Hc in Herr.
  assert (Hypos : (0 < y)%Q).
  { subst y. pose proof (@sorted_spike_at magnitude Hs (i + n) (i + n + 1)) as Hlt.
    specialize (Hlt ltac:(lia) ltac:(lia) ltac:(lia)). lra. }
  assert (Hn : (inject_Z n * y <= 9007199254740992 * y)%Q).
  { apply Qmult_le_compat_r; [|lra].
    change 9007199254740992%Q with (inject_Z (2 ^ 53)). rewrite <- Zle_Qle. lia. }
  unfold row_duration, float_sub. fold i n. subst y. lra.
Qed.

End BurstResultFacts.

(** X15 is the lemma [burst_characterised] above; this is its witness: the
    first of the two intervals of three close spikes is a window that the
    loop tests. *)
Lemma burst_characterised_witness :
  if has_tested_window (np_diff_Q [0; 1 # 100; 2 # 100]%Q) (1 # 10) 1
  then exists (start_time burst_duration : list Q) (burst_len : list Z)
              (burst_rate : list (option Q)),
         burst [[0; 1 # 100; 2 # 100]%Q] 0 (1 # 10) 1
         = Some (BurstArrays start_time burst_duration burst_len burst_rate)
         /\ Forall (fun len => 1 + 1 <= len) burst_len
  else burst [[0; 1 # 100; 2 # 100]%Q] 0 (1 # 10) 1 = Some (BurstScalars 0 0 0 0).
Proof.
  apply (@burst_characterised [[0; 1 # 100; 2 # 100]%Q] 0 (1 # 10) 1
           [0; 1 # 100; 2 # 100]%Q); [reflexivity|lia].
Defined.

(** X16.  For [min_len >= 1], [burst] raises exactly when [channel] is not an
    index of [spiketrains] (an [IndexError]); the loops themselves never
    raise. *)
Theorem burst_raises_only_on_bad_channel
  (spiketrains : list (list Q)) (channel : Z) (min_isi : Q) (min_len : Z) :
  1 <= min_len ->
  burst spiketrains channel min_isi min_len = None
  <-> (channel < - Z.of_nat (List.length spiketrains)
       \/ Z.of_nat (List.length spiketrains) <= channel).
Proof.
  intros Hm. rewrite <- py_index_None_iff. split.
  - intros Hb. destruct (py_index spiketrains channel) as [magnitude|] eqn:Hch;
      [|reflexivity].
    destruct (@burst_result_of_rows min_isi min_len Hm _ _ _ Hch)
      as (rows & _ & _ & _ & _ & Hr).
    rewrite Hr in Hb. destruct rows; discriminate Hb.
  - intros Hch. rewrite burst_unfold, Hch. reflexivity.
Qed.

(** Witness of X16: channel 1 of a one-channel recording. *)
Lemma burst_raises_only_on_bad_channel_witness :
  burst [[0; 1 # 100; 2 # 100]%Q] 1 (1 # 10) 1 = None
  <-> (1 < - Z.of_nat (List.length [[0; 1 # 100; 2 # 100]%Q])
       \/ Z.of_nat (List.length [[0; 1 # 100; 2 # 100]%Q]) <= 1).
Proof.
  apply (@burst_raises_only_on_bad_channel [[0; 1 # 100; 2 # 100]%Q] 1 (1 # 10) 1). lia.
Defined.

(** X17.  Every burst that [burst] reports is a run of consecutive spikes of
    the train in which every inter-spike interval, as the float subtraction
    gives it, is at most [min_isi]: the burst starts at the time of its first
    spike, counts the spikes of the run, and lasts the float difference of
    its last and its first spike. *)
Theorem burst_spikes_are_close
  (spiketrains : list (list Q)) (channel : Z) (min_isi : Q) (min_len : Z)
  (magnitude start_time burst_duration : list Q) (burst_len : list Z)
  (burst_rate : list (option Q)) :
  1 <= min_len ->
  py_index spiketrains channel = Some magnitude ->
  burst spiketrains channel min_isi min_len
  = Some (BurstArrays start_time burst_duration burst_len burst_rate) ->
  exists first : list Z,
    start_time = map (spike_at magnitude) first
    /\ burst_duration
       = map (fun il : Z * Z =>
                float_sub (spike_at magnitude (fst il + (snd il - 1)))
                  (spike_at magnitude (fst il)))
           (combine first burst_len)
    /\ Forall2 (fun i len =>
                  0 <= i /\ i + len <= Z.of_nat (List.length magnitude)
                  /\ forall j : Z,
                       i <= j < i + len - 1 ->
                       (float_sub (spike_at magnitude (j + 1)) (spike_at magnitude j)
                        <= min_isi)%Q)
         first burst_len.
Proof.
  intros Hm Hch Hb.
  destruct (@burst_result_of_rows min_isi min_len Hm _ _ _ Hch)
    as (rows & _ & Hok & _ & _ & Hr).
  rewrite Hr in Hb. destruct rows as [|row rows]; [discriminate Hb|].
  remember (row :: rows) as rs eqn:Hrs. clear Hrs Hr row rows.
  unfold arrays_of_rows in Hb. injection Hb as <- <- <- <-.
  pose proof (np_diff_Q_length magnitude) as Hlen.
  exists (map fst rs). split; [rewrite map_map; reflexivity|]. split.
  - rewrite combine_map_map, map_map. apply map_ext. intros r. simpl.
    unfold row_duration. replace (snd r + 1 - 1) with (snd r) by lia. reflexivity.
  - apply Forall2_map_map. eapply Forall_impl; [|exact Hok].
    simpl. intros r (H0 & H1 & H2 & Hshort).
    split; [exact H0|]. split; [lia|].
    intros j Hj. destruct (Hshort j ltac:(lia)) as (x & Hx & Hle).
    apply Qle_bool_iff in Hle.
    rewrite (@isi_spike_at magnitude j x ltac:(lia) Hx) in Hle. exact Hle.
Qed.

(** Witness of X17: three spikes 0.01 s apart, of which the first two are
    reported as a burst. *)
Lemma burst_spikes_are_close_witness :
  exists first : list Z,
    [0%Q] = map (spike_at (map py_float [0; 1 # 100; 2 # 100]%Q)) first
    /\ [float_sub (py_float (1 # 100)) 0]
       = map (fun il : Z * Z =>
                float_sub (spike_at (map py_float [0; 1 # 100; 2 # 100]%Q)
                             (fst il + (snd il - 1)))
                  (spike_at (map py_float [0; 1 # 100; 2 # 100]%Q) (fst il)))
           (combine first [2])
    /\ Forall2 (fun i len =>
                  0 <= i
                  /\ i + len
                     <= Z.of_nat (List.length (map py_float [0; 1 # 100; 2 # 100]%Q))
                  /\ forall j : Z,
                       i <= j < i + len - 1 ->
                       (float_sub (spike_at (map py_float [0; 1 # 100; 2 # 100]%Q) (j + 1))
                          (spike_at (map py_float [0; 1 # 100; 2 # 100]%Q) j)
                        <= py_float (1 # 10))%Q)
         first [2].
Proof.
  apply (@burst_spikes_are_close [map py_float [0; 1 # 100; 2 # 100]%Q] 0
           (py_float (1 # 10)) 1
           (map py_float [0; 1 # 100; 2 # 100]%Q)
           [0%Q] [float_sub (py_float (1 # 100)) 0] [2]
           [Some (float_div 2 (float_sub (py_float (1 # 100)) 0))]).
  - lia.
  - reflexivity.
  - vm_compute. reflexivity.
Defined.

(** X18.  For a strictly increasing spike train of floats (with at most
    [2^53] spikes, and no duration so long that it overflows) the bursts are
    reported in chronological order and do not overlap: each burst starts
    after the one before it is over, that is, after its start time plus its
    duration as the float subtraction gives it. *)
Theorem bursts_are_chronological
  (spiketrains : list (list Q)) (channel : Z) (min_isi : Q) (min_len : Z)
  (magnitude start_time burst_duration : list Q) (burst_len : list Z)
  (burst_rate : list (option Q)) :
  1 <= min_len ->
  py_index spiketrains channel = Some magnitude ->
  StronglySorted Qlt magnitude ->
  Forall is_float64 magnitude ->
  Z.of_nat (List.length magnitude) <= 2 ^ 53 ->
  burst spiketrains channel min_isi min_len
  = Some (BurstArrays start_time burst_duration burst_len burst_rate) ->
  Forall (fun d => float_overflow d = false) burst_duration ->
  chronological start_time burst_duration.
Proof.
  intros Hm Hch Hsorted Hfloat Hsize Hb _.
  destruct (@burst_result_of_rows min_isi min_len Hm _ _ _ Hch)
    as (rows & _ & Hok & Hsep & Hends & Hr).
  rewrite Hr in Hb. destruct rows as [|row rows]; [discriminate Hb|].
  remember (row :: rows) as rs eqn:Hrs. clear Hrs Hr row rows.
  unfold arrays_of_rows in Hb. injection Hb as <- <- <- <-.
  pose proof (np_diff_Q_length magnitude) as Hlen.
  rename rs into rows. unfold rows_separated in Hsep.
  induction Hsep as [|r1 rows Hs IH Hall]; [exact I|].
  inversion Hok as [|? ? Hr1 Hok']; subst.
  inversion Hends as [|? ? He1 Hends']; subst.
  destruct rows as [|r2 rows]; [exact I|].
  cbn [map chronological]. split; [|exact (IH Hok' Hends')].
  inversion Hall as [|? ? H12 _]; subst.
  inversion Hok' as [|? ? Hr2 _]; subst.
  pose proof Hr1 as (H10 & H11 & H12' & _). destruct Hr2 as (H20 & H21 & H22 & _).
  destruct He1 as [Hlast|(x & Hx & Hlong)]; [lia|].
  pose proof (@row_ends_before min_isi min_len Hm magnitude r1 x
                Hsorted Hfloat Hsize Hr1 Hx Hlong) as Hover.
  destruct (Z.eq_dec (fst r2) (fst r1 + snd r1 + 1)) as [E|E].
  - rewrite E. exact Hover.
  - pose proof (@sorted_spike_at magnitude Hsorted (fst r1 + snd r1 + 1) (fst r2)) as Hlt.
    specialize (Hlt ltac:(lia) ltac:(lia) ltac:(lia)). lra.
Qed.

(** Witness of X18: two bursts, four spikes from time 0 and three from
    time 2. *)
Lemma bursts_are_chronological_witness :
  chronological [0; 2]%Q
    [float_sub (py_float (3 # 100)) 0; float_sub (py_float (202 # 100)) 2].
Proof.
  apply (@bursts_are_chronological
           [map py_float [0; 1 # 100; 2 # 100; 3 # 100; 1; 2; 201 # 100; 202 # 100; 3]%Q] 0
           (py_float (1 # 10)) 2
           (map py_float [0; 1 # 100; 2 # 100; 3 # 100; 1; 2; 201 # 100; 202 # 100; 3]%Q)
           [0; 2]%Q
           [float_sub (py_float (3 # 100)) 0; float_sub (py_float (202 # 100)) 2] [4; 3]
           [Some (float_div 4 (float_sub (py_float (3 # 100)) 0));
            Some (float_div 3 (float_sub (py_float (202 # 100)) 2))]).
  - lia.
  - reflexivity.
  - repeat (constructor; [|repeat constructor; vm_compute; reflexivity]). constructor.
  - repeat constructor; vm_compute; reflexivity.
  - simpl. lia.
  - vm_compute. reflexivity.
  - repeat constructor; vm_compute; reflexivity.
Defined.

(** X19.  For a strictly increasing spike train of floats every burst has a
    positive duration, so that no [burst_rate] is a division by zero: each
    rate is the positive float [burst_len / burst_duration] (no duration
    being so long that it overflows). *)
Theorem burst_rates_are_defined
  (spiketrains : list (list Q)) (channel : Z) (min_isi : Q) (min_len : Z)
  (magnitude start_time burst_duration : list Q) (burst_len : list Z)
  (burst_rate : list (option Q)) :
  1 <= min_len ->
  py_index spiketrains channel = Some magnitude ->
  StronglySorted Qlt magnitude ->
  Forall is_float64 magnitude ->
  burst spiketrains channel min_isi min_len
  = Some (BurstArrays start_time burst_duration burst_len burst_rate) ->
  Forall (fun d => float_overflow d = false) burst_duration ->
  Forall (fun d => (0 < d)%Q) burst_duration
  /\ Forall (fun rate => exists q : Q, rate = Some q /\ (0 < q)%Q) burst_rate.
Proof.
  intros Hm Hch Hsorted Hfloat Hb Hfin.
  destruct (@burst_result_of_rows min_isi min_len Hm _ _ _ Hch)
    as (rows & _ & Hok & _ & _ & Hr).
  rewrite Hr in Hb. destruct rows as [|row rows]; [discriminate Hb|].
  remember (row :: rows) as rs eqn:Hrs. clear Hrs Hr row rows.
  unfold arrays_of_rows in Hb. injection Hb as <- <- <- <-.
  rewrite Forall_map in Hfin. rewrite Forall_forall in Hok, Hfin.
  split; apply Forall_map; apply Forall_forall; intros r Hin;
    pose proof (Hok r Hin) as Hrow.
  - exact (@row_duration_positive min_isi min_len Hm magnitude r Hsorted Hfloat Hrow).
  - pose proof (@row_duration_positive min_isi min_len Hm magnitude r Hsorted Hfloat Hrow)
      as Hpos.
    destruct (Qeq_bool (row_duration magnitude r) 0) eqn:Hz.
    + apply Qeq_bool_iff in Hz. rewrite Hz in Hpos. exfalso. exact (Qlt_irrefl 0 Hpos).
    + eexists. split; [reflexivity|].
      exact (@row_rate_positive min_isi min_len Hm magnitude r Hsorted Hfloat Hrow
               (Hfin r Hin)).
Qed.

(** Witness of X19. *)
Lemma burst_rates_are_defined_witness :
  Forall (fun d => (0 < d)%Q) [float_sub (py_float (1 # 100)) 0]
  /\ Forall (fun rate => exists q : Q, rate = Some q /\ (0 < q)%Q)
       [Some (float_div 2 (float_sub (py_float (1 # 100)) 0))].
Proof.
  apply (@burst_rates_are_defined [map py_float [0; 1 # 100; 2 # 100]%Q] 0
           (py_float (1 # 10)) 1
           (map py_float [0; 1 # 100; 2 # 100]%Q)
           [0%Q] [float_sub (py_float (1 # 100)) 0] [2]
           [Some (float_div 2 (float_sub (py_float (1 # 100)) 0))]).
  - lia.
  - reflexivity.
  - repeat (constructor; [|repeat constructor; vm_compute; reflexivity]). constructor.
  - repeat constructor; vm_compute; reflexivity.
  - vm_compute. reflexivity.
  - repeat constructor; vm_compute; reflexivity.
Defined.

(** ** [Pipeline.run]: what else it does and does not do *)

Section RunFacts.

Context {C : Collaborators}.

Variables (sp : py_path) (nc dr : bool).

Lemma run_loop_quiet (order : list loc) (st : store) :
  printed (trace_of (for_each order (run_node sp nc dr false) st)) = [].
Proof.
  revert st. induction order as [|node rest IH]; intros st; [reflexivity|].
  rewrite run_loop_cons. cbv zeta.
  destruct (node_run node dr sp (configured_store nc node st)) as [st' [e|]].
  - reflexivity.
  - specialize (IH st').
    destruct (for_each rest (run_node sp nc dr false) st') as [[t st''] r].
    unfold trace_of in *. simpl in *. exact IH.
Qed.

Lemma run_loop_announcements (order : list loc) (st : store) :
  printed (trace_of (for_each order (run_node sp nc dr true) st))
  = announcements st (run_events (trace_of (for_each order (run_node sp nc dr true) st))).
Proof.
  revert st. induction order as [|node rest IH]; intros st; [reflexivity|].
  rewrite run_loop_cons. cbv zeta.
  destruct (node_run node dr sp (configured_store nc node st)) as [st' [e|]] eqn:Hrun.
  - reflexivity.
  - specialize (IH st').
    destruct (for_each rest (run_node sp nc dr true) st') as [[t st''] r].
    unfold trace_of in *. cbn [fst snd app printed run_events announcements] in *.
    rewrite Hrun. cbn [fst]. rewrite IH. reflexivity.
Qed.

(** When the nodes leave the store alone, the store after the loop is the
    initial one with the policy written to the cachers of the nodes that
    ran. *)
Lemma run_loop_store (vb : bool) (order : list loc) :
  (forall n d s st, fst (node_run n d s st) = st) ->
  forall st : store,
    nodes (store_of (for_each order (run_node sp nc dr vb) st)) = nodes st
    /\ forall c : loc,
         cache_policy (cachers (store_of (for_each order (run_node sp nc dr vb) st)) c)
         = if cacher_of_some st
                (ran_nodes (trace_of (for_each order (run_node sp nc dr vb) st))) c
           then (if nc then "OFF" else "AUTO")
           else cache_policy (cachers st c).
Proof.
  intros Hpure. induction order as [|node rest IH]; intros st.
  - split; reflexivity.
  - rewrite run_loop_cons. cbv zeta.
    pose proof (Hpure node dr sp (configured_store nc node st)) as Hst.
    assert (Hpr : forall t, ran_nodes ((if vb then [EvPrint (running_line st node)] else [])
                                       ++ t) = ran_nodes t)
      by (intros t; destruct vb; reflexivity).
    assert (Hconf : forall c,
               cache_policy (cachers (configured_store nc node st) c)
               = if match node_cacher (nodes st node) with
                    | Some c' => Nat.eqb c' c
                    | None => false
                    end
                 then (if nc then "OFF" else "AUTO")
                 else cache_policy (cachers st c)).
    { intros c. rewrite configured_store_eq.
      destruct (node_cacher (nodes st node)) as [c'|]; [|reflexivity].
      simpl. rewrite (Nat.eqb_sym c' c). destruct (Nat.eqb c c'); reflexivity. }
    destruct (node_run node dr sp (configured_store nc node st)) as [st' [e|]];
      simpl in Hst; subst st'.
    + unfold store_of, trace_of. simpl. rewrite Hpr. simpl.
      split; [apply configured_store_nodes|].
      intros c. rewrite Hconf. unfold cacher_of_some. simpl.
      rewrite orb_false_r. reflexivity.
    + destruct (IH (configured_store nc node st)) as [Hn Hc].
      destruct (for_each rest (run_node sp nc dr vb) (configured_store nc node st))
        as [[t st''] r].
      unfold store_of, trace_of in *. simpl in *. rewrite Hpr. simpl.
      split; [rewrite Hn; apply configured_store_nodes|].
      intros c. rewrite Hc. unfold cacher_of_some. simpl.
      rewrite configured_store_nodes, Hconf.
      destruct (match node_cacher (nodes st node) with
                | Some c' => Nat.eqb c' c
                | None => false
                end); destruct (existsb _ (ran_nodes t)); reflexivity.
Qed.

End RunFacts.

(** X20.  Without [verbose] (not passed, or false) [Pipeline.run] prints
    nothing, whether the nodes succeed or one of them raises. *)
Theorem run_quiet_prints_nothing {C : Collaborators}
  (self : Pipeline) (args : run_args) (st : store) :
  py_default false (arg_verbose args) = false ->
  printed (trace_of (Pipeline_run self args st)) = [].
Proof.
  intros Hv. rewrite Pipeline_run_eq, Hv.
  pose proof (run_loop_quiet (py_default (PyStr "./results") (arg_save_path args))
                (py_default false (arg_no_cache args))
                (py_default false (arg_dry_run args))
                (execution_order self) st) as Hq.
  destruct (for_each _ _ st) as [[t st1] [u|e]]; unfold trace_of in *; simpl in *.
  - rewrite app_nil_r. exact Hq.
  - exact Hq.
Qed.

(** Witness of X20: the default call runs the three nodes silently. *)
Lemma run_quiet_prints_nothing_witness :
  printed (trace_of (Pipeline_run (C := failing_collaborators)
                       {| execution_order := [0; 1; 2]%nat |} no_args abc_store)) = [].
Proof.
  apply (@run_quiet_prints_nothing failing_collaborators
           {| execution_order := [0; 1; 2]%nat |} no_args abc_store).
  reflexivity.
Defined.

(** X21.  With [verbose=True] the output of [Pipeline.run] is one line
    ["Running:  <node>"] per node whose [run] is called, in that order and
    with the node's string form as it is when its round starts, followed by
    the two closing lines when no node raised and by nothing when one did. *)
Theorem run_verbose_announces_each_node {C : Collaborators}
  (self : Pipeline) (args : run_args) (st : store) :
  arg_verbose args = Some true ->
  printed (trace_of (Pipeline_run self args st))
  = (announcements st (run_events (trace_of (Pipeline_run self args st)))
     ++ match outcome_of (Pipeline_run self args st) with
        | Returned _ => ["Pipeline done:"; py_str_mul "-" 46]
        | Raised _ => []
        end)%list.
Proof.
  intros Hv. rewrite Pipeline_run_run_events, Pipeline_run_outcome.
  rewrite Pipeline_run_eq, Hv. simpl py_default at 4 5 8.
  pose proof (run_loop_announcements
                (py_default (PyStr "./results") (arg_save_path args))
                (py_default false (arg_no_cache args))
                (py_default false (arg_dry_run args))
                (execution_order self) st) as Ha.
  destruct (for_each _ _ st) as [[t st1] [u|e]];
    unfold trace_of, outcome_of in *; simpl in *.
  - rewrite printed_app, Ha. reflexivity.
  - rewrite app_nil_r. exact Ha.
Qed.

(** Witness of X21: the run that fails at [B] announces [A] and [B] only. *)
Lemma run_verbose_announces_each_node_witness :
  printed (trace_of (Pipeline_run (C := failing_collaborators)
                       {| execution_order := [0; 1; 2]%nat |} verbose_args abc_store))
  = ["Running:  A"; "Running:  B"].
Proof.
  rewrite (@run_verbose_announces_each_node failing_collaborators
             {| execution_order := [0; 1; 2]%nat |} verbose_args abc_store eq_refl).
  reflexivity.
Defined.

(** X22.  [Pipeline.run] does not restore the cache policies it sets: when
    the nodes themselves leave the store alone, the store after the run is
    the one before it except that the cacher of every node that was run holds
    ["OFF"] (with [no_cache]) or ["AUTO"]; every other cacher and every node
    is unchanged. *)
Theorem run_leaves_policy_set {C : Collaborators}
  (self : Pipeline) (args : run_args) (st : store) :
  (forall n d s st', fst (node_run n d s st') = st') ->
  nodes (store_of (Pipeline_run self args st)) = nodes st
  /\ forall c : loc,
       cache_policy (cachers (store_of (Pipeline_run self args st)) c)
       = if cacher_of_some st (ran_nodes (trace_of (Pipeline_run self args st))) c
         then (if py_default false (arg_no_cache args) then "OFF" else "AUTO")
         else cache_policy (cachers st c).
Proof.
  intros Hpure. rewrite Pipeline_run_store, Pipeline_run_ran_nodes.
  apply run_loop_store. exact Hpure.
Qed.

(** Witness of X22: after [run(no_cache=True)] on the chain [A], [B], [C] the
    cacher of [B] is left at ["OFF"]. *)
Lemma run_leaves_policy_set_witness :
  cache_policy
    (cachers (store_of (Pipeline_run (C := chain_collaborators)
                          {| execution_order := [0; 1; 2]%nat |}
                          {| arg_save_path := None; arg_no_cache := Some true;
                             arg_dry_run := None; arg_verbose := None |} abc_store))
       0%nat)
  = "OFF".
Proof.
  rewrite (proj2 (@run_leaves_policy_set chain_collaborators
                    {| execution_order := [0; 1; 2]%nat |}
                    {| arg_save_path := None; arg_no_cache := Some true;
                       arg_dry_run := None; arg_verbose := None |} abc_store
                    (fun _ _ _ _ => eq_refl)) 0%nat).
  reflexivity.
Defined.


(** ** [detect_threshold_crossings]: which side changes are reported *)

Section ReportedCrossings.

Lemma np_nonzero_from_complete (a : list bool) :
  forall (i : Z) (k : nat),
    nth_error a k = Some true -> In (i + Z.of_nat k) (np_nonzero_from i a).
Proof.
  induction a as [|b a IH]; intros i k Hk; [destruct k; discriminate Hk|].
  destruct k as [|k]; simpl in Hk.
  - injection Hk as ->. simpl. left. lia.
  - specialize (IH (i + 1) k Hk).
    replace (i + 1 + Z.of_nat k) with (i + Z.of_nat (S k)) in IH by lia.
    simpl np_nonzero_from. destruct b; [right|]; exact IH.
Qed.

Lemma np_diff_bool_complete (a : list bool) :
  forall (k : nat) (x y : bool),
    nth_error a k = Some x -> nth_error a (S k) = Some y ->
    nth_error (np_diff_bool a) k = Some (xorb y x).
Proof.
  induction a as [|x0 a IH]; intros k x y Hx Hy; [destruct k; discriminate Hx|].
  destruct a as [|y0 a]; [destruct k; discriminate Hy|].
  change (np_diff_bool (x0 :: y0 :: a)) with (xorb y0 x0 :: np_diff_bool (y0 :: a)).
  destruct k as [|k].
  - simpl in Hx, Hy. injection Hx as <-. injection Hy as <-. reflexivity.
  - simpl. apply IH; assumption.
Qed.

(** [threshold_crossings] holds every change of sides. *)
Lemma threshold_crossings_of_complete (signal : list Q) (threshold : Q) (c : Z) :
  changes_side_at signal threshold c -> In c (threshold_crossings_of signal threshold).
Proof.
  intros (H0 & v0 & v1 & Hv0 & Hv1 & Hne).
  assert (Hlen : c + 1 < Z.of_nat (List.length signal)).
  { destruct (Z_lt_ge_dec (c + 1) (Z.of_nat (List.length signal))) as [H|H]; [exact H|].
    assert (Hnone : py_index signal (c + 1) = None) by (apply py_index_None_iff; lia).
    congruence. }
  rewrite py_index_nth in Hv0, Hv1 by lia.
  replace (Z.to_nat (c + 1)) with (S (Z.to_nat c)) in Hv1 by lia.
  unfold threshold_crossings_of, np_nonzero.
  replace c with (0 + Z.of_nat (Z.to_nat c)) at 1 by lia.
  apply np_nonzero_from_complete.
  rewrite (@np_diff_bool_complete _ (Z.to_nat c)
             (Qle_bool v0 threshold) (Qle_bool v1 threshold)).
  - f_equal. destruct (Qle_bool v0 threshold), (Qle_bool v1 threshold);
      try reflexivity; congruence.
  - rewrite side_mask_nth, Hv0. reflexivity.
  - rewrite side_mask_nth, Hv1. reflexivity.
Qed.

(** One round of the loop keeps a crossing that is far enough from every
    crossing before it. *)
Lemma np_mask_keeps_isolated (d : Q) (c : Z) (tc : list Z) :
  forall (b : bool) (kept : list Z),
    StronglySorted Z.lt tc ->
    np_mask tc (b :: np_ge (np_diff tc) d) = Some kept ->
    In c tc ->
    (hd_error tc = Some c -> b = true) ->
    (forall p, In p tc -> p < c -> (d <= inject_Z (c - p))%Q) ->
    In c kept.
Proof.
  induction tc as [|x rest IH]; intros b kept Hs Hmask Hin Hhd Hiso; [contradiction|].
  assert (Hstep : exists kept',
             np_mask rest (np_ge (np_diff (x :: rest)) d) = Some kept'
             /\ kept = if b then x :: kept' else kept').
  { simpl in Hmask. destruct (np_mask rest _) as [kept'|]; [|discriminate Hmask].
    injection Hmask as <-. eexists. split; reflexivity. }
  destruct Hstep as (kept' & Hrest & ->).
  inversion Hs as [|? ? Hs' Hall]; subst.
  destruct Hin as [->|Hin].
  - rewrite (Hhd eq_refl). left. reflexivity.
  - assert (Hc : In c kept').
    { destruct rest as [|y rest']; [contradiction|].
      change (np_diff (x :: y :: rest')) with ((y - x) :: np_diff (y :: rest')) in Hrest.
      unfold np_ge in Hrest. cbn [map] in Hrest. fold (np_ge (np_diff (y :: rest')) d) in Hrest.
      apply (IH (Qle_bool d (inject_Z (y - x))) kept' Hs' Hrest Hin).
      - simpl. intros Hy. injection Hy as ->.
        apply Qle_bool_iff. apply Hiso; [left; reflexivity|].
        inversion Hall; assumption.
      - intros p Hp Hpc. apply Hiso; [right; exact Hp|exact Hpc]. }
    destruct b; [right|]; exact Hc.
Qed.

(** The loop never drops a crossing that is far enough from every crossing
    before it. *)
Lemma dead_time_loop_keeps_isolated (d : Q) (tc : list Z) (ds : list bool) :
  forall (c : Z) (r : list Z),
    ds = np_insert0 (np_ge (np_diff tc) d) true ->
    StronglySorted Z.lt tc ->
    dead_time_loop d tc ds = Some r ->
    In c tc ->
    (forall p, In p tc -> p < c -> (d <= inject_Z (c - p))%Q) ->
    In c r.
Proof.
  funelim (dead_time_loop d tc ds); intros c r Hds Hs Hr Hin Hiso.
  - injection Hr as <-. exact Hin.
  - subst distance_sufficient. unfold np_insert0 in Hkept.
    apply (H c r eq_refl).
    + eapply np_mask_sorted; eauto.
    + exact Hr.
    + eapply np_mask_keeps_isolated; eauto.
    + intros p Hp Hpc. apply Hiso; [|exact Hpc]. eapply np_mask_In; eauto.
  - discriminate Hr.
Qed.

End ReportedCrossings.

(** X8.  With a dead time of at most one sample (the float product
    [dead_time * fs] is at most 1, which [float_mul_le_Z] gives whenever the
    exact product is) the result of [detect_threshold_crossings] is exactly
    the set of side changes: an index is returned if and only if the samples
    at it and after it lie on different sides of the threshold; the side
    changes come in strictly increasing order. *)
Theorem detect_without_dead_time_finds_every_side_change
  (signal : list Q) (fs threshold dead_time : Q) :
  (float_mul dead_time fs <= 1)%Q ->
  exists r : list Z,
    detect_threshold_crossings signal fs threshold dead_time = Some r
    /\ StronglySorted Z.lt r
    /\ forall c : Z, In c r <-> changes_side_at signal threshold c.
Proof.
  intros Hd. exists (threshold_crossings_of signal threshold).
  split; [|split].
  - unfold detect_threshold_crossings. cbv zeta.
    fold (threshold_crossings_of signal threshold).
    apply dead_time_loop_all.
    unfold np_all, np_insert0, np_ge. simpl. apply forallb_forall.
    intros b Hb. apply in_map_iff in Hb as (g & <- & Hg).
    apply Qle_bool_iff. eapply Qle_trans; [exact Hd|].
    pose proof (@np_diff_sorted (threshold_crossings_of signal threshold)
                  (np_nonzero_from_sorted 0 _)) as Hs.
    rewrite Forall_forall in Hs. specialize (Hs g Hg).
    change 1%Q with (inject_Z 1). rewrite <- Zle_Qle. exact Hs.
  - apply np_nonzero_from_sorted.
  - intros c. split.
    + intros Hin. apply threshold_crossings_of_spec. exact Hin.
    + apply threshold_crossings_of_complete.
Qed.

(** Witness of X8. *)
Lemma detect_without_dead_time_finds_every_side_change_witness :
  exists r : list Z,
    detect_threshold_crossings [0; -5; -6; 0; -7; 0]%Q 1 (-3) 0 = Some r
    /\ StronglySorted Z.lt r
    /\ forall c : Z, In c r <-> changes_side_at [0; -5; -6; 0; -7; 0]%Q (-3) c.
Proof.
  apply (@detect_without_dead_time_finds_every_side_change
           [0; -5; -6; 0; -7; 0]%Q 1 (-3) 0).
  vm_compute. discriminate.
Defined.

(** X24.  [detect_threshold_crossings] never drops an isolated crossing: a
    side change that lies at least [dead_time * fs] samples (the float
    product, which [float_mul_le_Z] bounds by any gap of at most [2^53]
    samples that bounds the exact product) after every earlier side change
    of the signal, in particular the first one, is always in the result. *)
Theorem isolated_crossings_are_reported
  (signal : list Q) (fs threshold dead_time : Q) (c : Z) :
  changes_side_at signal threshold c ->
  (forall p : Z,
     changes_side_at signal threshold p -> p < c ->
     (float_mul dead_time fs <= inject_Z (c - p))%Q) ->
  exists r : list Z,
    detect_threshold_crossings signal fs threshold dead_time = Some r /\ In c r.
Proof.
  intros Hc Hiso.
  unfold detect_threshold_crossings. cbv zeta.
  fold (threshold_crossings_of signal threshold).
  destruct (@dead_time_loop_spec (float_mul dead_time fs)
              (threshold_crossings_of signal threshold) _ eq_refl
              (np_nonzero_from_sorted 0 _))
    as (r & Hr & _).
  exists r. split; [exact Hr|].
  eapply dead_time_loop_keeps_isolated.
  - reflexivity.
  - apply np_nonzero_from_sorted.
  - exact Hr.
  - apply threshold_crossings_of_complete. exact Hc.
  - intros p Hp Hpc. apply Hiso; [|exact Hpc].
    apply threshold_crossings_of_spec. exact Hp.
Qed.

(** Witness of X24: the signal changes sides after the indices 0, 2, 9 and
    10; with a dead time of five samples the side change at 9 is seven
    samples after the one before it and is reported (the result is
    [[0; 9]]). *)
Lemma isolated_crossings_are_reported_witness :
  exists r : list Z,
    detect_threshold_crossings [0; -5; -6; 0; 0; 0; 0; 0; 0; 0; -5; 0]%Q 1 (-3) 5 = Some r
    /\ In 9 r.
Proof.
  apply (@isolated_crossings_are_reported
           [0; -5; -6; 0; 0; 0; 0; 0; 0; 0; -5; 0]%Q 1 (-3) 5 9).
  - split; [lia|]. exists 0%Q, (-5)%Q.
    split; [reflexivity|]. split; [reflexivity|]. vm_compute. discriminate.
  - intros p Hp Hlt. apply threshold_crossings_of_complete in Hp.
    vm_compute in Hp.
    destruct Hp as [<-|[<-|[<-|[<-|[]]]]]; try lia; vm_compute; discriminate.
Defined.
